(** * PDF Drawing Checker: the verification engine of [app.py]

    A shallow embedding of the table normaliser, the spatial/text lookup
    helpers and the row comparator of [src/app.py], followed by the
    properties of the specification that concern them.

    Modelling conventions.
    - Python [float] values are exact rationals ([Q]); float equality is
      [Qeq_bool], and the orderings are [Qle_bool] and [Qltb].
    - Python [str] is a Rocq [string] holding the UTF-8 bytes of the text.
      The character classes [\d], [\s], [\w] and [str.lower], [str.split],
      [str.strip] are taken on ASCII; the non-ASCII symbols that the code names
      literally (diameter and multiplication signs, dashes) are handled as
      their UTF-8 byte sequences, and [len] of a text counts its bytes.
    - [None] is [option]'s [None]; dict records with a fixed set of keys are
      Rocq records; dicts used as maps and sets are stdpp's [gmap] and [gset],
      or association lists where Python's insertion order is observable.
    - [sorted] is a stable insertion sort. *)

From Stdlib Require Import QArith Qabs Qround Qminmax Lqa Lia Ascii String List Sorted.
From stdpp Require Import gmap strings list pretty.
Import ListNotations.

(* ================================================================= *)
(** * Part I: the embedding *)
(* ================================================================= *)

(** ** Numbers *)

Definition Qltb (x y : Q) : bool := negb (Qle_bool y x).

(** [a < b] on Python tuples of two floats: lexicographic. *)
Definition pair_ltb (k1 k2 : Q * Q) : bool :=
  Qltb (fst k1) (fst k2) || (Qeq_bool (fst k1) (fst k2) && Qltb (snd k1) (snd k2)).

(** ** Sorting and minimum with a key *)

(** [insert_sorted before x l] puts [x] in front of the first element that
    is not strictly [before] it, so elements with equal keys keep the order
    they had: the sort is stable, as Python's is. *)
Fixpoint insert_sorted {A : Type} (before : A -> A -> bool) (x : A) (l : list A) : list A :=
  match l with
  | [] => [x]
  | y :: t => if before y x then y :: insert_sorted before x t else x :: l
  end.

Definition sorted_by {A : Type} (before : A -> A -> bool) (l : list A) : list A :=
  foldr (insert_sorted before) [] l.

(** [sorted(l, key=key)] *)
Definition sorted_key {A : Type} (key : A -> Q) (l : list A) : list A :=
  sorted_by (fun y x => Qltb (key y) (key x)) l.

(** [sorted(l, key=key, reverse=True)] *)
Definition sorted_key_reverse {A : Type} (key : A -> Q) (l : list A) : list A :=
  sorted_by (fun y x => Qltb (key x) (key y)) l.

(** [sorted(l, reverse=True)] on floats *)
Definition sorted_reverse (l : list Q) : list Q := sorted_key_reverse (fun v => v) l.

(** [min(x :: l, key=key)] with tuple keys: the first element whose key is
    minimal. *)
Definition min_key {A : Type} (key : A -> Q * Q) (x : A) (l : list A) : A :=
  fold_left (fun best v => if pair_ltb (key v) (key best) then v else best) l x.

(** ** Candidate selection *)

Definition default_tolerance : Q := 0.5.

(** [PDFQCApp._pick_candidate] *)
Definition _pick_candidate (candidates : list Q) (expected_length : option Q)
    (prefer_max : bool) (tolerance : Q) : option Q * string :=
  match candidates with
  | [] => (None, "none"%string)
  | c0 :: rest =>
      let ordered := sorted_reverse candidates in
      match expected_length with
      | None => (head ordered, "max_in_window"%string)
      | Some e =>
          if prefer_max then
            match List.find (fun value => Qle_bool (Qabs (value - e)) tolerance) ordered with
            | Some value => (Some value, "match_expected"%string)
            | None => (head ordered, "max_in_window"%string)
            end
          else
            (Some (min_key (fun v => (Qabs (v - e), - v)%Q) c0 rest),
             "closest_to_expected"%string)
      end
  end.

(** ** Characters and strings *)

Definition nonempty {A : Type} (l : list A) : bool :=
  match l with [] => false | _ :: _ => true end.

Definition chars (s : string) : list ascii := list_ascii_of_string s.
Definition str (l : list ascii) : string := string_of_list_ascii l.

Definition code_in (lo hi : N) (c : ascii) : bool :=
  (lo <=? N_of_ascii c)%N && (N_of_ascii c <=? hi)%N.

Definition is_digit (c : ascii) : bool := code_in 48 57 c.
Definition is_upper (c : ascii) : bool := code_in 65 90 c.
Definition is_lower (c : ascii) : bool := code_in 97 122 c.
Definition is_alpha (c : ascii) : bool := is_upper c || is_lower c.
Definition is_alnum (c : ascii) : bool := is_alpha c || is_digit c.

(** [\w] *)
Definition is_word (c : ascii) : bool := is_alnum c || Ascii.eqb c "_".

(** [\s], and the characters [str.split] and [str.strip] take as blank. *)
Definition is_space (c : ascii) : bool :=
  code_in 9 13 c || code_in 28 32 c.

Definition one_of (set : string) (c : ascii) : bool :=
  existsb (Ascii.eqb c) (chars set).

Definition to_lower (c : ascii) : ascii :=
  if is_upper c then ascii_of_N (N_of_ascii c + 32) else c.

Definition to_upper (c : ascii) : ascii :=
  if is_lower c then ascii_of_N (N_of_ascii c - 32) else c.

(** [s.lower()] and [s.upper()] *)
Definition str_lower (s : string) : string := str (map to_lower (chars s)).
Definition str_upper (s : string) : string := str (map to_upper (chars s)).

Fixpoint drop_while {A : Type} (p : A -> bool) (l : list A) : list A :=
  match l with
  | [] => []
  | x :: t => if p x then drop_while p t else l
  end.

Definition strip_with (p : ascii -> bool) (l : list ascii) : list ascii :=
  rev (drop_while p (rev (drop_while p l))).

(** [s.strip()] and [s.strip(set)] *)
Definition str_strip (s : string) : string := str (strip_with is_space (chars s)).
Definition str_strip_chars (set : string) (s : string) : string :=
  str (strip_with (one_of set) (chars s)).

(** Cut a list at the elements that satisfy [sep]; [cur] is the piece read so
    far, reversed. Empty pieces are kept. *)
Fixpoint split_at {A : Type} (sep : A -> bool) (cur : list A) (l : list A) : list (list A) :=
  match l with
  | [] => [rev cur]
  | c :: t => if sep c then rev cur :: split_at sep [] t else split_at sep (c :: cur) t
  end.

(** [s.split()]: the maximal runs of non-blank characters. *)
Definition str_split (s : string) : list string :=
  map str (List.filter nonempty (split_at is_space [] (chars s))).

Fixpoint is_prefix (p l : list ascii) : bool :=
  match p, l with
  | [], _ => true
  | a :: p', b :: l' => Ascii.eqb a b && is_prefix p' l'
  | _ :: _, [] => false
  end.

(** [s.endswith(suffix)] *)
Definition str_endswith (s suffix : string) : bool :=
  is_prefix (rev (chars suffix)) (rev (chars s)).

(** [needle in hay] *)
Fixpoint contains (needle hay : list ascii) : bool :=
  is_prefix needle hay ||
  match hay with
  | [] => false
  | _ :: t => contains needle t
  end.

Definition str_contains (needle hay : string) : bool := contains (chars needle) (chars hay).

(** [s.replace(old, new)] for a non-empty [old]: occurrences are replaced from
    the left and do not overlap; [skip] counts the characters of an occurrence
    still to be dropped. *)
Fixpoint replace_from (old new : list ascii) (skip : nat) (l : list ascii) : list ascii :=
  match l with
  | [] => []
  | c :: t =>
      match skip with
      | S k => replace_from old new k t
      | O => if is_prefix old l
             then new ++ replace_from old new (length old - 1) t
             else c :: replace_from old new 0 t
      end
  end.

Definition str_replace (old new s : string) : string :=
  str (replace_from (chars old) (chars new) 0 (chars s)).

(** ** Regular expressions

    The patterns of the program, as syntax trees, with a backtracking
    matcher that lists the ways a pattern matches at a position in the order
    Python's [re] tries them (greedy repetition first, left alternative
    first). *)

Inductive regex :=
| Eps
| Chr (p : ascii -> bool)
| Seq (r1 r2 : regex)
| Alt (r1 r2 : regex)
| Star (r : regex)
| WordB.

Definition Plus (r : regex) : regex := Seq r (Star r).
Definition Opt (r : regex) : regex := Alt r Eps.
Definition Lit (s : string) : regex :=
  foldr (fun c r => Seq (Chr (Ascii.eqb c)) r) Eps (chars s).
(** A letter of a pattern compiled with [re.IGNORECASE]. *)
Definition ChrI (c : ascii) : regex := Chr (fun d => Ascii.eqb (to_lower d) (to_lower c)).

(** The character before the position reached after reading [m]. *)
Definition last_char (prev : option ascii) (m : list ascii) : option ascii :=
  match rev m with c :: _ => Some c | [] => prev end.

Definition word_opt (c : option ascii) : bool :=
  match c with Some c => is_word c | None => false end.

(** Greedy repetition of [step], which reads one iteration. An iteration
    that reads nothing is not repeated. *)
Fixpoint star_loop (step : option ascii -> list ascii -> list (list ascii * list ascii))
    (fuel : nat) (prev : option ascii) (l : list ascii) : list (list ascii * list ascii) :=
  match fuel with
  | O => [([], l)]
  | S n =>
      flat_map (fun '(m1, l1) =>
                  if nonempty m1
                  then map (fun '(m2, l2) => (m1 ++ m2, l2))
                           (star_loop step n (last_char prev m1) l1)
                  else [])
               (step prev l)
      ++ [([], l)]
  end.

(** [run r prev l]: the matches of [r] at the start of [l], each as the text
    read and the text left, in backtracking order; [prev] is the character
    before [l], which [\b] looks at. *)
Fixpoint run (r : regex) (prev : option ascii) (l : list ascii) : list (list ascii * list ascii) :=
  match r with
  | Eps => [([], l)]
  | Chr p => match l with
             | c :: t => if p c then [([c], t)] else []
             | [] => []
             end
  | Seq r1 r2 =>
      flat_map (fun '(m1, l1) =>
                  map (fun '(m2, l2) => (m1 ++ m2, l2)) (run r2 (last_char prev m1) l1))
               (run r1 prev l)
  | Alt r1 r2 => run r1 prev l ++ run r2 prev l
  | Star r1 => star_loop (run r1) (length l) prev l
  | WordB => if xorb (word_opt prev) (word_opt (head l)) then [([], l)] else []
  end.

(** [re.search]: the first position with a match, and the first match
    there, as the text before it, the text matched and the text after. *)
Fixpoint search_from (r : regex) (prev : option ascii) (l : list ascii)
    : option (list ascii * list ascii * list ascii) :=
  match head (run r prev l) with
  | Some (m, rest) => Some ([], m, rest)
  | None =>
      match l with
      | [] => None
      | c :: t =>
          match search_from r (Some c) t with
          | Some (before, m, rest) => Some (c :: before, m, rest)
          | None => None
          end
      end
  end.

Definition re_search (r : regex) (s : string) : bool :=
  bool_decide (is_Some (search_from r None (chars s))).

(** [re.fullmatch] *)
Definition re_fullmatch (r : regex) (s : string) : bool :=
  existsb (fun '(_, rest) => negb (nonempty rest)) (run r None (chars s)).

(** The successive matches of [re.finditer], each with the unmatched text in
    front of it, and the unmatched tail. None of the program's patterns
    matches the empty string; a match that reads nothing is stepped over. *)
Fixpoint find_all (r : regex) (fuel : nat) (prev : option ascii) (l : list ascii)
    : list (list ascii * list ascii) * list ascii :=
  match fuel with
  | O => ([], l)
  | S n =>
      match search_from r prev l with
      | None => ([], l)
      | Some (before, m, rest) =>
          match m, rest with
          | [], [] => ([], l)
          | [], c :: rest' =>
              let '(ms, tail) := find_all r n (Some c) rest' in
              (match ms with
               | (b, m') :: ms' => (before ++ c :: b, m') :: ms'
               | [] => []
               end,
               match ms with [] => l | _ => tail end)
          | _ :: _, _ =>
              let '(ms, tail) := find_all r n (last_char (last_char prev before) m) rest in
              ((before, m) :: ms, tail)
          end
      end
  end.

(** [re.findall] for a pattern without groups. *)
Definition re_findall (r : regex) (s : string) : list string :=
  map (fun '(_, m) => str m) (fst (find_all r (String.length s) None (chars s))).

(** [re.sub(r, repl, s)] for a plain replacement text. *)
Definition re_sub (r : regex) (repl : string) (s : string) : string :=
  let '(ms, tail) := find_all r (String.length s) None (chars s) in
  str (flat_map (fun '(before, _) => before ++ chars repl) ms ++ tail).

(** [re.split(r, s)] for a pattern without groups. *)
Definition re_split (r : regex) (s : string) : list string :=
  let '(ms, tail) := find_all r (String.length s) None (chars s) in
  map (fun '(before, _) => str before) ms ++ [str tail].

(** ** Reading numbers

    [float(s)] on the texts the program passes to it: an optional sign,
    digits, and an optional point with further digits, at least one digit in
    all. Any other text raises [ValueError], which is [None] here. *)

Definition digit_val (c : ascii) : N := (N_of_ascii c - 48)%N.

Definition digits_val (l : list ascii) : N :=
  fold_left (fun acc c => (acc * 10 + digit_val c)%N) l 0%N.

Fixpoint take_while {A : Type} (p : A -> bool) (l : list A) : list A :=
  match l with
  | [] => []
  | x :: t => if p x then x :: take_while p t else []
  end.

(** The value of [ip.fp] for digit strings [ip] and [fp]. *)
Definition decimal_val (ip fp : list ascii) : Q :=
  (inject_Z (Z.of_N (digits_val ip))
   + Qmake (Z.of_N (digits_val fp)) (Pos.pow 10 (Pos.of_nat (length fp))))%Q.

Definition unsigned_float (l : list ascii) : option Q :=
  let ip := take_while is_digit l in
  let r1 := drop_while is_digit l in
  let '(fp, r2) :=
    match r1 with
    | c :: t => if Ascii.eqb c "." then (take_while is_digit t, drop_while is_digit t)
                else ([], r1)
    | [] => ([], r1)
    end in
  if nonempty r2 then None
  else if negb (nonempty ip) && negb (nonempty fp) then None
  else Some (match fp with
             | [] => inject_Z (Z.of_N (digits_val ip))
             | _ :: _ => Qred (decimal_val ip fp)
             end).

Definition py_float (s : string) : option Q :=
  match chars s with
  | c :: t => if Ascii.eqb c "-" then Qopp <$> unsigned_float t
              else if Ascii.eqb c "+" then unsigned_float t
              else unsigned_float (c :: t)
  | [] => None
  end.

(** ** Python values *)

(** A number that is an [int] or a [float] at run time. *)
Inductive pynum := PyInt (z : Z) | PyFloat (q : Q).

Definition num_val (n : pynum) : Q :=
  match n with PyInt z => inject_Z z | PyFloat q => q end.

(** [int(q)]: truncation towards zero. *)
Definition Qtrunc (q : Q) : Z := if Qle_bool 0 q then Qfloor q else Qceiling q.

(** Truthiness of an optional string: [None] and [""] are false. *)
Definition truthy (s : option string) : bool :=
  match s with Some (String _ _) => true | _ => false end.

(** [a or b] on optional strings. *)
Definition str_or (a b : option string) : option string := if truthy a then a else b.

(** [sep.join(parts)] *)
Definition join (sep : string) (parts : list string) : string := String.concat sep parts.

(** Python's float formatting, [format(v, "g")] and [format(v, ".1f")], is
    the interpreter's; the comparator takes both as given. *)
Record py_format := { format_g : Q -> string; format_1f : Q -> string }.

Definition format_num (fmt : py_format) (n : pynum) : string :=
  match n with PyInt z => pretty z | PyFloat q => format_g fmt q end.

(** ** Rows, lookup results and verdicts *)

(** A bounding box in page coordinates; [top] and [bottom] grow downwards. *)
Module BBox.
Record t := mk { x0 : Q; x1 : Q; top : Q; bottom : Q }.
End BBox.

(** A table row as the normaliser builds it. The key "_pos_duplicate" is
    absent until the duplicate analysis has run; [row.get] then yields
    [None], which is [false] here. *)
Module Row.
Record t := mk {
  pos : string;
  description : string;
  length : option Q;
  length_display : option string;
  length_options : list Q;
  table_id : option nat;
  table_label : option string;
  quantity : option Q;
  quantity_display : option string;
  callout_quantity_text : option string;
  thickness : option Q;
  thickness_display : option string;
  table_page : option nat;
  table_anchor : option BBox.t;
  _pos_duplicate : bool;
}.
End Row.

(** The [meta] dict a lookup returns. A key that a lookup leaves out reads
    as [None] (or as the default the reader passes to [get]); the empty dict
    is [Meta.empty]. *)
Module Meta.
Record t := mk {
  method : option string;
  candidates : list Q;
  selection : option string;
  bbox : option BBox.t;
  value_bbox : option BBox.t;
  candidate_bboxes : list (Q * BBox.t);
  tokens : option (list string);
  quantity_tokens : bool;
  quantity_value : option pynum;
  quantity_label : option string;
}.
Definition empty : t := mk None [] None None None [] None false None None.
End Meta.

(** What [_find_value_for_row] returns:
    [(callout_found, value, page_idx, meta)]. *)
Definition lookup_result : Type := bool * option Q * option nat * Meta.t.

(** The lookup engine as the comparator calls it:
    [_find_value_for_row pos desc expected_value prefer_max quantity_text quantity_value]. *)
Definition lookup_engine : Type :=
  string -> string -> option Q -> bool -> option string -> option Q -> lookup_result.

Module Result.
Record t := mk {
  row : Row.t;
  _row_index : nat;
  length_required : bool;
  callout_found : bool;
  length_found : bool;
  length_match : bool;
  drawing_length : option Q;
  drawing_page : option nat;
  drawing_method : option string;
  selection_rule : option string;
  candidate_lengths : list Q;
  thickness_required : bool;
  thickness_callout_found : bool;
  thickness_found : bool;
  thickness_match : bool;
  drawing_thickness : option Q;
  thickness_page : option nat;
  thickness_method : option string;
  thickness_selection_rule : option string;
  candidate_thicknesses : list Q;
  quantity_callout_found : bool;
  quantity_callout : option pynum;
  quantity_callout_label : option string;
  quantity_tokens_detected : bool;
  status : string;
  failure_reasons : list string;
  info_notes : list string;
  callout_bbox : option BBox.t;
  length_bbox : option BBox.t;
  thickness_bbox : option BBox.t;
}.
End Result.

(** ** Table normaliser, line mode *)

(** [re.sub(r"[^...]", "", s)] with a one-character class: the characters
    of the class complement are dropped, the others kept. *)
Definition keep_chars (keep : ascii -> bool) (s : string) : string :=
  str (List.filter keep (chars s)).

(** [l[i:j]] for [0 <= i] and [0 <= j]. *)
Definition slice {A : Type} (i j : nat) (l : list A) : list A := take (j - i) (drop i l).

(** [s[:-n]] *)
Definition str_drop_end (n : nat) (s : string) : string :=
  str (take (String.length s - n) (chars s)).

Definition is_linebreak (c : ascii) : bool :=
  code_in 10 13 c || code_in 28 30 c.

(** [s.splitlines()] *)
Fixpoint splitlines_from (cur : list ascii) (l : list ascii) : list (list ascii) :=
  match l with
  | [] => match cur with [] => [] | _ :: _ => [rev cur] end
  | c :: t =>
      if Ascii.eqb c "013" then
        match t with
        | "010"%char :: t' => rev cur :: splitlines_from [] t'
        | _ => rev cur :: splitlines_from [] t
        end
      else if is_linebreak c then rev cur :: splitlines_from [] t
      else splitlines_from (c :: cur) t
  end.

Definition str_splitlines (s : string) : list string :=
  map str (splitlines_from [] (chars s)).

Definition digits_re : regex := Plus (Chr is_digit).

(** [\d+(?:\.\d+)?] *)
Definition number_re : regex := Seq digits_re (Opt (Seq (Lit ".") digits_re)).

(** [re.sub(r"[^\d.,]", "", raw).replace(",", "")] *)
Definition clean_length_token (length_token_raw : string) : string :=
  str_replace "," "" (keep_chars (fun c => is_digit c || one_of ".," c) length_token_raw).

(** [PDFQCApp.parse_table_row] *)
Definition parse_table_row (line : string) : option Row.t :=
  let tokens := str_split (str_strip line) in
  let n := length tokens in
  if (n <? 4)%nat then None else
  let pos_token := nth 0 tokens ""%string in
  if negb (re_fullmatch number_re pos_token) then None else
  let last_raw := nth (n - 1) tokens ""%string in
  let last := str_lower last_raw in
  let parts :=
    if String.eqb last "mm" then
      let length_token_raw := nth (n - 2) tokens ""%string in
      Some (length_token_raw, slice 1 (n - 2) tokens, length_token_raw +:+ " mm")
    else if str_endswith last "mm" then
      Some (str_drop_end 2 last_raw, slice 1 (n - 1) tokens, last_raw)
    else None in
  match parts with
  | None => None
  | Some (length_token_raw, desc_tokens, length_display) =>
      if negb (nonempty desc_tokens) then None else
      let description := str_strip (join " " desc_tokens) in
      if negb (truthy (Some description)) then None else
      let cleaned := clean_length_token length_token_raw in
      if String.eqb cleaned "" then None else
      match py_float cleaned with
      | None => None
      | Some length_value =>
          Some {| Row.pos := pos_token;
                  Row.description := description;
                  Row.length := Some length_value;
                  Row.length_display := Some length_display;
                  Row.length_options := [length_value];
                  Row.table_id := None;
                  Row.table_label := None;
                  Row.quantity := None;
                  Row.quantity_display := None;
                  Row.callout_quantity_text := None;
                  Row.thickness := None;
                  Row.thickness_display := None;
                  Row.table_page := None;
                  Row.table_anchor := None;
                  Row._pos_duplicate := false |}
      end
  end.

(** [row.setdefault("table_id", 1); row.setdefault("table_label", "Table 1")] *)
Definition with_default_table (row : Row.t) : Row.t :=
  {| Row.pos := Row.pos row;
     Row.description := Row.description row;
     Row.length := Row.length row;
     Row.length_display := Row.length_display row;
     Row.length_options := Row.length_options row;
     Row.table_id := Some (default 1%nat (Row.table_id row));
     Row.table_label := Some (default "Table 1"%string (Row.table_label row));
     Row.quantity := Row.quantity row;
     Row.quantity_display := Row.quantity_display row;
     Row.callout_quantity_text := Row.callout_quantity_text row;
     Row.thickness := Row.thickness row;
     Row.thickness_display := Row.thickness_display row;
     Row.table_page := Row.table_page row;
     Row.table_anchor := Row.table_anchor row;
     Row._pos_duplicate := Row._pos_duplicate row |}.

(** [PDFQCApp.extract_table_rows]: the rows of the text, and the text of the
    lines that are not rows. *)
Definition extract_table_rows (text : string) : list Row.t * string :=
  let lines := str_splitlines text in
  let rows := omap parse_table_row lines in
  let drawing_lines :=
    List.filter (fun line => negb (bool_decide (is_Some (parse_table_row line)))) lines in
  (map with_default_table rows, join (String "010" "") drawing_lines).

(** ** Table normaliser, grid mode

    [extract_rows_with_plumber] on the primitives that pdfplumber hands it:
    for every page its words, its text and its tables, a table being a grid
    of cells that are a string or [None]. *)

Module Word.
Record t := mk { text : string; x0 : Q; x1 : Q; top : Q; bottom : Q }.
End Word.

Record page := {
  page_words : list Word.t;
  page_text : string;
  page_tables : list (list (list (option string)));
}.

(** [round(q)]: to the nearest integer, halves to the even one. *)
Definition py_round (q : Q) : Z :=
  let f := Qfloor q in
  let d := (q - inject_Z f)%Q in
  if Qltb d 0.5 then f
  else if Qltb 0.5 d then (f + 1)%Z
  else if Z.even f then f else (f + 1)%Z.

(** [round(q, 6)] *)
Definition round6 (q : Q) : Q := Qred (Qmake (py_round (q * 1000000)) 1000000).

Definition section_keywords : list string :=
  ["PROFILES"; "PROFILE"; "PLATES"; "PLATE"; "PINS"; "PIN"]%string.

Definition _normalize_header_token (cell : string) : string * string :=
  let upper := str_upper cell in
  (upper, keep_chars (fun c => is_upper c || is_digit c) upper).

Definition _header_matches (cell : string) (keywords : list string) : bool :=
  let '(upper, compact) := _normalize_header_token cell in
  existsb (fun key =>
             let key_upper := str_upper key in
             let key_compact := keep_chars (fun c => is_upper c || is_digit c) key_upper in
             str_contains key_upper upper || str_contains key_compact compact)
          keywords.

Fixpoint find_index {A : Type} (p : A -> bool) (l : list A) : option nat :=
  match l with
  | [] => None
  | x :: t => if p x then Some 0%nat else S <$> find_index p t
  end.

Definition _find_header_index (header_row : list string) (keywords : list string) : option nat :=
  find_index (fun cell => _header_matches cell keywords) header_row.

Definition measurement_priority : list (list string * string) :=
  [(["LENGTH"; "LENGTH (MM)"; "LENGTHMM"], "length");
   (["SIZE"; "DIMENSION"; "DIMENSIONS"], "size")]%string.

Definition quantity_keywords : list string :=
  ["ITEM QTY"; "ITEMQTY"; "ITEM_QTY"; "QTY"; "QUANTITY"; "Q'TY"]%string.

Fixpoint first_some {A B : Type} (f : A -> option B) (l : list A) : option B :=
  match l with
  | [] => None
  | x :: t => match f x with Some y => Some y | None => first_some f t end
  end.

Definition _find_measurement_index (header_row : list string) : option (nat * string) :=
  first_some (fun '(keywords, measure_type) =>
                (fun idx => (idx, measure_type)) <$> _find_header_index header_row keywords)
             measurement_priority.

(** The columns of a table, read off its header row. *)
Record header := {
  header_pos : nat;
  pos_idx : nat;
  desc_idx : nat;
  measure_idx : nat;
  measure_type : string;
  thickness_idx : option nat;
  quantity_idx : option nat;
}.

(** The first row of the table that names a POS, a description and a
    measurement column; [i] is the index of [rows]' first row. *)
Fixpoint find_header (i : nat) (rows : list (list string)) : option header :=
  match rows with
  | [] => None
  | candidate :: rest =>
      match _find_header_index candidate ["POS"%string],
            _find_header_index candidate ["DESCRIPTION"; "DESC"]%string,
            _find_measurement_index candidate with
      | Some p, Some d, Some (m, mt) =>
          Some {| header_pos := i; pos_idx := p; desc_idx := d;
                  measure_idx := m; measure_type := mt;
                  thickness_idx :=
                    _find_header_index candidate ["THICKNESS"; "THK"; "THICK"]%string;
                  quantity_idx := _find_header_index candidate quantity_keywords |}
      | _, _, _ => find_header (S i) rest
      end
  end.

(** [[-+]?\d+(?:\.\d+)?] *)
Definition signed_number_re : regex :=
  Seq (Opt (Chr (one_of "-+"))) number_re.

(** [re.sub(r"[^\d.,+-]", "", raw).replace(",", "")] *)
Definition clean_length_cell (measure_token_raw : string) : string :=
  str_replace "," ""
    (keep_chars (fun c => is_digit c || one_of ".,+-" c) measure_token_raw).

(** The measurement cell of a row: the length, the acceptable lengths and
    the text to display, or [None] when the row is to be skipped. *)
Definition parse_measure (measure_type measure_token_raw : string)
    : option (Q * list Q * string) :=
  if String.eqb measure_type "length" then
    let cleaned := clean_length_cell measure_token_raw in
    if String.eqb cleaned "" then None else
    match py_float cleaned with
    | None => None
    | Some length_value =>
        Some (length_value, [length_value],
              if str_endswith (str_strip (str_lower measure_token_raw)) "mm"
              then measure_token_raw else measure_token_raw +:+ " mm")
    end
  else if String.eqb measure_type "size" then
    let number_strings := re_findall number_re (str_replace "," "" measure_token_raw) in
    let numeric_values := omap py_float number_strings in
    match numeric_values with
    | [] => None
    | length_value :: _ => Some (length_value, numeric_values, measure_token_raw)
    end
  else None.

(** The key under which a repeated row is recognised. *)
Definition row_key : Type :=
  string * string * list Q * string * option Q * option (Q + string).

Definition option_eqb {A : Type} (eqb : A -> A -> bool) (a b : option A) : bool :=
  match a, b with
  | Some x, Some y => eqb x y
  | None, None => true
  | _, _ => false
  end.

Fixpoint list_eqb {A : Type} (eqb : A -> A -> bool) (a b : list A) : bool :=
  match a, b with
  | [], [] => true
  | x :: a', y :: b' => eqb x y && list_eqb eqb a' b'
  | _, _ => false
  end.

Definition row_key_eqb (k1 k2 : row_key) : bool :=
  let '(p1, d1, l1, m1, t1, q1) := k1 in
  let '(p2, d2, l2, m2, t2, q2) := k2 in
  String.eqb p1 p2 && String.eqb d1 d2 && list_eqb Qeq_bool l1 l2 && String.eqb m1 m2
  && option_eqb Qeq_bool t1 t2
  && option_eqb (fun a b => match a, b with
                            | inl x, inl y => Qeq_bool x y
                            | inr x, inr y => String.eqb x y
                            | _, _ => false
                            end) q1 q2.

Definition some_if_nonempty (s : string) : option string :=
  match s with EmptyString => None | _ => Some s end.

(** What one data row of a table gives: nothing, an [IndexError] (a cell of
    a header column is missing from the row), or a row with its key and its
    text snippet. *)
Inductive row_outcome :=
| RowSkip
| RowError
| RowOk (row : Row.t) (key : row_key) (snippet : string).

Definition pair_key_sorted {A : Type} (key : A -> Q * Q) (l : list A) : list A :=
  sorted_by (fun y x => pair_ltb (key y) (key x)) l.

(** The box of the word that shows the POS cell, leftmost and topmost first. *)
Definition pos_anchor (page_words : list Word.t) (pos_value_raw pos_value : string)
    : option BBox.t :=
  let by_text t :=
    List.filter (fun w => let wt := str_strip (Word.text w) in
                          nonempty (chars wt) && String.eqb wt t) page_words in
  let candidates :=
    if nonempty (by_text pos_value_raw) then by_text pos_value_raw else by_text pos_value in
  match pair_key_sorted (fun w => (Word.x0 w, Word.top w)) candidates with
  | cand :: _ => Some (BBox.mk (Word.x0 cand) (Word.x1 cand) (Word.top cand) (Word.bottom cand))
  | [] => None
  end.

(** The cells [cells[i]] for [i] in [range(lo, hi)], or [None] when one of
    them is out of range. *)
Definition cells_range (cells : list string) (lo hi : nat) : option (list string) :=
  mapM (fun i => cells !! i) (seq lo (hi - lo)).

(** The body of the loop over the data rows of a table. *)
Definition grid_row (h : header) (table_counter page_idx : nat) (table_label : string)
    (page_words : list Word.t) (cells : list string) : row_outcome :=
  if negb (nonempty cells) then RowSkip else
  if negb (existsb (fun c => nonempty (chars c)) cells) then RowSkip else
  match cells !! pos_idx h with
  | None => RowError
  | Some pos_cell =>
      let pos_value_raw := str_strip pos_cell in
      let pos_value := str_replace " " "" pos_value_raw in
      if negb (re_fullmatch number_re pos_value) then RowSkip else
      match cells_range cells (desc_idx h) (measure_idx h) with
      | None => RowError
      | Some desc_cells =>
          let desc_parts :=
            match map str_strip desc_cells with
            | [] => []
            | first :: others => first :: List.filter (fun c => nonempty (chars c)) others
            end in
          if negb (nonempty desc_parts) then RowSkip else
          let description := join " " desc_parts in
          match cells !! measure_idx h with
          | None => RowError
          | Some measure_cell =>
              let measure_token_raw := str_strip measure_cell in
              if String.eqb measure_token_raw "" then RowSkip else
              match parse_measure (measure_type h) measure_token_raw with
              | None => RowSkip
              | Some (length_value, length_options0, length_display) =>
                  let length_options :=
                    if nonempty length_options0 then length_options0 else [length_value] in
                  let quantity_raw :=
                    match quantity_idx h with
                    | Some qi => from_option str_strip ""%string (cells !! qi)
                    | None => ""%string
                    end in
                  let quantity_value :=
                    head (re_findall signed_number_re (str_replace "," "" quantity_raw))
                      ≫= py_float in
                  let length_key := map round6 length_options in
                  let thickness_token_raw :=
                    match thickness_idx h with
                    | Some ti => from_option str_strip ""%string (cells !! ti)
                    | None => ""%string
                    end in
                  let thickness_value :=
                    Qabs <$> (head (re_findall signed_number_re
                                      (str_replace "," "" thickness_token_raw))
                              ≫= py_float) in
                  let thickness_key := round6 <$> thickness_value in
                  let quantity_key :=
                    match quantity_value with
                    | Some q => Some (inl (round6 q))
                    | None => if nonempty (chars quantity_raw)
                              then Some (inr (str_lower (str_strip quantity_raw)))
                              else None
                    end in
                  RowOk
                    {| Row.pos := pos_value;
                       Row.description := description;
                       Row.length := Some length_value;
                       Row.length_display := some_if_nonempty length_display;
                       Row.length_options := length_options;
                       Row.table_id := Some table_counter;
                       Row.table_label := Some table_label;
                       Row.quantity := quantity_value;
                       Row.quantity_display := some_if_nonempty quantity_raw;
                       Row.callout_quantity_text := some_if_nonempty quantity_raw;
                       Row.thickness := thickness_value;
                       Row.thickness_display := some_if_nonempty thickness_token_raw;
                       Row.table_page := Some page_idx;
                       Row.table_anchor := pos_anchor page_words pos_value_raw pos_value;
                       Row._pos_duplicate := false |}
                    (pos_value, description, length_key, measure_type h,
                     thickness_key, quantity_key)
                    (join " " (List.filter (fun c => nonempty (chars c)) cells))
              end
          end
      end
  end.

(** What the extraction has gathered so far. *)
Record extraction := {
  ex_rows : list Row.t;
  ex_snippets : list (nat * string);
  ex_seen : list row_key;
  ex_table_counter : nat;
}.

(** The loop over the data rows; [None] is an exception. *)
Fixpoint grid_rows (h : header) (page_idx : nat) (table_label : string)
    (page_words : list Word.t) (data_rows : list (list string)) (st : extraction)
    : option extraction :=
  match data_rows with
  | [] => Some st
  | cells :: rest =>
      match grid_row h (ex_table_counter st) page_idx table_label page_words cells with
      | RowError => None
      | RowSkip => grid_rows h page_idx table_label page_words rest st
      | RowOk row key snippet =>
          if existsb (row_key_eqb key) (ex_seen st)
          then grid_rows h page_idx table_label page_words rest st
          else grid_rows h page_idx table_label page_words rest
                 {| ex_rows := ex_rows st ++ [row];
                    ex_snippets :=
                      ex_snippets st ++
                      (if nonempty (chars snippet) then [(page_idx, snippet)] else []);
                    ex_seen := key :: ex_seen st;
                    ex_table_counter := ex_table_counter st |}
      end
  end.

(** The title of a table: the last row above the header with a single
    non-empty cell of three characters or more. *)
Definition table_title (label_rows : list (list string)) : option string :=
  fold_left (fun title label_row =>
               match List.filter (fun c => nonempty (chars c)) label_row with
               | [cand] => let cand_text := str_strip cand in
                           if (3 <=? String.length cand_text)%nat then Some cand_text else title
               | _ => title
               end) label_rows None.

(** The body of the loop over the tables of a page. *)
Definition process_table (page_idx : nat) (has_section_word : bool)
    (page_words : list Word.t) (table : list (list (option string))) (st : extraction)
    : option extraction :=
  if negb (nonempty table) then Some st else
  let normalized := map (map (fun cell => str_strip (default ""%string cell))) table in
  let is_target_table :=
    existsb (fun row => existsb (fun cell => _header_matches cell section_keywords) row)
            (take 2 normalized) in
  if negb is_target_table && negb has_section_word then Some st else
  match find_header 0 normalized with
  | None => Some st
  | Some h =>
      let data_rows := drop (S (header_pos h)) normalized in
      if (measure_idx h <=? desc_idx h)%nat || (measure_idx h <=? pos_idx h)%nat
      then Some st else
      let table_counter := S (ex_table_counter st) in
      let table_label :=
        match table_title (take (header_pos h) normalized) with
        | Some (String c t) => String c t
        | _ => "Table " +:+ pretty table_counter +:+ " (page " +:+ pretty page_idx +:+ ")"
        end in
      grid_rows h page_idx table_label page_words data_rows
        {| ex_rows := ex_rows st; ex_snippets := ex_snippets st;
           ex_seen := ex_seen st; ex_table_counter := table_counter |}
  end.

Fixpoint process_tables (page_idx : nat) (has_section_word : bool)
    (page_words : list Word.t) (tables : list (list (list (option string))))
    (st : extraction) : option extraction :=
  match tables with
  | [] => Some st
  | table :: rest =>
      match process_table page_idx has_section_word page_words table st with
      | None => None
      | Some st' => process_tables page_idx has_section_word page_words rest st'
      end
  end.

(** The loop over the pages, numbered from [page_idx]. *)
Fixpoint process_pages (page_idx : nat) (pages : list page) (st : extraction)
    : option extraction :=
  match pages with
  | [] => Some st
  | pg :: rest =>
      let page_text_upper := str_upper (page_text pg) in
      let has_section_word :=
        existsb (fun word => str_contains word page_text_upper) section_keywords in
      match process_tables page_idx has_section_word (page_words pg) (page_tables pg) st with
      | None => None
      | Some st' => process_pages (S page_idx) rest st'
      end
  end.

(** [extract_rows_with_plumber]: the rows, the table snippets and the words
    of every page; an exception on the way gives three empty lists. *)
Definition extract_rows_with_plumber (pages : list page)
    : list Row.t * list (nat * string) * list (list Word.t) :=
  match process_pages 1 pages {| ex_rows := []; ex_snippets := []; ex_seen := [];
                                 ex_table_counter := 0 |} with
  | Some st => (ex_rows st, ex_snippets st, map page_words pages)
  | None => ([], [], [])
  end.

(** ** Duplicate position ids *)

(** The table a row belongs to: its table id, or, without one, its page. *)
Definition table_key : Type := nat + option nat.

Definition row_table_key (row : Row.t) : table_key :=
  match Row.table_id row with
  | Some t => inl t
  | None => inr (Row.table_page row)
  end.

Definition set_pos_duplicate (b : bool) (row : Row.t) : Row.t :=
  {| Row.pos := Row.pos row;
     Row.description := Row.description row;
     Row.length := Row.length row;
     Row.length_display := Row.length_display row;
     Row.length_options := Row.length_options row;
     Row.table_id := Row.table_id row;
     Row.table_label := Row.table_label row;
     Row.quantity := Row.quantity row;
     Row.quantity_display := Row.quantity_display row;
     Row.callout_quantity_text := Row.callout_quantity_text row;
     Row.thickness := Row.thickness row;
     Row.thickness_display := Row.thickness_display row;
     Row.table_page := Row.table_page row;
     Row.table_anchor := Row.table_anchor row;
     Row._pos_duplicate := b |}.

(** [enumerate(rows)] *)
Definition enumerate {A : Type} (l : list A) : list (nat * A) := imap pair l.

(** [groups.setdefault(k, []).append(e)] on a dict in insertion order. *)
Fixpoint group_append {A : Type} (k : table_key) (e : A) (groups : list (table_key * list A))
    : list (table_key * list A) :=
  match groups with
  | [] => [(k, [e])]
  | (k', es) :: rest =>
      if decide (k = k') then (k', es ++ [e]) :: rest
      else (k', es) :: group_append k e rest
  end.

(** The loop that files every entry under its key. *)
Definition grouped {A : Type} (gkey : A -> table_key) (es : list A)
    : list (table_key * list A) :=
  fold_left (fun groups e => group_append (gkey e) e groups) es [].

Definition group_rows (rows : list Row.t) : list (table_key * list (nat * Row.t)) :=
  grouped (fun e => row_table_key (snd e)) (enumerate rows).

(** What [_analyze_pos_sequence] has found so far, and the rows as it has
    marked them. *)
Record pos_scan := {
  duplicates : gset string;
  duplicate_indices : gset nat;
  duplicate_details : gset (string * string);
  scanned_rows : list Row.t;
}.

(** The position id as the analysis compares it. *)
Definition pos_key (row : Row.t) : string := str_strip (Row.pos row).

(** One entry of a group: the body of the inner loop. *)
Definition scan_entry (table_label : string) (acc : pos_scan * gmap string nat)
    (e : nat * Row.t) : pos_scan * gmap string nat :=
  let '(st, group_seen) := acc in
  let '(idx, row) := e in
  let pos := pos_key row in
  if negb (nonempty (chars pos)) then acc else
  match group_seen !! pos with
  | Some first =>
      ({| duplicates := {[pos]} ∪ duplicates st;
          duplicate_indices := {[idx]} ∪ ({[first]} ∪ duplicate_indices st);
          duplicate_details := {[(table_label, pos)]} ∪ duplicate_details st;
          scanned_rows := alter (set_pos_duplicate true) idx (scanned_rows st) |},
       group_seen)
  | None => (st, <[pos := idx]> group_seen)
  end.

(** The label of a group in the summary of duplicates. *)
Definition group_label (key : table_key) (entries : list (nat * Row.t)) : string :=
  let table_label := head entries ≫= (fun e => Row.table_label (snd e)) in
  if truthy table_label then default ""%string table_label
  else match key with
       | inr (Some (S p)) => "Page " +:+ pretty (S p) +:+ " table"
       | inr _ => "Page ? table"
       | inl k => "Table " +:+ pretty k
       end.

(** One group: the body of the outer loop. *)
Definition scan_group (st : pos_scan) (g : table_key * list (nat * Row.t)) : pos_scan :=
  let '(key, entries0) := g in
  let entries := sorted_by (fun y x => (fst y <? fst x)%nat) entries0 in
  fst (fold_left (scan_entry (group_label key entries)) entries (st, ∅)).

Definition pair_string_ltb (a b : string * string) : bool :=
  String.ltb (fst a) (fst b) || (String.eqb (fst a) (fst b) && String.ltb (snd a) (snd b)).

(** The dict [_analyze_pos_sequence] returns. *)
Record pos_analysis := {
  pa_duplicates : gset string;
  pa_duplicate_indices : gset nat;
  pa_duplicate_details : list (string * string);
}.

(** [PDFQCApp._analyze_pos_sequence]: the analysis, and the rows with the
    marks the analysis leaves on them. *)
Definition _analyze_pos_sequence (rows : list Row.t) : pos_analysis * list Row.t :=
  let st :=
    fold_left scan_group (group_rows rows)
      {| duplicates := ∅; duplicate_indices := ∅; duplicate_details := ∅;
         scanned_rows := rows |} in
  ({| pa_duplicates := duplicates st;
      pa_duplicate_indices := duplicate_indices st;
      pa_duplicate_details := sorted_by pair_string_ltb (elements (duplicate_details st)) |},
   scanned_rows st).

(** The marking of the rows in [PDFQCApp._on_pdf_processed]:
    [row["_pos_duplicate"] = idx in duplicate_indices] for every row. *)
Definition mark_duplicates (rows : list Row.t) : list Row.t :=
  let '(analysis, rows') := _analyze_pos_sequence rows in
  imap (fun idx row =>
          set_pos_duplicate (bool_decide (idx ∈ pa_duplicate_indices analysis)) row)
       rows'.

(** ** Numbers in text *)

(** [min(a, b)] and [max(a, b)] on floats. *)
Definition qmin (a b : Q) : Q := if Qltb b a then b else a.
Definition qmax (a b : Q) : Q := if Qltb a b then b else a.

(** [\d+(?:[,\s]\d{3})*(?:\.\d+)?] *)
Definition grouped_number_re : regex :=
  Seq digits_re
    (Seq (Star (Seq (Chr (fun c => Ascii.eqb c "," || is_space c))
                    (Seq (Chr is_digit) (Seq (Chr is_digit) (Chr is_digit)))))
         (Opt (Seq (Lit ".") digits_re))).

(** [\s*mm], compiled with [re.IGNORECASE] *)
Definition mm_suffix_re : regex :=
  Seq (Star (Chr is_space)) (Seq (ChrI "m") (ChrI "m")).

(** [PDFQCApp.extract_numeric_values] *)
Definition extract_numeric_values (text : string) : list Q :=
  omap (fun m => py_float (str_replace "," "" (str_replace " " "" m)))
       (re_findall grouped_number_re text).

(** [re.search] for a pattern [(r1)r2]: the text of group 1 at the first
    match. *)
Fixpoint search_group1 (r1 r2 : regex) (prev : option ascii) (l : list ascii)
    : option (list ascii) :=
  match head (flat_map (fun '(m1, l1) =>
                          map (fun _ => m1) (run r2 (last_char prev m1) l1))
                       (run r1 prev l)) with
  | Some m1 => Some m1
  | None =>
      match l with
      | [] => None
      | c :: t => search_group1 r1 r2 (Some c) t
      end
  end.

(** The group of [re.search(r"(\d+(?:[,\s]\d{3})*(?:\.\d+)?)\s*mm", cand,
    flags=re.IGNORECASE)] *)
Definition search_mm (cand : string) : option string :=
  str <$> search_group1 grouped_number_re mm_suffix_re None (chars cand).

(** [PDFQCApp._numeric_from_text] *)
Definition _numeric_from_text (text : string) : list Q :=
  if negb (nonempty (chars text)) then [] else
  let cleaned := str_replace "," "" text in
  let cleaned := str_replace "—" "-" (str_replace "–" "-" (str_replace "−" "-" cleaned)) in
  let cleaned :=
    fold_left (fun cleaned symbol => str_replace symbol " " cleaned)
              ["Ø"; "ø"; "φ"; "Φ"; "⌀"; "∅"]%string cleaned in
  let cleaned := str_replace "*" " " (str_replace "·" " " (str_replace "×" " " cleaned)) in
  let cleaned := str_replace "x" " " (str_replace "X" " " cleaned) in
  let cleaned := str_replace "/" " " (str_replace "\" " " cleaned) in
  let cleaned := str_replace ":" " " (str_replace ";" " " cleaned) in
  let cleaned := str_strip_chars "()[]{}<>" cleaned in
  let cleaned := re_sub (Plus (Chr is_alpha)) " " cleaned in
  omap py_float (re_findall signed_number_re cleaned).

(** ** Text fallback: the value on a matched line *)

(** The threshold below which a number on the line is not a candidate. *)
Definition text_min_threshold (expected_value : option Q) : Q :=
  match expected_value with
  | Some e => qmin 20 (qmax 1 (e * 0.5))
  | None => 20
  end.

(** The numbers of the candidate lines that stay candidates. *)
Definition text_numbers (candidate_lines : list string) (desc_numbers : list Q)
    (expected_value : option Q) : list Q :=
  let numbers := flat_map extract_numeric_values candidate_lines in
  let min_threshold := text_min_threshold expected_value in
  List.filter (fun n => Qle_bool min_threshold n
                        && forallb (fun dn => Qltb 1e-6 (Qabs (n - dn))) desc_numbers)
              numbers.

(** The first candidate line with an explicit [<number> mm] whose number
    [float] accepts. *)
Definition explicit_mm_value (candidate_lines : list string) : option Q :=
  first_some (fun cand =>
                search_mm cand ≫= (fun g => py_float (str_replace " " "" (str_replace "," "" g))))
             candidate_lines.

(** The part of [PDFQCApp._text_lookup] that reads a value off the matched
    line and the line after it: the value, the candidates and the selection
    mode. *)
Definition text_line_value (candidate_lines : list string) (desc_numbers : list Q)
    (expected_value : option Q) (prefer_max : bool) : option Q * list Q * string :=
  match explicit_mm_value candidate_lines with
  | Some value =>
      let candidates := [value] in
      let '(best_value, selection_mode) :=
        _pick_candidate candidates expected_value prefer_max default_tolerance in
      (best_value, candidates, selection_mode)
  | None =>
      let numbers := text_numbers candidate_lines desc_numbers expected_value in
      if nonempty numbers then
        let numbers := sorted_reverse numbers in
        let '(best_value, selection_mode) :=
          _pick_candidate numbers expected_value prefer_max default_tolerance in
        (best_value, numbers, selection_mode)
      else (None, [], "none"%string)
  end.

(** ** Geometric search above a callout *)

(** A line of the page: the words whose [top] rounds to the same key. *)
Record line_group := { lg_words : list Word.t; lg_top : Q; lg_bottom : Q }.

(** [line_groups.setdefault(key, {...})] followed by the update of the
    group with the word [w], on a dict in insertion order. *)
Fixpoint line_group_add (key : Z) (w : Word.t) (groups : list (Z * line_group))
    : list (Z * line_group) :=
  match groups with
  | [] => [(key, {| lg_words := [w];
                    lg_top := qmin (Word.top w) (Word.top w);
                    lg_bottom := qmax (Word.bottom w) (Word.bottom w) |})]
  | (k, g) :: rest =>
      if Z.eqb k key
      then (k, {| lg_words := lg_words g ++ [w];
                  lg_top := qmin (lg_top g) (Word.top w);
                  lg_bottom := qmax (lg_bottom g) (Word.bottom w) |}) :: rest
      else (k, g) :: line_group_add key w rest
  end.

Definition line_tol : Q := 2.

(** The lines above the callout: the words that end more than one unit above
    [bbox_top], grouped by line. *)
Definition group_lines (bbox_top : Q) (words : list Word.t) : list (Z * line_group) :=
  fold_left (fun line_groups w =>
               if Qle_bool (bbox_top - 1) (Word.bottom w) then line_groups
               else line_group_add (py_round (Word.top w / line_tol)) w line_groups)
            words [].

(** [\b\d+\.\d+\b\s+[A-Za-z]] *)
Definition arrow_like_re : regex :=
  Seq WordB (Seq digits_re (Seq (Lit ".") (Seq digits_re
    (Seq WordB (Seq (Plus (Chr is_space)) (Chr is_alpha)))))).

(** [\(\s*<pos_token>(?:\s+[A-Za-z0-9._-]+)+\s*\)] *)
Definition tag_re (pos_token : string) : regex :=
  Seq (Lit "(") (Seq (Star (Chr is_space)) (Seq (Lit pos_token)
    (Seq (Plus (Seq (Plus (Chr is_space))
                    (Plus (Chr (fun c => is_alnum c || one_of "._-" c)))))
         (Seq (Star (Chr is_space)) (Lit ")"))))).

Definition line_words (g : line_group) : list Word.t := sorted_key Word.x0 (lg_words g).

Definition line_text (g : line_group) : string := join " " (map Word.text (line_words g)).

(** Whether the scan stops at the line [g]. *)
Definition is_barrier (pos_token : option string) (g : line_group) : bool :=
  let is_arrow_like := re_search arrow_like_re (line_text g) in
  let is_tag_line :=
    match pos_token with
    | Some (String c t) => re_search (tag_re (String c t)) (line_text g)
    | _ => false
    end in
  is_arrow_like || is_tag_line.

Definition word_center (w : Word.t) : Q := (Word.x0 w + Word.x1 w) / 2.

(** The loop over the lines, nearest first: the bottom of the barrier, if
    one is met, and the words collected before it. *)
Fixpoint scan_lines (pos_token : option string) (bx0 bx1 : Q)
    (lines : list line_group) (collected_words : list Word.t)
    : option Q * list Word.t :=
  match lines with
  | [] => (None, collected_words)
  | g :: rest =>
      if is_barrier pos_token g then (Some (lg_bottom g), collected_words)
      else scan_lines pos_token bx0 bx1 rest
             (collected_words ++
              List.filter (fun w => Qle_bool bx0 (word_center w) && Qle_bool (word_center w) bx1)
                          (line_words g))
  end.

Record candidate_entry := { ce_value : Q; ce_center_offset : Q; ce_bbox : BBox.t }.

Definition word_bbox (w : Word.t) : BBox.t :=
  BBox.mk (Word.x0 w) (Word.x1 w) (Word.top w) (Word.bottom w).

(** The values of one word that become candidate entries: not a number of
    the description, and not seen before. *)
Definition add_word_values (desc_numbers : list Q) (callout_center : Q)
    (acc : list candidate_entry * list Q) (w : Word.t) : list candidate_entry * list Q :=
  fold_left (fun '(candidate_entries, seen_vals) v =>
               if existsb (fun dn => Qle_bool (Qabs (v - dn)) 1e-6) desc_numbers
               then (candidate_entries, seen_vals)
               else if existsb (Qeq_bool v) seen_vals
               then (candidate_entries, seen_vals)
               else (candidate_entries ++
                       [{| ce_value := v;
                           ce_center_offset := Qabs (word_center w - callout_center);
                           ce_bbox := word_bbox w |}],
                     v :: seen_vals))
            (_numeric_from_text (Word.text w)) acc.

(** The last loop: the values in order, without neighbours closer than
    1e-6, and the box kept for each value. *)
Definition order_entries (candidate_entries : list candidate_entry)
    : list Q * list (Q * BBox.t) :=
  fold_left (fun '(ordered_values, value_bboxes) entry =>
               let v := ce_value entry in
               (match last ordered_values with
                | Some l => if Qltb 1e-6 (Qabs (v - l)) then ordered_values ++ [v]
                            else ordered_values
                | None => ordered_values ++ [v]
                end,
                if existsb (fun kv => Qeq_bool (fst kv) v) value_bboxes
                then value_bboxes else value_bboxes ++ [(v, ce_bbox entry)]))
            candidate_entries ([], []).

(** The words the scan keeps: those collected below the barrier. *)
Definition window_words (words : list Word.t) (bbox : BBox.t)
    (callout_tokens : list string) : list Word.t :=
  let x_margin := qmax 20 ((BBox.x1 bbox - BBox.x0 bbox) * 0.6) in
  let bx0 := (BBox.x0 bbox - x_margin)%Q in
  let bx1 := (BBox.x1 bbox + x_margin)%Q in
  let lines_sorted :=
    sorted_key_reverse lg_bottom (map snd (group_lines (BBox.top bbox) words)) in
  let '(barrier_bottom, collected_words) :=
    scan_lines (head callout_tokens) bx0 bx1 lines_sorted [] in
  match barrier_bottom with
  | Some b => List.filter (fun w => Qle_bool (b - 0.5) (Word.bottom w)) collected_words
  | None => collected_words
  end.

Definition window_entries (words : list Word.t) (bbox : BBox.t)
    (desc_numbers : list Q) (callout_tokens : list string) : list candidate_entry :=
  let callout_center := ((BBox.x0 bbox + BBox.x1 bbox) / 2)%Q in
  fst (fold_left (add_word_values desc_numbers callout_center)
                 (window_words words bbox callout_tokens) ([], [])).

(** [PDFQCApp._find_length_above_bbox]: the candidate values, largest first,
    and the box recorded for each value. *)
Definition _find_length_above_bbox (words : list Word.t) (bbox : option BBox.t)
    (desc_numbers : list Q) (callout_tokens : list string)
    : list Q * list (Q * BBox.t) :=
  match words, bbox with
  | _ :: _, Some bbox =>
      if negb (nonempty (group_lines (BBox.top bbox) words)) then ([], []) else
      let candidate_entries := window_entries words bbox desc_numbers callout_tokens in
      if negb (nonempty candidate_entries) then ([], []) else
      order_entries
        (pair_key_sorted (fun c => (- ce_value c, ce_center_offset c)%Q) candidate_entries)
  | _, _ => ([], [])
  end.

(** ** Callout token variants *)

(** [PDFQCApp.normalize_word_token] *)
Definition normalize_word_token (text : string) : string :=
  keep_chars (fun c => is_lower c || is_digit c || one_of ".+-" c) (str_lower text).

(** The normalised, non-empty pieces of a text cut at the matches of [sep]. *)
Definition normalized_parts (sep : regex) (text : string) : list string :=
  List.filter (fun norm => nonempty (chars norm))
              (map normalize_word_token (re_split sep text)).

(** [[()\s]+] *)
Definition paren_space_re : regex := Plus (Chr (fun c => one_of "()" c || is_space c)).

(** [\s+] *)
Definition space_re : regex := Plus (Chr is_space).

(** [add_variant] and [add_option]: a token list is added, without its empty
    tokens, unless it is empty or was added before. *)
Definition add_option (variants : list (list string)) (tokens : list string)
    : list (list string) :=
  let filtered := List.filter (fun tok => nonempty (chars tok)) tokens in
  if negb (nonempty filtered) then variants
  else if bool_decide (filtered ∈ variants) then variants
  else variants ++ [filtered].

Definition quantity_suffixes : list string :=
  ["pc"; "pcs"; "ea"; "each"; "no"; "nos"; "off"; "qty"]%string.

(** [PDFQCApp._quantity_token_variants] *)
Definition _quantity_token_variants (fmt : py_format) (quantity_text : option string)
    (quantity_value : option Q) : list (list string) :=
  let variants := [] in
  let variants :=
    if truthy quantity_text then
      let cleaned := str_strip (default ""%string quantity_text) in
      if nonempty (chars cleaned) then
        let variants := add_option variants (normalized_parts paren_space_re cleaned) in
        let compressed :=
          keep_chars (fun c => negb (one_of "()" c || is_space c)) cleaned in
        let compressed_norm := normalize_word_token compressed in
        if nonempty (chars compressed_norm) then add_option variants [compressed_norm]
        else variants
      else variants
    else variants in
  let numeric_token := (fun v => normalize_word_token (format_g fmt v)) <$> quantity_value in
  let variants :=
    if truthy numeric_token then add_option variants (option_list numeric_token)
    else variants in
  let alpha_in_text :=
    truthy quantity_text && existsb is_alpha (chars (default ""%string quantity_text)) in
  if truthy numeric_token && negb alpha_in_text then
    let numeric_token := default ""%string numeric_token in
    fold_left (fun variants suffix =>
                 add_option (add_option variants [numeric_token; suffix])
                            [numeric_token +:+ suffix])
              quantity_suffixes variants
  else variants.

(** [desc_tokens[i:j]] for [0 <= i < j <= n], in the order of the two loops. *)
Definition subsequences {A : Type} (l : list A) : list (list A) :=
  flat_map (fun i => map (fun j => slice i j l) (seq (S i) (length l - i)))
           (seq 0 (length l)).

(** [PDFQCApp.build_callout_token_variants]: the variants and the base
    tokens. *)
Definition build_callout_token_variants (fmt : py_format) (pos desc : string)
    (quantity_text : option string) (quantity_value : option Q)
    : list (list string) * list string :=
  let pos_token := normalize_word_token pos in
  let has_pos := nonempty (chars pos_token) in
  let desc_tokens := normalized_parts space_re desc in
  let desc_without_pos :=
    List.filter (fun tok => negb has_pos || negb (String.eqb tok pos_token)) desc_tokens in
  let primary_tokens :=
    (if has_pos then [pos_token] else [])
    ++ (if nonempty desc_without_pos then desc_without_pos else desc_tokens) in
  let primary_tokens :=
    if nonempty primary_tokens then primary_tokens
    else if nonempty desc_tokens then desc_tokens
    else if has_pos then [pos_token] else [] in
  let base_tokens := primary_tokens in
  let quantity_variants := _quantity_token_variants fmt quantity_text quantity_value in
  let variants :=
    fold_left (fun variants qty_tokens => add_option variants (base_tokens ++ qty_tokens))
              quantity_variants [] in
  let variants := if has_pos then add_option variants [pos_token] else variants in
  let variants := add_option variants base_tokens in
  let variants :=
    if has_pos
    then add_option (add_option variants (pos_token :: desc_tokens)) (desc_tokens ++ [pos_token])
    else variants in
  let variants := if nonempty desc_tokens then add_option variants desc_tokens else variants in
  let variants :=
    if nonempty desc_without_pos then add_option variants desc_without_pos else variants in
  let variants :=
    fold_left (fun variants subseq =>
                 if negb (nonempty subseq) then variants else
                 let variants := add_option variants subseq in
                 if has_pos
                 then add_option (add_option variants (pos_token :: subseq))
                                 (subseq ++ [pos_token])
                 else variants)
              (subsequences desc_tokens) variants in
  (variants, base_tokens).

(** ** Locating a callout *)

(** [PDFQCApp._tokenize_page_text] *)
Definition _tokenize_page_text (text : string) : list string :=
  normalized_parts paren_space_re text.

Fixpoint is_prefix_list (p l : list string) : bool :=
  match p, l with
  | [], _ => true
  | a :: p', b :: l' => String.eqb a b && is_prefix_list p' l'
  | _ :: _, [] => false
  end.

Fixpoint contains_at (tokens subseq : list string) : bool :=
  is_prefix_list subseq tokens ||
  match tokens with
  | [] => false
  | _ :: t => contains_at t subseq
  end.

(** [PDFQCApp.contains_subsequence] *)
Definition contains_subsequence (tokens subseq : list string) : bool :=
  nonempty subseq && contains_at tokens subseq.

(** [PDFQCApp._normalize_token_variants] on a list of token lists. *)
Definition _normalize_token_variants (token_variants : list (list string))
    : list (list string) :=
  List.filter nonempty
    (map (List.filter (fun tok => nonempty (chars tok))) token_variants).

(** What the lookups read of the application: the text and the words of
    every page, and the boxes of the table cells found on each page. *)
Module App.
Record t := mk {
  page_texts : list string;
  page_words : list (list Word.t);
  table_anchors_by_page : gmap nat (list BBox.t);
}.
End App.

(** [PDFQCApp._candidate_pages_for_tokens] *)
Definition _candidate_pages_for_tokens (self : App.t) (token_variants : list (list string))
    : list nat :=
  let sequences := _normalize_token_variants token_variants in
  if negb (nonempty sequences) then [] else
  omap (fun '(i, text) =>
          let page_tokens := _tokenize_page_text text in
          if existsb (contains_subsequence page_tokens) sequences then Some (S i) else None)
       (enumerate (App.page_texts self)).

(** [PDFQCApp._bbox_in_table_area], with its margin of 3.0 *)
Definition _bbox_in_table_area (self : App.t) (page_idx : nat) (bbox : BBox.t) : bool :=
  let margin := 3%Q in
  match App.table_anchors_by_page self !! page_idx with
  | None => false
  | Some anchors =>
      existsb (fun anchor =>
                 let ax0 := (BBox.x0 anchor - margin)%Q in
                 let ax1 := (BBox.x1 anchor + margin)%Q in
                 let atop := (BBox.top anchor - margin)%Q in
                 let abottom := (BBox.bottom anchor + margin)%Q in
                 negb (Qltb (BBox.x1 bbox) ax0 || Qltb ax1 (BBox.x0 bbox)
                       || Qltb (BBox.bottom bbox) atop || Qltb abottom (BBox.top bbox)))
              anchors
  end.

(** [min] and [max] of a coordinate over the words [w :: ws]. *)
Definition min_of (f : Word.t -> Q) (w : Word.t) (ws : list Word.t) : Q :=
  fold_left (fun m x => qmin m (f x)) ws (f w).
Definition max_of (f : Word.t -> Q) (w : Word.t) (ws : list Word.t) : Q :=
  fold_left (fun m x => qmax m (f x)) ws (f w).

(** The first place where the normalised words spell [tokens]. *)
Fixpoint match_from (tokens : list string) (normalized_words : list (Word.t * string))
    : option (list Word.t) :=
  if is_prefix_list tokens (map snd normalized_words)
  then Some (map fst (take (length tokens) normalized_words))
  else match normalized_words with
       | [] => None
       | _ :: rest => match_from tokens rest
       end.

(** [PDFQCApp._match_callout_on_page] *)
Definition _match_callout_on_page (tokens : list string) (words : list Word.t)
    : option BBox.t :=
  if negb (nonempty tokens) || negb (nonempty words) then None else
  let normalized_words :=
    List.filter (fun wn => nonempty (chars (snd wn)))
                (map (fun word => (word, normalize_word_token (Word.text word))) words) in
  match match_from tokens normalized_words with
  | Some (w :: ws) =>
      Some (BBox.mk (min_of Word.x0 w ws) (max_of Word.x1 w ws)
                    (min_of Word.top w ws) (max_of Word.bottom w ws))
  | _ => None
  end.

(** ** Quantity in a callout *)

Definition suffix_units : list (string * string) :=
  [("pc", "PC"); ("pcs", "PCS"); ("no", "NO"); ("nos", "NOS"); ("ea", "EA");
   ("each", "EACH"); ("set", "SET"); ("sets", "SETS"); ("unit", "UNIT");
   ("units", "UNITS"); ("off", "OFF"); ("qty", "QTY")]%string.

Definition prefix_indicators : list string := ["qty"; "quantity"; "q"; "qt"]%string.
Definition multiplier_indicators : list string := ["x"]%string.

Definition unit_of (tok : string) : option string :=
  snd <$> List.find (fun kv => String.eqb (fst kv) tok) suffix_units.

Definition str_in (tok : string) (l : list string) : bool := existsb (String.eqb tok) l.

(** A quantity candidate: its weight, its value and its label. *)
Definition qty_candidate : Type := Z * pynum * string.

Definition pynum_eqb (a b : pynum) : bool := Qeq_bool (num_val a) (num_val b).

(** [add_candidate] of [_extract_quantity_from_tokens]; [seen] holds the
    pairs of value and unit added so far. *)
Definition add_candidate (fmt : py_format)
    (acc : list qty_candidate * list (pynum * option string))
    (value : option Q) (unit : option string) (weight : Z)
    : list qty_candidate * list (pynum * option string) :=
  match value with
  | None => acc
  | Some v =>
      let value :=
        if Qltb (Qabs (v - inject_Z (py_round v))) 1e-6 then PyInt (py_round v)
        else PyFloat v in
      let label_value := format_num fmt value in
      let label :=
        match unit with
        | Some (String c u) => label_value +:+ " " +:+ String c u
        | _ => label_value
        end in
      if existsb (fun k => pynum_eqb (fst k) value
                           && option_eqb String.eqb (snd k) unit) (snd acc)
      then acc
      else (fst acc ++ [(weight, value, label)], (value, unit) :: snd acc)
  end.

Definition letters_re : regex := Plus (Chr is_lower).

(** [re.fullmatch(r"([a-z]+)?(\d+(?:\.\d+)?)([a-z]+)?", tok)]: the three
    groups, an absent group being the empty text. *)
Definition match_combo (tok : string) : option (string * string * string) :=
  head (flat_map (fun '(m1, l1) =>
          flat_map (fun '(m2, l2) =>
            flat_map (fun '(m3, l3) =>
                        if nonempty l3 then [] else [(str m1, str m2, str m3)])
                     (run (Opt letters_re) (last_char (last_char None m1) m2) l2))
                   (run number_re (last_char None m1) l1))
        (run (Opt letters_re) None (chars tok))).

(** The body of the loop of [_extract_quantity_from_tokens] for the token
    [tok] at the index [idx]. *)
Definition quantity_token_step (fmt : py_format) (quantity_tokens : list string)
    (acc : list qty_candidate * list (pynum * option string)) (it : nat * string)
    : list qty_candidate * list (pynum * option string) :=
  let '(idx, tok) := it in
  if negb (nonempty (chars tok)) then acc else
  let combo_hit :=
    match match_combo tok with
    | Some (prefix, number, suffix) =>
        let value := py_float number in
        let '(unit, weight_base) :=
          if nonempty (chars suffix) && bool_decide (is_Some (unit_of suffix))
          then (unit_of suffix, 4%Z)
          else if nonempty (chars suffix) && str_in suffix multiplier_indicators
          then (Some "PCS"%string, 3%Z)
          else (None, 0%Z) in
        let '(unit, weight_base) :=
          if nonempty (chars prefix) && bool_decide (is_Some (unit_of prefix))
             && negb (truthy unit)
          then (unit_of prefix, (weight_base + 3)%Z)
          else if nonempty (chars prefix) && str_in prefix prefix_indicators
          then (unit, (weight_base + 2)%Z)
          else if nonempty (chars prefix) && str_in prefix multiplier_indicators
                  && negb (truthy unit)
          then (Some "PCS"%string, (weight_base + 3)%Z)
          else (unit, weight_base) in
        if truthy unit || negb (Z.eqb weight_base 0)
        then Some (add_candidate fmt acc value unit (Z.max 1 weight_base))
        else None
    | None => None
    end in
  match combo_hit with
  | Some acc' => acc'
  | None =>
      if re_fullmatch number_re tok then
        let value := py_float tok in
        let '(unit, weight) :=
          match quantity_tokens !! S idx with
          | Some nxt =>
              if bool_decide (is_Some (unit_of nxt)) then (unit_of nxt, 4%Z)
              else if str_in nxt multiplier_indicators then (Some "PCS"%string, 3%Z)
              else (None, 1%Z)
          | None => (None, 1%Z)
          end in
        let '(unit, weight) :=
          match unit, idx with
          | None, S k =>
              let prev := default ""%string (quantity_tokens !! k) in
              if bool_decide (is_Some (unit_of prev)) then (unit_of prev, 3%Z)
              else if str_in prev prefix_indicators then (unit, Z.max weight 2)
              else (unit, weight)
          | _, _ => (unit, weight)
          end in
        let weight :=
          if negb (bool_decide (is_Some unit)) && (length quantity_tokens =? 1)%nat
          then Z.max weight 2 else weight in
        add_candidate fmt acc value unit weight
      else
        let acc :=
          if bool_decide (is_Some (unit_of tok)) || str_in tok prefix_indicators
             || str_in tok multiplier_indicators
          then
            let neighbours :=
              option_list (quantity_tokens !! S idx)
              ++ match idx with
                 | S k => option_list (quantity_tokens !! k)
                 | O => []
                 end in
            match List.find (re_fullmatch number_re) neighbours with
            | Some neighbour =>
                let value := py_float neighbour in
                if bool_decide (is_Some (unit_of tok))
                then add_candidate fmt acc value (unit_of tok) 4
                else if str_in tok multiplier_indicators
                then add_candidate fmt acc value (Some "PCS"%string) 3
                else add_candidate fmt acc value None 2
            | None => acc
            end
          else acc in
        if re_fullmatch (Seq number_re (Lit "x")) tok
        then add_candidate fmt acc (py_float (str_drop_end 1 tok)) (Some "PCS"%string) 3
        else if re_fullmatch (Seq (Lit "x") number_re) tok
        then add_candidate fmt acc (py_float (str (drop 1 (chars tok)))) (Some "PCS"%string) 3
        else acc
  end.

(** The length of the common prefix that [tokens] shares with [base_tokens]. *)
Fixpoint common_prefix_len (base_tokens tokens : list string) : nat :=
  match base_tokens, tokens with
  | b :: bs, t :: ts => if String.eqb t b then S (common_prefix_len bs ts) else 0
  | _, _ => 0
  end.

(** [PDFQCApp._extract_quantity_from_tokens] *)
Definition _extract_quantity_from_tokens (fmt : py_format)
    (matched_tokens base_tokens : list string) : option pynum * option string :=
  if negb (nonempty matched_tokens) then (None, None) else
  let base_tokens := List.filter (fun tok => nonempty (chars tok)) base_tokens in
  let tokens := List.filter (fun tok => nonempty (chars tok)) matched_tokens in
  let prefix_len := common_prefix_len base_tokens tokens in
  let quantity_tokens := drop prefix_len tokens in
  if negb (nonempty quantity_tokens) then (None, None) else
  let candidates :=
    fst (fold_left (quantity_token_step fmt quantity_tokens)
                   (enumerate quantity_tokens) ([], [])) in
  match sorted_key_reverse (fun c => inject_Z (fst (fst c))) candidates with
  | (_, value, label) :: _ => (Some value, Some label)
  | [] => (None, None)
  end.

(** ** The lookups *)

(** The first variant that the words of the page spell outside the table
    areas, with the box of the words that spell it. *)
Definition match_outside_tables (self : App.t) (page_idx : nat) (words : list Word.t)
    (sequences : list (list string)) : option (BBox.t * list string) :=
  first_some (fun tokens =>
                match _match_callout_on_page tokens words with
                | Some bbox =>
                    if _bbox_in_table_area self page_idx bbox then None
                    else Some (bbox, tokens)
                | None => None
                end)
             sequences.

(** [candidate_bboxes.get(value)] *)
Definition bbox_of_value (candidate_bboxes : list (Q * BBox.t)) (value : Q) : option BBox.t :=
  snd <$> List.find (fun kv => Qeq_bool (fst kv) value) candidate_bboxes.

(** [PDFQCApp._geometry_lookup] *)
Definition _geometry_lookup (fmt : py_format) (self : App.t)
    (token_variants : list (list string)) (desc_numbers : list Q)
    (expected_value : option Q) (prefer_max : bool) (base_length : nat)
    (base_tokens : list string) : lookup_result :=
  if negb (nonempty (App.page_words self)) then (false, None, None, Meta.empty) else
  let sequences := _normalize_token_variants token_variants in
  if negb (nonempty sequences) then (false, None, None, Meta.empty) else
  let candidate_pages := _candidate_pages_for_tokens self sequences in
  let candidate_pages :=
    if nonempty candidate_pages then candidate_pages
    else seq 1 (length (App.page_words self)) in
  let hit :=
    first_some (fun page_idx =>
                  match App.page_words self !! (page_idx - 1)%nat with
                  | None => None
                  | Some words =>
                      match match_outside_tables self page_idx words sequences with
                      | Some (bbox, matched_tokens) =>
                          Some (page_idx, words, bbox, matched_tokens)
                      | None => None
                      end
                  end)
               candidate_pages in
  match hit with
  | None => (false, None, None, Meta.empty)
  | Some (page_idx, words, bbox, matched_tokens) =>
      let '(candidates, candidate_bboxes) :=
        _find_length_above_bbox words (Some bbox) desc_numbers matched_tokens in
      let '(best_value, selection_mode) :=
        _pick_candidate candidates expected_value prefer_max default_tolerance in
      let value_bbox := best_value ≫= bbox_of_value candidate_bboxes in
      let '(quantity_value, quantity_label) :=
        _extract_quantity_from_tokens fmt matched_tokens base_tokens in
      let quantity_tokens :=
        bool_decide (is_Some quantity_value)
        || (nonempty matched_tokens && (base_length <? length matched_tokens)%nat) in
      (true, best_value, Some page_idx,
       {| Meta.method := Some "geometry"%string;
          Meta.candidates := candidates;
          Meta.selection := Some selection_mode;
          Meta.bbox := Some bbox;
          Meta.value_bbox := value_bbox;
          Meta.candidate_bboxes := candidate_bboxes;
          Meta.tokens := Some matched_tokens;
          Meta.quantity_tokens := quantity_tokens;
          Meta.quantity_value := quantity_value;
          Meta.quantity_label := quantity_label |})
  end.

(** The loop of [_text_lookup] over the lines of a page: the first line that
    holds a variant, the variant, and the line after it if there is one. *)
Fixpoint first_text_hit (sequences : list (list string)) (lines : list string)
    : option (list string * list string) :=
  match lines with
  | [] => None
  | line :: rest =>
      let line_tokens := _tokenize_page_text line in
      match List.find (contains_subsequence line_tokens) sequences with
      | Some matched_tokens => Some (matched_tokens, line :: take 1 rest)
      | None => first_text_hit sequences rest
      end
  end.

(** [PDFQCApp._text_lookup] *)
Definition _text_lookup (fmt : py_format) (self : App.t)
    (token_variants : list (list string)) (desc_numbers : list Q)
    (expected_value : option Q) (prefer_max : bool) (base_length : nat)
    (base_tokens : list string) : lookup_result :=
  if negb (nonempty (App.page_texts self)) then (false, None, None, Meta.empty) else
  let sequences := _normalize_token_variants token_variants in
  if negb (nonempty sequences) then (false, None, None, Meta.empty) else
  let hit :=
    first_some (fun '(i, text) =>
                  match first_text_hit sequences (str_splitlines text) with
                  | Some (matched_tokens, candidate_lines) =>
                      Some (S i, matched_tokens, candidate_lines)
                  | None => None
                  end)
               (enumerate (App.page_texts self)) in
  match hit with
  | None => (false, None, None, Meta.empty)
  | Some (page_idx, matched_tokens, candidate_lines) =>
      let '(quantity_value, quantity_label) :=
        _extract_quantity_from_tokens fmt matched_tokens base_tokens in
      let quantity_tokens :=
        bool_decide (is_Some quantity_value)
        || (nonempty matched_tokens && (base_length <? length matched_tokens)%nat) in
      let '(best_value, candidates, selection_mode) :=
        text_line_value candidate_lines desc_numbers expected_value prefer_max in
      (true, best_value, Some page_idx,
       {| Meta.method := Some "text"%string;
          Meta.candidates := candidates;
          Meta.selection := Some selection_mode;
          Meta.bbox := None;
          Meta.value_bbox := None;
          Meta.candidate_bboxes := [];
          Meta.tokens := Some matched_tokens;
          Meta.quantity_tokens := quantity_tokens;
          Meta.quantity_value := quantity_value;
          Meta.quantity_label := quantity_label |})
  end.

(** [PDFQCApp._find_value_for_row] *)
Definition _find_value_for_row (fmt : py_format) (self : App.t) : lookup_engine :=
  fun pos desc expected_value prefer_max quantity_text quantity_value =>
    let '(token_variants, base_tokens) :=
      build_callout_token_variants fmt pos desc quantity_text quantity_value in
    let base_length := length base_tokens in
    let desc_numbers := extract_numeric_values desc in
    let '(callout_found, value, page_idx, meta) :=
      _geometry_lookup fmt self token_variants desc_numbers expected_value prefer_max
        base_length base_tokens in
    if callout_found then (callout_found, value, page_idx, meta)
    else _text_lookup fmt self token_variants desc_numbers expected_value prefer_max
           base_length base_tokens.

(** ** The row comparator *)

(** [PDFQCApp.find_length_for_row] *)
Definition find_length_for_row (engine : lookup_engine) (pos desc : string)
    (expected_length : option Q) (quantity_text : option string)
    (quantity_value : option Q) : lookup_result :=
  engine pos desc expected_length true quantity_text quantity_value.

(** [PDFQCApp.find_thickness_for_row] *)
Definition find_thickness_for_row (engine : lookup_engine) (pos desc : string)
    (expected_thickness : option Q) (quantity_text : option string)
    (quantity_value : option Q) : lookup_result :=
  match expected_thickness with
  | None => (false, None, None, Meta.empty)
  | Some _ => engine pos desc expected_thickness false quantity_text quantity_value
  end.

Definition within (tolerance a b : Q) : bool := Qle_bool (Qabs (a - b)) tolerance.

(** [str(int(v)) if abs(v - int(v)) < 1e-6 else f"{v:g}"] *)
Definition format_quantity (fmt : py_format) (v : Q) : string :=
  if Qltb (Qabs (v - inject_Z (Qtrunc v))) 1e-6 then pretty (Qtrunc v)
  else format_g fmt v.

(** The label the comparator shows for a table: the row's own label, else
    one made from the table id or the page. *)
Definition row_table_label (row : Row.t) : string :=
  if truthy (Row.table_label row) then default ""%string (Row.table_label row)
  else match Row.table_id row, Row.table_page row with
       | Some i, _ => "Table " +:+ pretty i
       | None, Some (S p) => "Page " +:+ pretty (S p)
       | None, _ => "table"
       end.

(** The body of the loop of [PDFQCApp.compare_rows], for one row. *)
Definition compare_row (fmt : py_format) (engine : lookup_engine)
    (row_index : nat) (row : Row.t) : Result.t :=
  let tolerance := 0.5%Q in
  let expected_lengths :=
    if nonempty (Row.length_options row) then Row.length_options row
    else match Row.length row with Some l => [l] | None => [] end in
  let length_required := nonempty expected_lengths in
  let expected_primary := head expected_lengths in
  let quantity_value := Row.quantity row in
  let quantity_text0 := str_or (Row.callout_quantity_text row) (Row.quantity_display row) in
  let quantity_text :=
    match quantity_value with
    | Some qv => if truthy quantity_text0 then quantity_text0
                 else Some (format_quantity fmt qv)
    | None => quantity_text0
    end in
  let '(length_callout, drawing_length, length_page, length_meta) :=
    find_length_for_row engine (Row.pos row) (Row.description row)
      expected_primary quantity_text quantity_value in
  let length_candidates := Meta.candidates length_meta in
  let length_method := Meta.method length_meta in
  let length_selection := Meta.selection length_meta in
  let length_quantity_tokens := Meta.quantity_tokens length_meta in
  let length_found := bool_decide (is_Some drawing_length) in
  let length_match :=
    match drawing_length with
    | Some d =>
        if nonempty expected_lengths
        then existsb (fun expected => within tolerance d expected) expected_lengths
             || negb length_required
        else if length_required then false else negb length_required
    | None => if length_required then false else negb length_required
    end in
  let thickness_expected := Row.thickness row in
  let thickness_required := bool_decide (is_Some thickness_expected) in
  let '(thickness_callout, drawing_thickness, thickness_page, thickness_meta) :=
    if thickness_required
    then find_thickness_for_row engine (Row.pos row) (Row.description row)
           thickness_expected quantity_text quantity_value
    else (false, None, None, Meta.empty) in
  let thickness_candidates := Meta.candidates thickness_meta in
  let thickness_method := Meta.method thickness_meta in
  let thickness_selection := Meta.selection thickness_meta in
  let thickness_quantity_tokens := Meta.quantity_tokens thickness_meta in
  let thickness_found := thickness_required && bool_decide (is_Some drawing_thickness) in
  let thickness_match :=
    if thickness_required
    then match drawing_thickness, thickness_expected with
         | Some d, Some e => within tolerance d e
         | _, _ => false
         end
    else negb thickness_required in
  let callout_found := length_callout || thickness_callout in
  let length_quantity_value := Meta.quantity_value length_meta in
  let length_quantity_label := Meta.quantity_label length_meta in
  let thickness_quantity_value := Meta.quantity_value thickness_meta in
  let thickness_quantity_label := Meta.quantity_label thickness_meta in
  let quantity_tokens_flag := length_quantity_tokens || thickness_quantity_tokens in
  let quantity_values :=
    option_list length_quantity_value ++ option_list thickness_quantity_value in
  let quantity_labels :=
    (if truthy length_quantity_label then option_list length_quantity_label else [])
    ++ (if truthy thickness_quantity_label then option_list thickness_quantity_label else []) in
  let quantity_callout_value0 := head quantity_values in
  let qty_conflict :=
    match quantity_values with
    | first :: others =>
        existsb (fun candidate => Qltb 1e-6 (Qabs (num_val candidate - num_val first))) others
    | [] => false
    end in
  let quantity_callout_label0 :=
    match quantity_labels, quantity_callout_value0 with
    | label :: _, _ => Some label
    | [], Some (PyFloat v) => Some (format_quantity fmt v)
    | [], Some (PyInt z) => Some (format_g fmt (inject_Z z))
    | [], None => None
    end in
  let quantity_callout_found0 :=
    truthy quantity_callout_label0 || bool_decide (is_Some quantity_callout_value0) in
  let quantity_callout_found := if callout_found then quantity_callout_found0 else false in
  let quantity_callout_value := if callout_found then quantity_callout_value0 else None in
  let quantity_callout_label := if callout_found then quantity_callout_label0 else None in
  let table_label := row_table_label row in
  let length_reasons :=
    if negb length_found && length_required then
      if bool_decide (length_method = Some "geometry"%string) then
        if nonempty length_candidates
        then ["length missing (no candidate matched table)"%string]
        else ["length missing (no numeric in window)"%string]
      else if bool_decide (length_method = Some "text"%string)
      then ["length missing (text search)"%string]
      else ["length missing"%string]
    else if length_found && negb length_match then
      let expected_note :=
        if truthy (Row.length_display row) then default ""%string (Row.length_display row)
        else join " / " (map (format_1f fmt) expected_lengths) in
      match expected_note, drawing_length with
      | String _ _, Some d =>
          ["length mismatch: drawing " +:+ format_1f fmt d +:+ " vs table " +:+ expected_note]
      | _, _ => []
      end
    else [] in
  let thickness_reasons :=
    if thickness_required then
      if callout_found && negb thickness_found then ["thickness missing"%string]
      else if thickness_found && negb thickness_match then
        let expected_thk_note :=
          if truthy (Row.thickness_display row)
          then default ""%string (Row.thickness_display row)
          else from_option (format_1f fmt) "None"%string thickness_expected in
        ["thickness mismatch: drawing "
           +:+ from_option (format_1f fmt) "None"%string drawing_thickness
           +:+ " vs table " +:+ expected_thk_note]
      else []
    else [] in
  let failure_reasons :=
    (if Row._pos_duplicate row then ["duplicate POS in " +:+ table_label] else [])
    ++ (if callout_found then [] else ["callout missing"%string])
    ++ (if callout_found then length_reasons ++ thickness_reasons else []) in
  let length_notes :=
    if bool_decide (length_method = Some "geometry"%string) then
      (let others :=
         List.filter (fun v => match drawing_length with
                               | None => true
                               | Some d => Qltb 1e-6 (Qabs (v - d))
                               end) length_candidates in
       if nonempty others
       then ["other dims in window: " +:+ join ", " (map (format_1f fmt) (take 3 others))]
       else [])
      ++ (if bool_decide (length_selection = Some "max_in_window"%string)
          then ["picked highest value within barrier window"%string]
          else if bool_decide (length_selection = Some "closest_to_expected"%string)
          then ["picked value closest to expected"%string]
          else [])
    else if bool_decide (length_method = Some "text"%string)
    then ["length from text fallback"%string]
    else [] in
  let thickness_notes :=
    if thickness_required && bool_decide (thickness_method = Some "text"%string)
    then ["thickness from text fallback"%string] else [] in
  let quantity_notes :=
    if truthy (Row.quantity_display row) then
      if quantity_callout_found then []
      else if quantity_tokens_flag then ["qty present in callout text but not parsed"%string]
      else ["qty missing in callout"%string]
    else [] in
  let info_notes :=
    (if qty_conflict then ["qty conflict detected in callout"%string] else [])
    ++ (if callout_found then length_notes ++ thickness_notes ++ quantity_notes else []) in
  let length_ok := length_match in
  let thickness_ok := negb thickness_required || (thickness_found && thickness_match) in
  let pos_ok := negb (Row._pos_duplicate row) in
  let status :=
    if callout_found && length_ok && thickness_ok && pos_ok
    then "PASS"%string else "FAIL"%string in
  {| Result.row := row;
     Result._row_index := row_index;
     Result.length_required := length_required;
     Result.callout_found := callout_found;
     Result.length_found := length_found;
     Result.length_match := length_match;
     Result.drawing_length := drawing_length;
     Result.drawing_page := length_page;
     Result.drawing_method := length_method;
     Result.selection_rule := length_selection;
     Result.candidate_lengths := length_candidates;
     Result.thickness_required := thickness_required;
     Result.thickness_callout_found := thickness_callout;
     Result.thickness_found := thickness_found;
     Result.thickness_match := thickness_match;
     Result.drawing_thickness := drawing_thickness;
     Result.thickness_page := thickness_page;
     Result.thickness_method := thickness_method;
     Result.thickness_selection_rule := thickness_selection;
     Result.candidate_thicknesses := thickness_candidates;
     Result.quantity_callout_found := quantity_callout_found;
     Result.quantity_callout := quantity_callout_value;
     Result.quantity_callout_label := quantity_callout_label;
     Result.quantity_tokens_detected := quantity_tokens_flag;
     Result.status := status;
     Result.failure_reasons := failure_reasons;
     Result.info_notes := info_notes;
     Result.callout_bbox := Meta.bbox length_meta;
     Result.length_bbox := Meta.value_bbox length_meta;
     Result.thickness_bbox := Meta.value_bbox thickness_meta |}.

(** [PDFQCApp.compare_rows]: one [Result] per row, in row order. *)
Definition compare_rows (fmt : py_format) (engine : lookup_engine)
    (rows : list Row.t) : list Result.t :=
  imap (compare_row fmt engine) rows.

(** ** The analysis of a document *)

(** [remove_table_snippets_from_pages] *)
Definition remove_table_snippets_from_pages (page_texts : list string)
    (snippets : list (nat * string)) : list string :=
  if negb (nonempty page_texts) || negb (nonempty snippets) then page_texts else
  imap (fun i text =>
          let lowers :=
            map str_lower
                (List.filter (fun snippet => nonempty (chars snippet))
                   (omap (fun ps => if (fst ps =? S i)%nat then Some (snd ps) else None)
                         snippets)) in
          if negb (nonempty lowers) then text
          else join (String "010" "")
                 (List.filter (fun line =>
                                 negb (existsb (fun snippet => str_contains snippet (str_lower line))
                                               lowers))
                              (str_splitlines text)))
       page_texts.

(** The word indices that [pattern] covers inside a table area. *)
Definition table_word_indices (self : App.t) (page_idx : nat) (words : list Word.t)
    (pattern : list string) : list nat :=
  let norms := map (fun w => normalize_word_token (Word.text w)) words in
  let plen := length pattern in
  if (plen =? 0)%nat then [] else
  flat_map (fun i =>
              let window := take plen (drop i norms) in
              if negb (forallb (fun n => nonempty (chars n)) window) then []
              else if negb (is_prefix_list pattern window) then []
              else match take plen (drop i words) with
                   | w :: ws =>
                       if _bbox_in_table_area self page_idx
                            (BBox.mk (min_of Word.x0 w ws) (max_of Word.x1 w ws)
                                     (min_of Word.top w ws) (max_of Word.bottom w ws))
                       then seq i plen else []
                   | [] => []
                   end)
           (seq 0 (length norms + 1 - plen)).

(** [PDFQCApp._remove_table_words_from_pages]: the words of every page
    without those that spell a table snippet inside a table area. *)
Definition _remove_table_words_from_pages (self : App.t)
    (table_snippets : list (nat * string)) : list (list Word.t) :=
  if negb (nonempty (App.page_words self)) || negb (nonempty table_snippets)
  then App.page_words self else
  imap (fun i words =>
          let patterns :=
            List.filter nonempty
              (omap (fun ps => if (fst ps =? S i)%nat
                               then Some (normalized_parts space_re (snd ps)) else None)
                    table_snippets) in
          let remove := flat_map (table_word_indices self (S i) words) patterns in
          map snd (List.filter (fun iw => negb (bool_decide (fst iw ∈ remove)))
                               (enumerate words)))
       (App.page_words self).

(** [table_anchors_by_page], gathered from the rows in
    [PDFQCApp._on_pdf_processed]. *)
Definition gather_anchors (rows : list Row.t) : gmap nat (list BBox.t) :=
  fold_left (fun anchors row =>
               match Row.table_anchor row, Row.table_page row with
               | Some anchor, Some (S p) =>
                   <[S p := default [] (anchors !! S p) ++ [anchor]]> anchors
               | _, _ => anchors
               end)
            rows ∅.

(** The analysis of a document, from the work of [_process_pdf_worker] on
    the extracted primitives to the results of [_on_pdf_processed];
    [None] when no row was found. *)
Definition analyze (fmt : py_format) (page_texts_raw : list string) (text : string)
    (pages : list page) : option (list Result.t) :=
  let default_page_texts :=
    if nonempty page_texts_raw then page_texts_raw
    else if nonempty (chars text) then [text] else [] in
  let '(rows, table_snippets, page_words) := extract_rows_with_plumber pages in
  let prepared :=
    if nonempty rows then
      let cleaned_pages := remove_table_snippets_from_pages default_page_texts table_snippets in
      Some (rows, if nonempty cleaned_pages then cleaned_pages else default_page_texts)
    else
      let '(rows, drawing_text) := extract_table_rows text in
      if nonempty rows
      then Some (rows, if nonempty default_page_texts then default_page_texts
                       else [drawing_text])
      else None in
  match prepared with
  | None => None
  | Some (rows, page_texts) =>
      let self0 := App.mk page_texts page_words (gather_anchors rows) in
      let self :=
        App.mk page_texts (_remove_table_words_from_pages self0 table_snippets)
               (gather_anchors rows) in
      Some (compare_rows fmt (_find_value_for_row fmt self) (mark_duplicates rows))
  end.

(** ** Definitions used in the statements and proofs *)

(** The characters a pattern can read. *)
Fixpoint chars_of (r : regex) (c : ascii) : bool :=
  match r with
  | Eps | WordB => false
  | Chr p => p c
  | Seq r1 r2 | Alt r1 r2 => chars_of r1 c || chars_of r2 c
  | Star r1 => chars_of r1 c
  end.

(** A match of [r] at the start of [l]: the text read and the text left
    make up [l], and the text read consists of characters of [r]. *)
Definition reads (r : regex) (l : list ascii) (res : list ascii * list ascii) : Prop :=
  l = res.1 ++ res.2 ∧ Forall (fun c => chars_of r c = true) res.1.

(** A row that comes out of [grid_row]. *)
Definition from_grid_row (row : Row.t) : Prop :=
  ∃ h tc pi tl pw cells key snippet, grid_row h tc pi tl pw cells = RowOk row key snippet.

(** The entries filed under the key [k]. *)
Fixpoint group_lookup {A : Type} (k : table_key) (groups : list (table_key * list A)) : list A :=
  match groups with
  | [] => []
  | (k', es) :: rest => if decide (k = k') then es else group_lookup k rest
  end.

(** The entry with index [i] has a non-blank position id that another entry
    of [es] shares. *)
Definition dup_in (es : list (nat * Row.t)) (i : nat) : Prop :=
  ∃ r j r', (i, r) ∈ es ∧ (j, r') ∈ es ∧ i ≠ j ∧
            pos_key r ≠ ""%string ∧ pos_key r' = pos_key r.

(** Two rows of the same table with the same position id. *)
Definition same_position (r r' : Row.t) : Prop :=
  row_table_key r' = row_table_key r ∧ pos_key r' = pos_key r.

(** What the scan of a group keeps true while [done] is the part of the
    group already read: the positions seen so far are those of [done], and
    the indices marked are those of [D0] and the duplicates within [done]. *)
Definition scan_inv (D0 : gset nat) (done : list (nat * Row.t))
    (acc : pos_scan * gmap string nat) : Prop :=
  (∀ p i, acc.2 !! p = Some i → ∃ r, (i, r) ∈ done ∧ pos_key r = p ∧ p ≠ ""%string) ∧
  (∀ i r, (i, r) ∈ done → pos_key r ≠ ""%string → is_Some (acc.2 !! pos_key r)) ∧
  (∀ i, i ∈ duplicate_indices acc.1 ↔ i ∈ D0 ∨ dup_in done i).

Global Instance same_position_dec (r r' : Row.t) : Decision (same_position r r').
Proof. unfold same_position. apply _. Defined.

(** Two rows that differ at most in the mark "_pos_duplicate". *)
Definition same_but_mark (r r' : Row.t) : Prop :=
  ∀ b, set_pos_duplicate b r' = set_pos_duplicate b r.

(** The mark of a row, from the rows of its table alone: its position id is
    not blank and at least two rows of the table carry it. *)
Definition duplicated (rows : list Row.t) (r : Row.t) : bool :=
  bool_decide (pos_key r ≠ ""%string ∧ 2 ≤ length (filter (same_position r) rows)).

(** The token of a line that holds the length: the one before a last
    token "mm", or else the last token without its two final characters. *)
Definition length_token_of (tokens : list string) : string :=
  let n := length tokens in
  let last_raw := nth (n - 1) tokens ""%string in
  if String.eqb (str_lower last_raw) "mm" then nth (n - 2) tokens ""%string
  else str_drop_end 2 last_raw.

(** The rule for a row in line mode in the words of the specification: at
    least four blank-separated tokens, the first a bare POS number, the last a
    bare number or a text that ends in "mm". *)
Definition line_qualifies_spec (line : string) : bool :=
  let tokens := str_split line in
  let last := nth (length tokens - 1) tokens ""%string in
  (4 <=? length tokens)%nat
  && re_fullmatch number_re (nth 0 tokens ""%string)
  && (re_fullmatch number_re last || str_endswith last "mm").

(** The key of the line a word is filed under. *)
Definition word_line_key (w : Word.t) : Z := py_round (Word.top w / line_tol).

(** The key of a line, read off its first word. *)
Definition line_key (g : line_group) : option Z := word_line_key <$> head (lg_words g).

(** The lines of the page are well formed: every line has a word, the words
    of a line share its key, and every word is a word of the page that ends
    more than one unit above [bbox_top]. *)
Definition line_ok (bbox_top : Q) (words : list Word.t) (kg : Z * line_group) : Prop :=
  lg_words kg.2 ≠ [] ∧
  Forall (fun w => word_line_key w = kg.1 ∧ w ∈ words ∧
                   (Word.bottom w < bbox_top - 1)%Q) (lg_words kg.2).

(** The candidate [v] with the box [box] was read off the word [w]. *)
Definition read_off (w : Word.t) (v : Q) (box : BBox.t) : Prop :=
  v ∈ _numeric_from_text (Word.text w) ∧ box = word_bbox w.

(** A word of the window between the callout and the barrier line [b]: a
    word of the page, on one of the lines [pre] scanned before the barrier
    and on none of the lines [later] (the barrier and what lies behind it),
    that ends above the callout and not above the barrier. *)
Definition below_barrier (words : list Word.t) (bbox : BBox.t)
    (pre : list line_group) (b : line_group) (later : list line_group) (w : Word.t) : Prop :=
  w ∈ words ∧
  (∃ g, g ∈ pre ∧ w ∈ lg_words g) ∧
  (∀ g', g' ∈ later → w ∉ lg_words g') ∧
  (lg_bottom b - 0.5 <= Word.bottom w)%Q ∧
  (Word.bottom w < BBox.top bbox - 1)%Q.

(** ** Concrete inputs *)

(** A row of table [t] with position id [p]. *)
Definition plate_row (p : string) (t : nat) : Row.t :=
  {| Row.pos := p; Row.description := "PLATE"; Row.length := Some 250%Q;
     Row.length_display := Some "250 mm"%string; Row.length_options := [250%Q];
     Row.table_id := Some t; Row.table_label := None; Row.quantity := None;
     Row.quantity_display := None; Row.callout_quantity_text := None;
     Row.thickness := None; Row.thickness_display := None;
     Row.table_page := Some 1%nat; Row.table_anchor := None;
     Row._pos_duplicate := false |}.

(** A callout "3 PLATE" with its length 250 on the line above it, the
    callout "3.2 TANK" of another item above that, and the number 999 above
    the other callout. *)
Definition tank_callout : BBox.t := BBox.mk 100 140 200 210.

Definition word_250 : Word.t := Word.mk "250" 115 125 180 190.
Definition word_999 : Word.t := Word.mk "999" 115 125 140 150.

Definition tank_words : list Word.t :=
  [word_250; Word.mk "3.2" 100 110 160 170; Word.mk "TANK" 115 140 160 170;
   word_999; Word.mk "3" 100 105 200 210; Word.mk "PLATE" 110 140 200 210].

Definition line_250 : line_group :=
  {| lg_words := [word_250]; lg_top := 180; lg_bottom := 190 |}.
Definition line_tank : line_group :=
  {| lg_words := [Word.mk "3.2" 100 110 160 170; Word.mk "TANK" 115 140 160 170];
     lg_top := 160; lg_bottom := 170 |}.
Definition line_999 : line_group :=
  {| lg_words := [word_999]; lg_top := 140; lg_bottom := 150 |}.

(** The length 50 written twice on the line above the callout "3 PLATE":
    once off to the left, once right above the middle of the callout. *)
Definition far_50 : Word.t := Word.mk "50" 80 90 180 190.
Definition near_50 : Word.t := Word.mk "50" 115 125 180 190.

Definition twin_words : list Word.t :=
  [far_50; near_50; Word.mk "3" 100 105 200 210; Word.mk "PLATE" 110 140 200 210].

(** A page whose table has a LENGTH column with the cell "-250". *)
Definition signed_length_page : page :=
  {| page_words := [];
     page_text := "PLATES";
     page_tables :=
       [[[Some "POS"; Some "DESCRIPTION"; Some "LENGTH"];
         [Some "1"; Some "BASE PLATE"; Some "-250"]]]%string |}.

(** A page with one table, the words [words] and the text [body]. *)
Definition page_with_table (rows : list (list string)) (words : list Word.t) (body : string) : page :=
  {| page_words := words; page_text := body;
     page_tables := [map (map Some) (["POS"; "DESCRIPTION"; "LENGTH"]%string :: rows)] |}.

(** The analysis of a document of one page. *)
Definition analyze_page (fmt : py_format) (p : page) : option (list Result.t) :=
  analyze fmt [page_text p] (page_text p) [p].

(** What the results table shows of a verdict. *)
Definition verdict (r : Result.t)
    : string * string * bool * option Q * option string * list string :=
  (Row.pos (Result.row r), Result.status r, Result.callout_found r,
   Result.drawing_length r, Result.drawing_method r, Result.failure_reasons r).

(** A drawing on which the callout of row 3, "PLATE", stands without the
    number. The tag "(3 REF)" stands above the callout and the number 999
    above the tag. The table of the page holds the row "3 PLATE 999"; in the
    order of the words the callout comes between the POS cell of that row
    and its other cells. *)
Definition plate_callout_word : Word.t := Word.mk "PLATE" 100 140 200 210.
Definition tag_3 : Word.t := Word.mk "(3" 100 110 160 170.
Definition tag_ref : Word.t := Word.mk "REF)" 115 140 160 170.
Definition far_999 : Word.t := Word.mk "999" 115 125 120 130.
Definition cell_3 : Word.t := Word.mk "3" 300 305 300 310.

Definition tag_words : list Word.t :=
  [cell_3; plate_callout_word;
   Word.mk "PLATE" 320 360 300 310; Word.mk "999" 380 400 300 310;
   far_999; tag_3; tag_ref].

Definition tag_page : page :=
  page_with_table [["3"; "PLATE"; "999"]]%string tag_words
    (join (String "010" "")
          ["POS DESCRIPTION LENGTH"; "3 PLATE 999"; "999"; "(3 REF)"; "PLATE"]%string).

Definition tag_line : line_group :=
  {| lg_words := [tag_3; tag_ref]; lg_top := 160; lg_bottom := 170 |}.
Definition far_line : line_group :=
  {| lg_words := [far_999]; lg_top := 120; lg_bottom := 130 |}.

(** What the lookups read of that page: its text without the line of the
    table row, its words, and the box of the POS cell as table area. *)
Definition tag_app : App.t :=
  App.mk [join (String "010" "") ["POS DESCRIPTION LENGTH"; "999"; "(3 REF)"; "PLATE"]%string]
         [tag_words] {[ 1%nat := [word_bbox cell_3] ]}.

(** The words of [tank_words] with the two words of the callout "3.2 TANK"
    a fifth of a unit apart in height: 160.9 and 161.1. *)
Definition split_words : list Word.t :=
  [word_250; Word.mk "3.2" 100 110 160.9 170.9; Word.mk "TANK" 115 140 161.1 171.1;
   word_999; Word.mk "3" 100 105 200 210; Word.mk "PLATE" 110 140 200 210].

(** The characters of a normalised token: [a-z0-9.+-]. *)
Definition is_token_char (c : ascii) : bool := is_lower c || is_digit c || one_of ".+-" c.

(** A token as the matchers compare it: not empty, and made of token
    characters. *)
Definition normal_token (tok : string) : Prop :=
  tok ≠ ""%string ∧ Forall (fun c => is_token_char c = true) (chars tok).

(** A variant as the lookups take it: not empty, without an empty token. *)
Definition proper_variant (tokens : list string) : Prop :=
  tokens ≠ [] ∧ Forall (fun tok => tok ≠ ""%string) tokens.

(** The order in which the search returns its values: each one more than
    1e-6 below the one before. *)
Definition well_below (a b : Q) : Prop := (b + 1e-6 < a)%Q.

(** The strip of the page the search reads above a callout box: a word ends
    more than one unit above the top of the box, and its centre is no more
    than [max(20, 0.6 * width)] to the left or right of the box. *)
Definition above_callout (bbox : BBox.t) (w : Word.t) : Prop :=
  let x_margin := qmax 20 ((BBox.x1 bbox - BBox.x0 bbox) * 0.6) in
  (Word.bottom w < BBox.top bbox - 1)%Q ∧
  (BBox.x0 bbox - x_margin <= word_center w)%Q ∧
  (word_center w <= BBox.x1 bbox + x_margin)%Q.

(** The box [bbox] holds the word [w]. *)
Definition encloses (bbox : BBox.t) (w : Word.t) : Prop :=
  (BBox.x0 bbox <= Word.x0 w)%Q ∧ (Word.x1 w <= BBox.x1 bbox)%Q ∧
  (BBox.top bbox <= Word.top w)%Q ∧ (Word.bottom w <= BBox.bottom bbox)%Q.

(** The words of a page that have a normal form, with it. *)
Definition normalized_words (words : list Word.t) : list (Word.t * string) :=
  List.filter (fun wn => nonempty (chars (snd wn)))
              (map (fun word => (word, normalize_word_token (Word.text word))) words).

(** What a lookup promises about its answer [(found, value, page, meta)] on
    a document of [pages] pages: without a callout there is no value, no page
    and an empty [meta]; with one, the page is a page of the document and
    the method is named; a value is one of the candidates, it has a box when
    the method is the geometric one, and it is not negative when the method
    is the text one; without a value there are no candidates. *)
Definition sound_lookup (pages : nat) (res : lookup_result) : Prop :=
  let '(found, value, page, meta) := res in
  if found then
    (∃ p, page = Some p ∧ 1 ≤ p ≤ pages) ∧
    (Meta.method meta = Some "geometry"%string ∨ Meta.method meta = Some "text"%string) ∧
    is_Some (Meta.tokens meta) ∧
    (Meta.method meta = Some "geometry"%string ↔ is_Some (Meta.bbox meta)) ∧
    match value with
    | Some v =>
        v ∈ Meta.candidates meta ∧
        (Meta.method meta = Some "geometry"%string → is_Some (Meta.value_bbox meta)) ∧
        (Meta.method meta = Some "text"%string → (0 <= v)%Q)
    | None => Meta.candidates meta = [] ∧ Meta.value_bbox meta = None
    end
  else value = None ∧ page = None ∧ meta = Meta.empty.

(** The number of pages a lookup can name: those with words or with text. *)
Definition page_count (self : App.t) : nat :=
  length (App.page_words self) `max` length (App.page_texts self).

(** What a lookup says about the callout, apart from the value it reads:
    whether it was found, the page, the method, the box, the tokens and the
    quantity. *)
Definition callout_part (res : lookup_result)
    : bool * option nat * option string * option BBox.t * option (list string)
      * bool * option pynum * option string :=
  let '(found, _, page, meta) := res in
  (found, page, Meta.method meta, Meta.bbox meta, Meta.tokens meta,
   Meta.quantity_tokens meta, Meta.quantity_value meta, Meta.quantity_label meta).

(** The lengths the comparator accepts for a row: its [length_options], or
    else its [length] alone. *)
Definition expected_lengths (row : Row.t) : list Q :=
  if nonempty (Row.length_options row) then Row.length_options row
  else match Row.length row with Some l => [l] | None => [] end.

(** The quantity text the comparator hands to the lookups. *)
Definition row_quantity_text (fmt : py_format) (row : Row.t) : option string :=
  let quantity_text := str_or (Row.callout_quantity_text row) (Row.quantity_display row) in
  match Row.quantity row with
  | Some qv => if truthy quantity_text then quantity_text
               else Some (format_quantity fmt qv)
  | None => quantity_text
  end.

(** The lookup for the length of a row, and the one for its thickness,
    which is not made when the row declares none. *)
Definition length_lookup (fmt : py_format) (engine : lookup_engine) (row : Row.t)
    : lookup_result :=
  engine (Row.pos row) (Row.description row) (head (expected_lengths row)) true
         (row_quantity_text fmt row) (Row.quantity row).

Definition thickness_lookup (fmt : py_format) (engine : lookup_engine) (row : Row.t)
    : lookup_result :=
  match Row.thickness row with
  | Some t => engine (Row.pos row) (Row.description row) (Some t) false
                     (row_quantity_text fmt row) (Row.quantity row)
  | None => (false, None, None, Meta.empty)
  end.

(** [format(v, ".1f")] of an exact rational: one decimal, a half going to
    the even digit. *)
Definition format_fixed1 (v : Q) : string :=
  let n := py_round (Qabs v * 10) in
  (if Qltb v 0 then "-" else "") +:+ pretty (n / 10)%Z +:+ "." +:+ pretty (n mod 10)%Z.

(** A formatting to run the comparator with: [".1f"] as above, and ["g"]
    as Python prints a whole number below a million, by its digits. *)
Definition whole_number_format : py_format :=
  {| format_g := fun v => pretty (Qfloor v); format_1f := format_fixed1 |}.

(** A document of one page on which the plate of position 3 is 180 long. *)
Definition short_plate_app : App.t :=
  App.mk ["3 PLATE L=180mm"%string] [] ∅.

(** A quantity as [add_candidate] records it: not negative, and an [int]
    whenever it is within 1e-6 of a whole number. *)
Definition proper_quantity (n : pynum) : Prop :=
  (0 <= num_val n)%Q ∧
  match n with
  | PyInt _ => True
  | PyFloat q => (1e-6 <= Qabs (q - inject_Z (py_round q)))%Q
  end.

(** A row of the line mode, as [parse_table_row] and [extract_table_rows]
    leave it. *)
Definition line_row (row : Row.t) : Prop :=
  re_fullmatch number_re (Row.pos row) = true ∧
  Row.description row ≠ ""%string ∧
  (∃ v, Row.length row = Some v ∧ Row.length_options row = [v] ∧ (0 <= v)%Q) ∧
  (∃ d, Row.length_display row = Some d ∧ str_endswith (str_lower d) "mm" = true) ∧
  Row.table_id row = Some 1%nat ∧ Row.table_label row = Some "Table 1"%string ∧
  Row.table_page row = None ∧ Row.table_anchor row = None ∧
  Row.thickness row = None ∧ Row.quantity row = None.

(** A row of the grid mode, in a document of [pages] pages. *)
Definition grid_mode_row (pages : nat) (row : Row.t) : Prop :=
  re_fullmatch number_re (Row.pos row) = true ∧
  (∃ v, Row.length row = Some v ∧ head (Row.length_options row) = Some v) ∧
  (∀ t, Row.thickness row = Some t → (0 <= t)%Q) ∧
  (∃ p, Row.table_page row = Some p ∧ 1 ≤ p ≤ pages) ∧
  (∃ k, Row.table_id row = Some k ∧ 1 ≤ k) ∧
  truthy (Row.table_label row) = true ∧
  truthy (Row.length_display row) = true ∧
  Row._pos_duplicate row = false.

(** What the extraction keeps true of the rows gathered so far. *)
Definition grid_rows_ok (pages : nat) (st : extraction) : Prop :=
  Forall (grid_mode_row pages) (ex_rows st).

(** The box [outer] holds the box [inner]. *)
Definition box_within (inner outer : BBox.t) : Prop :=
  (BBox.x0 outer <= BBox.x0 inner)%Q ∧ (BBox.x1 inner <= BBox.x1 outer)%Q ∧
  (BBox.top outer <= BBox.top inner)%Q ∧ (BBox.bottom inner <= BBox.bottom outer)%Q.

(** The snippet [snippet] of page [page_idx] occurs in [line], letter case
    apart. *)
Definition snippet_in_line (snippets : list (nat * string)) (page_idx : nat)
    (line : string) : Prop :=
  ∃ snippet, (page_idx, snippet) ∈ snippets ∧ snippet ≠ ""%string ∧
             str_contains (str_lower snippet) (str_lower line) = true.

(** A document of one page with the words of the callout "3 PLATE" and
    nothing else. *)
Definition tank_app : App.t := App.mk [] [tank_words] ∅.

(** ** The summary of an analysis

    The end of [PDFQCApp._on_pdf_processed]: the counts, the summary line
    with its parts, and the dialog that reports the outcome. *)

(** [sum(1 for r in results if p(r))] *)
Definition count_if {A : Type} (p : A -> bool) (l : list A) : nat :=
  length (List.filter p l).

Definition is_pass (r : Result.t) : bool := String.eqb (Result.status r) "PASS".
Definition is_fail (r : Result.t) : bool := String.eqb (Result.status r) "FAIL".

Definition pass_count (results : list Result.t) : nat := count_if is_pass results.

Definition fail_count (results : list Result.t) : nat :=
  (length results - pass_count results)%nat.

(** The first part of the summary. *)
Definition summary_line (results : list Result.t) : string :=
  let total := length results in
  if (fail_count results =? 0)%nat
  then "Overall PASS - " +:+ pretty (pass_count results) +:+ "/" +:+ pretty total
       +:+ " positions matched."
  else "Overall FAIL - " +:+ pretty (fail_count results) +:+ " of " +:+ pretty total
       +:+ " positions did not match.".

(** A part [<label>: <count>], which is left out when the count is 0. *)
Definition count_part (label : string) (count : nat) : list string :=
  if (count =? 0)%nat then [] else [label +:+ ": " +:+ pretty count].

(** [self._summary_base_parts] *)
Definition summary_parts (results : list Result.t) (analysis : pos_analysis) : list string :=
  let missing_callout := count_if (fun r => negb (Result.callout_found r)) results in
  let missing_length :=
    count_if (fun r => Result.callout_found r && negb (Result.length_found r)) results in
  let missing_thickness :=
    count_if (fun r => Result.thickness_required r && Result.callout_found r
                       && negb (Result.thickness_found r)) results in
  let thickness_mismatch :=
    count_if (fun r => Result.thickness_required r && Result.thickness_found r
                       && negb (Result.thickness_match r)) results in
  let dup_details := pa_duplicate_details analysis in
  [summary_line results]
  ++ count_part "Callout missing" missing_callout
  ++ count_part "Length missing" missing_length
  ++ count_part "Thickness missing" missing_thickness
  ++ count_part "Thickness mismatch" thickness_mismatch
  ++ (if nonempty dup_details then
        let dup_strings := map (fun '(label, pos) => label +:+ ": " +:+ pos)
                               (take 10 dup_details) in
        let more := if (10 <? length dup_details)%nat then "..." else "" in
        ["Duplicate POS: " +:+ join ", " dup_strings +:+ more]
      else []).

Definition base_summary_text (results : list Result.t) (analysis : pos_analysis) : string :=
  join " | " (summary_parts results analysis).

(** The line of the warning for a failing row. *)
Definition failure_detail (r : Result.t) : string :=
  let page_note :=
    match Result.drawing_page r with
    | Some (S p) => " (page " +:+ pretty (S p) +:+ ")"
    | _ => ""
    end in
  let reasons := Result.failure_reasons r in
  let detail_reason := if nonempty reasons then join "; " reasons else "Mismatch" in
  Row.pos (Result.row r) +:+ " " +:+ Row.description (Result.row r) +:+ page_note
  +:+ ": " +:+ detail_reason.

(** The loop that lists the failing rows, which stops once the warning has
    seven lines. *)
Fixpoint warning_loop (results : list Result.t) (lines : list string) : list string :=
  match results with
  | [] => lines
  | r :: rest =>
      if is_fail r then
        let lines := lines ++ [failure_detail r] in
        if (7 <=? length lines)%nat then lines ++ ["..."]
        else warning_loop rest lines
      else warning_loop rest lines
  end.

(** The dialog shown at the end of an analysis. *)
Inductive dialog :=
| ShowWarning (title : string) (message : string)
| ShowInfo (title : string) (message : string).

Definition outcome_dialog (results : list Result.t) (analysis : pos_analysis) : dialog :=
  let base := base_summary_text results analysis in
  if negb (fail_count results =? 0)%nat
  then ShowWarning "Mismatches found"
         (join (String "010" "") (warning_loop results [base; ""%string]))
  else ShowInfo "All matched" base.

(** ** The history of analysed files

    [PDFQCApp._add_history_entry] on the list [self.history_entries]; the
    spelling issues stored with an entry are of a type left open here. *)

Section History.
Context {spell_issues : Type}.

Record history_entry := {
  he_file : string;
  he_summary : string;
  he_results : list Result.t;
  he_pos_analysis : option pos_analysis;
  he_spell_issues : spell_issues;
}.

Definition _add_history_entry (history_entries : list history_entry)
    (current_spell_issues : spell_issues) (file_name summary_text : string)
    (results : list Result.t) (analysis : option pos_analysis) : list history_entry :=
  if negb (nonempty (chars file_name)) || negb (nonempty results) then history_entries else
  let entry := {| he_file := file_name; he_summary := summary_text;
                  he_results := results; he_pos_analysis := analysis;
                  he_spell_issues := current_spell_issues |} in
  let history_entries :=
    entry :: List.filter (fun e => negb (String.eqb (he_file e) file_name)) history_entries in
  if (3 <? length history_entries)%nat then take 3 history_entries else history_entries.
End History.

(** A verdict that fails for want of a callout, and one that passes. *)
Definition failing_result (p : string) : Result.t :=
  {| Result.row := plate_row p 1; Result._row_index := 0;
     Result.length_required := true; Result.callout_found := false;
     Result.length_found := false; Result.length_match := false;
     Result.drawing_length := None; Result.drawing_page := None;
     Result.drawing_method := None; Result.selection_rule := None;
     Result.candidate_lengths := []; Result.thickness_required := false;
     Result.thickness_callout_found := false; Result.thickness_found := false;
     Result.thickness_match := true; Result.drawing_thickness := None;
     Result.thickness_page := None; Result.thickness_method := None;
     Result.thickness_selection_rule := None; Result.candidate_thicknesses := [];
     Result.quantity_callout_found := false; Result.quantity_callout := None;
     Result.quantity_callout_label := None; Result.quantity_tokens_detected := false;
     Result.status := "FAIL"; Result.failure_reasons := ["callout missing"%string];
     Result.info_notes := []; Result.callout_bbox := None;
     Result.length_bbox := None; Result.thickness_bbox := None |}.

(** The rows an analysis works on: those of the grid mode, or, when there
    are none, those of the line mode. *)
Definition normalized_rows (text : string) (pages : list page) : list Row.t :=
  let rows := (extract_rows_with_plumber pages).1.1 in
  if nonempty rows then rows else (extract_table_rows text).1.

(** A document of one page whose text names the plate of position 3. *)
Definition plate_text_app : App.t := App.mk ["NOTES"; "3 PLATE L=250mm"]%string [] ∅.

(* ================================================================= *)
(** * Part II: properties *)
(* ================================================================= *)

(** ** Sorting *)

Section Sorting.
Context {A : Type} (before : A -> A -> bool).

Lemma insert_sorted_perm x l : insert_sorted before x l ≡ₚ x :: l.
Proof.
  induction l as [|y t IH]; simpl; [done|].
  destruct (before y x); [|done].
  rewrite IH. apply Permutation_swap.
Qed.

Lemma sorted_by_perm l : sorted_by before l ≡ₚ l.
Proof.
  induction l as [|x t IH]; simpl; [done|].
  rewrite insert_sorted_perm. by rewrite IH.
Qed.

Lemma elem_of_sorted_by x l : x ∈ sorted_by before l ↔ x ∈ l.
Proof. by rewrite sorted_by_perm. Qed.
End Sorting.

(** ** Comparisons on rationals *)

Lemma Qltb_lt (x y : Q) : Qltb x y = true ↔ (x < y)%Q.
Proof.
  unfold Qltb. rewrite negb_true_iff, <- not_true_iff_false, Qle_bool_iff.
  split; [apply Qnot_le_lt | apply Qlt_not_le].
Qed.

Lemma Qltb_ge (x y : Q) : Qltb x y = false ↔ (y <= x)%Q.
Proof.
  unfold Qltb. rewrite negb_false_iff. apply Qle_bool_iff.
Qed.

Lemma pair_ltb_false (a1 b1 a2 b2 : Q) :
  pair_ltb (a1, b1) (a2, b2) = false ↔ (a2 < a1 ∨ (a1 == a2 ∧ b2 <= b1))%Q.
Proof.
  unfold pair_ltb; simpl.
  rewrite orb_false_iff, andb_false_iff, !Qltb_ge.
  rewrite <- not_true_iff_false, Qeq_bool_iff.
  split.
  - intros [H1 [H2|H2]].
    + left. apply Qnot_le_lt. intros H3. apply H2. by apply Qle_antisym.
    + destruct (Qlt_le_dec a2 a1) as [Hlt|Hle]; [by left|].
      right. split; [by apply Qle_antisym|done].
  - intros [H|[H1 H2]].
    + split; [by apply Qlt_le_weak|]. left. intros Heq. rewrite Heq in H.
      by apply Qlt_irrefl in H.
    + split; [rewrite H1; apply Qle_refl|by right].
Qed.

Lemma pair_ltb_true (a1 b1 a2 b2 : Q) :
  pair_ltb (a1, b1) (a2, b2) = true ↔ (a1 < a2 ∨ (a1 == a2 ∧ b1 < b2))%Q.
Proof.
  unfold pair_ltb; simpl.
  by rewrite orb_true_iff, andb_true_iff, !Qltb_lt, Qeq_bool_iff.
Qed.

(** ** Sorting by a rational key *)

Section SortedKey.
Context {A : Type} (key : A -> Q).

Lemma insert_reverse_sorted x l :
  StronglySorted (fun a b => (key b <= key a)%Q) l →
  StronglySorted (fun a b => (key b <= key a)%Q)
    (insert_sorted (fun y x => Qltb (key x) (key y)) x l).
Proof.
  induction 1 as [|y t Hs IH Hall]; simpl.
  - repeat constructor.
  - destruct (Qltb (key x) (key y)) eqn:E.
    + constructor; [done|].
      apply Qltb_lt in E.
      rewrite Forall_forall in *. intros z Hz.
      rewrite insert_sorted_perm in Hz.
      apply elem_of_cons in Hz as [->|Hz]; [by apply Qlt_le_weak|].
      by apply Hall.
    + apply Qltb_ge in E.
      constructor; [by constructor|].
      constructor; [done|].
      rewrite Forall_forall in *. intros z Hz.
      eapply Qle_trans; [by apply Hall|done].
Qed.

Lemma sorted_key_reverse_sorted l :
  StronglySorted (fun a b => (key b <= key a)%Q) (sorted_key_reverse key l).
Proof.
  induction l as [|x t IH]; simpl; [constructor|].
  by apply insert_reverse_sorted.
Qed.

Lemma insert_forward_sorted x l :
  StronglySorted (fun a b => (key a <= key b)%Q) l →
  StronglySorted (fun a b => (key a <= key b)%Q)
    (insert_sorted (fun y x => Qltb (key y) (key x)) x l).
Proof.
  induction 1 as [|y t Hs IH Hall]; simpl.
  - repeat constructor.
  - destruct (Qltb (key y) (key x)) eqn:E.
    + constructor; [done|].
      apply Qltb_lt in E.
      rewrite Forall_forall in *. intros z Hz.
      rewrite insert_sorted_perm in Hz.
      apply elem_of_cons in Hz as [->|Hz]; [by apply Qlt_le_weak|].
      by apply Hall.
    + apply Qltb_ge in E.
      constructor; [by constructor|].
      constructor; [done|].
      rewrite Forall_forall in *. intros z Hz.
      eapply Qle_trans; [done|by apply Hall].
Qed.

Lemma sorted_key_sorted l :
  StronglySorted (fun a b => (key a <= key b)%Q) (sorted_key key l).
Proof.
  induction l as [|x t IH]; simpl; [constructor|].
  by apply insert_forward_sorted.
Qed.

Lemma elem_of_sorted_key_reverse x l : x ∈ sorted_key_reverse key l ↔ x ∈ l.
Proof. apply elem_of_sorted_by. Qed.

Lemma elem_of_sorted_key x l : x ∈ sorted_key key l ↔ x ∈ l.
Proof. apply elem_of_sorted_by. Qed.

(** The first element of a list sorted in descending order is a maximum. *)
Lemma head_sorted_key_reverse l :
  l ≠ [] →
  ∃ m, head (sorted_key_reverse key l) = Some m ∧ m ∈ l ∧
       ∀ x, x ∈ l → (key x <= key m)%Q.
Proof.
  intros Hne.
  pose proof (sorted_key_reverse_sorted l) as Hs.
  pose proof (elem_of_sorted_key_reverse) as Hin.
  destruct (sorted_key_reverse key l) as [|m t] eqn:E.
  - destruct l as [|x l]; [done|].
    specialize (Hin x (x :: l)). rewrite E in Hin.
    exfalso. eapply not_elem_of_nil, Hin. left.
  - exists m. split; [done|]. split.
    + apply (Hin m l). rewrite E. left.
    + intros x Hx. apply (Hin x l) in Hx. rewrite E in Hx.
      apply elem_of_cons in Hx as [->|Hx]; [apply Qle_refl|].
      apply StronglySorted_inv in Hs as [_ Hall].
      rewrite Forall_forall in Hall. by apply Hall.
Qed.

(** [find] on a list sorted in descending order returns the largest
    element that satisfies the test. *)
Lemma find_sorted_desc (p : A -> bool) l v :
  StronglySorted (fun a b => (key b <= key a)%Q) l →
  List.find p l = Some v →
  v ∈ l ∧ p v = true ∧ ∀ x, x ∈ l → p x = true → (key x <= key v)%Q.
Proof.
  induction 1 as [|y t Hs IH Hall]; simpl; [done|].
  destruct (p y) eqn:E.
  - intros [= <-]. split; [left|]. split; [done|].
    intros x Hx _. apply elem_of_cons in Hx as [->|Hx]; [apply Qle_refl|].
    rewrite Forall_forall in Hall. by apply Hall.
  - intros Hf. destruct (IH Hf) as (Hv & Hpv & Hmax).
    split; [by right|]. split; [done|].
    intros x Hx Hpx. apply elem_of_cons in Hx as [->|Hx]; [congruence|].
    by apply Hmax.
Qed.

Lemma find_none_all (p : A -> bool) l :
  List.find p l = None → ∀ x, x ∈ l → p x = false.
Proof.
  intros Hf x Hx. apply list_elem_of_In in Hx.
  by apply (find_none p l Hf).
Qed.
End SortedKey.

(** ** Minimum with a tuple key *)

Lemma pair_ltb_irrefl (k : Q * Q) : pair_ltb k k = false.
Proof.
  destruct k as [a b]. apply pair_ltb_false. right.
  split; [reflexivity|apply Qle_refl].
Qed.

Lemma pair_le_trans (k1 k2 k3 : Q * Q) :
  pair_ltb k2 k1 = false → pair_ltb k3 k2 = false → pair_ltb k3 k1 = false.
Proof.
  destruct k1 as [a1 b1], k2 as [a2 b2], k3 as [a3 b3].
  rewrite !pair_ltb_false.
  intros [H1|[H1 H1']] [H2|[H2 H2']].
  - left. lra.
  - left. lra.
  - left. lra.
  - right. split; lra.
Qed.

Lemma min_key_spec {A : Type} (key : A -> Q * Q) (l : list A) (x : A) :
  min_key key x l ∈ x :: l ∧
  ∀ y, y ∈ x :: l → pair_ltb (key y) (key (min_key key x l)) = false.
Proof.
  revert x. induction l as [|a t IH]; intros x; simpl.
  - split; [left|]. intros y Hy. apply list_elem_of_singleton in Hy as ->.
    apply pair_ltb_irrefl.
  - unfold min_key in *. simpl.
    set (b := if pair_ltb (key a) (key x) then a else x).
    destruct (IH b) as [Hin Hmin].
    assert (Hbx : pair_ltb (key x) (key b) = false).
    { subst b. destruct (pair_ltb (key a) (key x)) eqn:E.
      - destruct (key a) as [a1 a2], (key x) as [x1 x2].
        apply pair_ltb_true in E. apply pair_ltb_false. lra.
      - apply pair_ltb_irrefl. }
    assert (Hba : pair_ltb (key a) (key b) = false).
    { subst b. destruct (pair_ltb (key a) (key x)) eqn:E; [apply pair_ltb_irrefl|done]. }
    assert (Hb : b = a ∨ b = x) by (subst b; destruct (pair_ltb _ _); auto).
    split.
    + apply elem_of_cons in Hin as [Hin|Hin].
      * rewrite Hin. destruct Hb as [->| ->]; [right; left|left].
      * by do 2 right.
    + intros y Hy.
      apply elem_of_cons in Hy as [->|Hy].
      * eapply pair_le_trans; [|exact Hbx]. apply Hmin. left.
      * apply elem_of_cons in Hy as [->|Hy].
        -- eapply pair_le_trans; [|exact Hba]. apply Hmin. left.
        -- apply Hmin. by right.
Qed.

(** ** Candidate selection *)

(** C4. On a non-empty candidate list [_pick_candidate] returns a member [v]
    of the list: without an expected value the largest candidate, with mode
    "max_in_window"; with [prefer_max] the first candidate, in descending
    order, that lies within 0.5 of the expected value (the largest such
    candidate), with mode "match_expected", when one exists, and the largest
    candidate with mode "max_in_window" when none does; without [prefer_max]
    a candidate at least as close to the expected value as every other one,
    and at least as large as every candidate at the same distance, with mode
    "closest_to_expected". *)
Theorem pick_candidate_selection
    (candidates : list Q) (expected : option Q) (prefer_max : bool) :
  candidates ≠ [] →
  ∃ v mode,
    _pick_candidate candidates expected prefer_max default_tolerance = (Some v, mode) ∧
    v ∈ candidates ∧
    match expected with
    | None =>
        mode = "max_in_window"%string ∧ ∀ x, x ∈ candidates → (x <= v)%Q
    | Some e =>
        if prefer_max then
          ((∃ x, x ∈ candidates ∧ (Qabs (x - e) <= 0.5)%Q) →
             mode = "match_expected"%string ∧
             List.find (fun x => Qle_bool (Qabs (x - e)) 0.5)
                       (sorted_reverse candidates) = Some v ∧
             (Qabs (v - e) <= 0.5)%Q ∧
             ∀ x, x ∈ candidates → (Qabs (x - e) <= 0.5)%Q → (x <= v)%Q) ∧
          ((∀ x, x ∈ candidates → ¬ (Qabs (x - e) <= 0.5)%Q) →
             mode = "max_in_window"%string ∧ ∀ x, x ∈ candidates → (x <= v)%Q)
        else
          mode = "closest_to_expected"%string ∧
          (∀ x, x ∈ candidates → (Qabs (v - e) <= Qabs (x - e))%Q) ∧
          (∀ x, x ∈ candidates → (Qabs (x - e) == Qabs (v - e))%Q → (x <= v)%Q)
    end.
Proof.
  intros Hne.
  destruct (head_sorted_key_reverse (fun v : Q => v) candidates Hne)
    as (m & Hhead & Hm & Hmax).
  fold (sorted_reverse candidates) in Hhead.
  destruct candidates as [|c0 rest]; [done|].
  unfold _pick_candidate.
  destruct expected as [e|]; [destruct prefer_max|].
  - destruct (List.find _ (sorted_reverse (c0 :: rest))) as [v|] eqn:Hfind.
    + destruct (find_sorted_desc (fun v : Q => v) _ _ _
                  (sorted_key_reverse_sorted _ _) Hfind) as (Hv & Hpv & Hbest).
      apply elem_of_sorted_key_reverse in Hv.
      apply Qle_bool_iff in Hpv.
      exists v, "match_expected"%string. split; [done|]. split; [done|]. split.
      * intros _. split; [done|]. split; [done|]. split; [done|].
        intros x Hx Hx'. apply Hbest; [by apply elem_of_sorted_key_reverse|].
        by apply Qle_bool_iff.
      * intros Hnone. exfalso. by apply (Hnone v).
    + exists m, "max_in_window"%string. rewrite Hhead.
      split; [done|]. split; [done|]. split.
      * intros (x & Hx & Hx'). exfalso.
        apply (elem_of_sorted_key_reverse (fun v : Q => v)) in Hx.
        apply (find_none_all _ _ Hfind x) in Hx.
        apply not_true_iff_false in Hx. apply Hx. by apply Qle_bool_iff.
      * intros _. split; [done|]. exact Hmax.
  - destruct (min_key_spec (fun v => (Qabs (v - e), - v)%Q) rest c0) as [Hin Hmin].
    eexists _, _. split; [reflexivity|]. split; [exact Hin|].
    split; [done|]. split.
    + intros x Hx. specialize (Hmin x Hx). apply pair_ltb_false in Hmin. lra.
    + intros x Hx Heq. specialize (Hmin x Hx). apply pair_ltb_false in Hmin. lra.
  - exists m, "max_in_window"%string. rewrite Hhead. done.
Qed.

Lemma pick_candidate_selection_witness :
  ∃ v mode,
    _pick_candidate [12; 250; 249.8]%Q (Some 250%Q) true default_tolerance = (Some v, mode) ∧
    v ∈ [12; 250; 249.8]%Q.
Proof.
  destruct (pick_candidate_selection [12; 250; 249.8]%Q (Some 250%Q) true)
    as (v & mode & H1 & H2 & _); [done|].
  by exists v, mode.
Defined.

(** ** The row comparator *)

Lemma within_le (tolerance a b : Q) :
  within tolerance a b = true ↔ (Qabs (a - b) <= tolerance)%Q.
Proof. apply Qle_bool_iff. Qed.

(** The engine's two answers for a row, as [compare_row] obtains them. *)
Ltac split_lookups :=
  unfold compare_row;
  match goal with
  | |- context [find_length_for_row ?e ?p ?d ?x ?qt ?qv] =>
      destruct (find_length_for_row e p d x qt qv) as [[[lc dl] lp] lm]
  end;
  match goal with
  | |- context [if ?b then find_thickness_for_row ?e ?p ?d ?x ?qt ?qv else ?z] =>
      destruct (if b then find_thickness_for_row e p d x qt qv else z)
        as [[[tc dt] tp] tm]
  end.

Lemma compare_row_status fmt engine i row :
  let r := compare_row fmt engine i row in
  Result.status r =
    if Result.callout_found r && Result.length_match r
       && (negb (Result.thickness_required r)
           || (Result.thickness_found r && Result.thickness_match r))
       && negb (Row._pos_duplicate (Result.row r))
    then "PASS"%string else "FAIL"%string.
Proof. split_lookups. reflexivity. Qed.

Lemma compare_rows_Forall (P : Result.t → Prop) fmt engine rows :
  (∀ i row, P (compare_row fmt engine i row)) →
  Forall P (compare_rows fmt engine rows).
Proof.
  intros HP. unfold compare_rows.
  apply Forall_forall. intros r Hr.
  apply list_elem_of_lookup in Hr as [i Hi].
  rewrite list_lookup_imap in Hi.
  destruct (rows !! i) as [row|]; simplify_eq/=. apply HP.
Qed.

(** C1. Every result the comparator emits has status "PASS" exactly when
    the callout was found, the length matches, the thickness is not required
    or is both found and matching, and the row is not flagged as a duplicate
    position; in every other case the status is "FAIL". *)
Theorem status_pass_iff fmt engine (rows : list Row.t) :
  Forall (fun r =>
    (Result.status r = "PASS"%string ↔
       Result.callout_found r = true ∧
       Result.length_match r = true ∧
       (Result.thickness_required r = false ∨
        (Result.thickness_found r = true ∧ Result.thickness_match r = true)) ∧
       Row._pos_duplicate (Result.row r) = false) ∧
    (Result.status r ≠ "PASS"%string → Result.status r = "FAIL"%string))
    (compare_rows fmt engine rows).
Proof.
  apply compare_rows_Forall. intros i row.
  pose proof (compare_row_status fmt engine i row) as Hst. simpl in Hst.
  set (r := compare_row fmt engine i row) in *. clearbody r.
  rewrite Hst.
  destruct (Result.callout_found r), (Result.length_match r),
    (Result.thickness_required r), (Result.thickness_found r),
    (Result.thickness_match r), (Row._pos_duplicate (Result.row r));
    simpl; split; try done; split; try done; intuition congruence.
Qed.

Lemma compare_row_row fmt engine i row :
  Result.row (compare_row fmt engine i row) = row.
Proof. split_lookups. reflexivity. Qed.

Lemma compare_row_length_match fmt engine i row :
  let r := compare_row fmt engine i row in
  Row.length_options row ≠ [] →
  Result.length_match r =
    match Result.drawing_length r with
    | Some d => existsb (fun v => within 0.5 d v) (Row.length_options row)
    | None => false
    end.
Proof.
  split_lookups. simpl. intros Hne.
  destruct (Row.length_options row) as [|v0 vs] eqn:E; [done|]. simpl.
  destruct dl as [d|]; [|done]. simpl. by rewrite orb_false_r.
Qed.

(** C2. For a row with a declared length (non-empty [length_options]) the
    comparator sets [length_match] exactly when a drawing length was found
    and it lies within 0.5 of some entry of [length_options]; so a match
    implies such an entry, and a drawing value matching any entry, not only
    the first, is a match. *)
Theorem length_match_iff_some_option fmt engine (rows : list Row.t) :
  Forall (fun r =>
    Row.length_options (Result.row r) ≠ [] →
    (Result.length_match r = true ↔
     ∃ d v, Result.drawing_length r = Some d ∧
            v ∈ Row.length_options (Result.row r) ∧
            (Qabs (d - v) <= 0.5)%Q))
    (compare_rows fmt engine rows).
Proof.
  apply compare_rows_Forall. intros i row.
  rewrite compare_row_row. intros Hne.
  rewrite (compare_row_length_match fmt engine i row Hne).
  destruct (Result.drawing_length _) as [d|].
  - rewrite existsb_exists. split.
    + intros (v & Hv & Hd). exists d, v.
      split; [done|]. split; [by apply list_elem_of_In|]. by apply within_le.
    + intros (d' & v & [= <-] & Hv & Hd). exists v.
      split; [by apply list_elem_of_In|]. by apply within_le.
  - split; [done|]. by intros (d & v & [=] & _).
Qed.

(** C10. A result whose callout was not found reports no quantity callout:
    [quantity_callout_found] is false and both the quantity value and its
    label are [None], whatever the lookups returned. *)
Theorem no_callout_no_quantity fmt engine (rows : list Row.t) :
  Forall (fun r =>
    Result.callout_found r = false →
    Result.quantity_callout_found r = false ∧
    Result.quantity_callout r = None ∧
    Result.quantity_callout_label r = None)
    (compare_rows fmt engine rows).
Proof.
  apply compare_rows_Forall. intros i row.
  split_lookups. simpl. by intros ->.
Qed.

(** ** Text fallback *)

Lemma qmin_Qmin (a b : Q) : (qmin a b == Qmin a b)%Q.
Proof.
  unfold qmin. destruct (Qltb b a) eqn:E.
  - apply Qltb_lt in E. symmetry. apply Q.min_r. by apply Qlt_le_weak.
  - apply Qltb_ge in E. symmetry. by apply Q.min_l.
Qed.

Lemma qmax_Qmax (a b : Q) : (qmax a b == Qmax a b)%Q.
Proof.
  unfold qmax. destruct (Qltb a b) eqn:E.
  - apply Qltb_lt in E. symmetry. apply Q.max_r. by apply Qlt_le_weak.
  - apply Qltb_ge in E. symmetry. by apply Q.max_l.
Qed.

Lemma text_min_threshold_eq (expected : option Q) :
  (text_min_threshold expected ==
   match expected with
   | Some e => Qmin 20 (Qmax 1 (0.5 * e))
   | None => 20
   end)%Q.
Proof.
  destruct expected as [e|]; simpl; [|reflexivity].
  rewrite qmin_Qmin, qmax_Qmax.
  assert (e * 0.5 == 0.5 * e)%Q as -> by ring. reflexivity.
Qed.

Lemma elem_of_text_numbers lines desc expected n :
  n ∈ text_numbers lines desc expected ↔
  n ∈ flat_map extract_numeric_values lines ∧
  (text_min_threshold expected <= n)%Q ∧
  ∀ dn, dn ∈ desc → (1e-6 < Qabs (n - dn))%Q.
Proof.
  unfold text_numbers.
  rewrite list_elem_of_In, filter_In, <- list_elem_of_In.
  rewrite andb_true_iff, Qle_bool_iff, forallb_forall.
  split; intros (H1 & H2 & H3); (split; [done|]); (split; [done|]).
  - intros dn Hdn. apply Qltb_lt, H3. by apply list_elem_of_In.
  - intros dn Hdn. apply Qltb_lt, H3. by apply list_elem_of_In.
Qed.

(** C7, as the code has it. When neither candidate line carries an explicit
    "<number> mm", a number [n] is among the candidates of the text fallback
    exactly when it was read off those lines, is at least
    [min(20, max(1, 0.5 * expected))] (at least 20 without an expected
    value), and differs by more than 1e-6 from every number of the item's
    description. *)
Theorem text_fallback_candidates lines desc expected prefer_max (n : Q) :
  explicit_mm_value lines = None →
  n ∈ snd (fst (text_line_value lines desc expected prefer_max)) ↔
  n ∈ flat_map extract_numeric_values lines ∧
  (match expected with
   | Some e => Qmin 20 (Qmax 1 (0.5 * e))
   | None => 20
   end <= n)%Q ∧
  ∀ dn, dn ∈ desc → (1e-6 < Qabs (n - dn))%Q.
Proof.
  intros Hmm. unfold text_line_value. rewrite Hmm.
  rewrite <- text_min_threshold_eq, <- elem_of_text_numbers.
  destruct (text_numbers lines desc expected) as [|x xs] eqn:E.
  - simpl. done.
  - cbn [nonempty].
    destruct (_pick_candidate _ _ _ _) as [best mode]. cbn [fst snd].
    unfold sorted_reverse. by rewrite elem_of_sorted_key_reverse.
Qed.

Lemma text_fallback_candidates_witness :
  30%Q ∈ snd (fst (text_line_value ["7 BRACKET 30"%string] [7%Q] (Some 100%Q) true)).
Proof.
  apply (text_fallback_candidates ["7 BRACKET 30"%string] [7%Q] (Some 100%Q) true 30%Q).
  - vm_compute. reflexivity.
  - split; [vm_compute; right; left|].
    split; [vm_compute; discriminate|].
    intros dn Hdn. apply list_elem_of_singleton in Hdn as ->.
    vm_compute. reflexivity.
Defined.

(** C7, as the specification words it, fails: with an expected value of 100
    the number 30 is kept as a candidate although it is below
    [max(1, 0.5 * 100) = 50]. *)
Lemma text_fallback_threshold_counterexample :
  explicit_mm_value ["7 BRACKET 30"%string] = None ∧
  30%Q ∈ snd (fst (text_line_value ["7 BRACKET 30"%string] [] (Some 100%Q) true)) ∧
  ¬ (Qmax 1 (0.5 * 100) <= 30)%Q.
Proof.
  split; [vm_compute; reflexivity|].
  split; [vm_compute; left|].
  vm_compute. intros H. by apply H.
Qed.

(** ** The matcher reads what the pattern allows *)

Lemma star_loop_reads (r : regex) step :
  (∀ prev l res, res ∈ step prev l → reads r l res) →
  ∀ fuel prev l res, res ∈ star_loop step fuel prev l → reads (Star r) l res.
Proof.
  intros Hstep. induction fuel as [|n IH]; intros prev l res; simpl.
  - intros ->%list_elem_of_singleton. by split.
  - rewrite elem_of_app, list_elem_of_singleton.
    intros [Hin| ->]; [|by split].
    apply list_elem_of_In, in_flat_map in Hin as ([m1 l1] & H1 & H2).
    apply list_elem_of_In, Hstep in H1 as [E1 F1]. simpl in *.
    destruct (nonempty m1); [|by apply list_elem_of_In, not_elem_of_nil in H2].
    apply in_map_iff in H2 as ([m2 l2] & <- & H2).
    apply list_elem_of_In, IH in H2 as [E2 F2]. simpl in *.
    split; simpl.
    + by rewrite E1, E2, app_assoc.
    + apply Forall_app. by split.
Qed.

Lemma run_reads (r : regex) prev l res : res ∈ run r prev l → reads r l res.
Proof.
  revert prev l res. induction r as [|p|r1 IH1 r2 IH2|r1 IH1 r2 IH2|r1 IH1|];
    intros prev l res; simpl.
  - intros ->%list_elem_of_singleton. by split.
  - destruct l as [|c t]; [by intros ?%not_elem_of_nil|].
    destruct (p c) eqn:E; [|by intros ?%not_elem_of_nil].
    intros ->%list_elem_of_singleton. split; [done|]. simpl. by repeat constructor.
  - intros Hin.
    apply list_elem_of_In, in_flat_map in Hin as ([m1 l1] & H1 & H2).
    apply list_elem_of_In, IH1 in H1 as [E1 F1].
    apply in_map_iff in H2 as ([m2 l2] & <- & H2).
    apply list_elem_of_In, IH2 in H2 as [E2 F2]. simpl in *.
    split; simpl.
    + by rewrite E1, E2, app_assoc.
    + apply Forall_app. split.
      * eapply Forall_impl; [exact F1|]. intros c Hc. simpl. by rewrite Hc.
      * eapply Forall_impl; [exact F2|]. intros c Hc. simpl. rewrite Hc. apply orb_true_r.
  - rewrite elem_of_app. intros [H|H].
    + apply IH1 in H as [E F]. split; [done|].
      eapply Forall_impl; [exact F|]. intros c Hc. simpl. by rewrite Hc.
    + apply IH2 in H as [E F]. split; [done|].
      eapply Forall_impl; [exact F|]. intros c Hc. simpl. rewrite Hc. apply orb_true_r.
  - intros H. apply (star_loop_reads r1 (run r1)) in H; [done|].
    intros ???. apply IH1.
  - destruct (xorb _ _); [|by intros ?%not_elem_of_nil].
    intros ->%list_elem_of_singleton. by split.
Qed.

Lemma chars_str (l : list ascii) : chars (str l) = l.
Proof. apply list_ascii_of_string_of_list_ascii. Qed.

Lemma str_chars (s : string) : str (chars s) = s.
Proof. apply string_of_list_ascii_of_string. Qed.

(** A text that a pattern matches in full consists of characters of the
    pattern. *)
Lemma re_fullmatch_chars (r : regex) (s : string) :
  re_fullmatch r s = true → Forall (fun c => chars_of r c = true) (chars s).
Proof.
  unfold re_fullmatch. rewrite existsb_exists.
  intros ([m rest] & Hin & Hrest).
  apply list_elem_of_In, run_reads in Hin as [E F]. simpl in *.
  destruct rest; [|done]. by rewrite E, app_nil_r.
Qed.

Lemma head_elem_of {A : Type} (l : list A) (x : A) : head l = Some x → x ∈ l.
Proof. destruct l; [done|]. intros [= ->]. left. Qed.

Lemma search_from_reads (r : regex) prev l before m rest :
  search_from r prev l = Some (before, m, rest) →
  l = before ++ m ++ rest ∧ Forall (fun c => chars_of r c = true) m.
Proof.
  revert prev before. induction l as [|c t IH]; intros prev before; simpl.
  - destruct (head (run r prev [])) as [[m' rest']|] eqn:E; [|done].
    intros [= <- <- <-]. by apply head_elem_of, run_reads in E as [E F].
  - destruct (head (run r prev (c :: t))) as [[m' rest']|] eqn:E.
    + intros [= <- <- <-]. by apply head_elem_of, run_reads in E as [E F].
    + destruct (search_from r (Some c) t) as [[[b' m'] rest']|] eqn:E'; [|done].
      intros [= <- <- <-]. apply IH in E' as [-> F]. done.
Qed.

(** Every match that [re.finditer] yields consists of characters of the
    pattern. *)
Lemma find_all_reads (r : regex) fuel prev l :
  Forall (fun bm => Forall (fun c => chars_of r c = true) bm.2)
         (find_all r fuel prev l).1.
Proof.
  revert prev l. induction fuel as [|n IH]; intros prev l; simpl; [constructor|].
  destruct (search_from r prev l) as [[[before m] rest]|] eqn:E; [|constructor].
  apply search_from_reads in E as [_ F].
  destruct m as [|c m].
  - destruct rest as [|c rest]; [constructor|].
    specialize (IH (Some c) rest).
    destruct (find_all r n (Some c) rest) as [ms tail]. simpl in *.
    destruct ms as [|[b m'] ms]; [constructor|].
    apply Forall_cons in IH as [H1 H2]. by constructor.
  - specialize (IH (last_char (last_char prev before) (c :: m)) rest).
    destruct (find_all r n _ rest) as [ms tail]. simpl in *.
    by constructor.
Qed.

Lemma re_findall_chars (r : regex) (s t : string) :
  t ∈ re_findall r s → Forall (fun c => chars_of r c = true) (chars t).
Proof.
  unfold re_findall. intros Hin.
  apply list_elem_of_In, in_map_iff in Hin as ([b m] & <- & Hin).
  rewrite chars_str.
  pose proof (find_all_reads r (String.length s) None (chars s)) as F.
  rewrite Forall_forall in F. by apply (F (b, m)), list_elem_of_In.
Qed.

(** ** Reading numbers *)

Lemma replace_from_Forall (P : ascii → Prop) old new skip l :
  Forall P new → Forall P l → Forall P (replace_from old new skip l).
Proof.
  intros Hnew Hl. revert skip.
  induction Hl as [|c t Hc Ht IH]; intros skip; simpl; [constructor|].
  destruct skip as [|k]; [|apply IH].
  destruct (is_prefix old (c :: t)).
  - apply Forall_app. split; [done|apply IH].
  - constructor; [done|apply IH].
Qed.

Lemma str_replace_Forall (P : ascii → Prop) old new s :
  Forall P (chars new) → Forall P (chars s) → Forall P (chars (str_replace old new s)).
Proof.
  intros. unfold str_replace. rewrite chars_str. by apply replace_from_Forall.
Qed.

Lemma keep_chars_Forall keep s :
  Forall (fun c => keep c = true) (chars (keep_chars keep s)).
Proof.
  unfold keep_chars. rewrite chars_str. apply Forall_forall.
  intros c Hc. by apply list_elem_of_In, filter_In in Hc as [_ Hc].
Qed.

Lemma unsigned_float_nonneg l q : unsigned_float l = Some q → (0 <= q)%Q.
Proof.
  unfold unsigned_float.
  set (ip := take_while is_digit l).
  destruct (match drop_while is_digit l with
            | [] => _ | c :: t => _ end) as [fp r2].
  destruct (nonempty r2); [done|].
  destruct (negb (nonempty ip) && negb (nonempty fp)); [done|].
  intros [= <-]. destruct fp as [|c fp].
  - change 0%Q with (inject_Z 0). rewrite <- Zle_Qle. lia.
  - rewrite Qred_correct. unfold decimal_val.
    apply Qle_trans with (inject_Z (Z.of_N (digits_val ip)) + 0)%Q.
    + rewrite Qplus_0_r. change 0%Q with (inject_Z 0). rewrite <- Zle_Qle. lia.
    + apply Qplus_le_r. unfold Qle. simpl. lia.
Qed.

(** [float(s)] is negative only for a text that starts with a minus sign. *)
Lemma py_float_nonneg s q :
  py_float s = Some q → head (chars s) ≠ Some "-"%char → (0 <= q)%Q.
Proof.
  unfold py_float. destruct (chars s) as [|c t]; [done|]. simpl.
  destruct (Ascii.eqb c "-") eqn:E.
  - apply Ascii.eqb_eq in E as ->. done.
  - intros H _. destruct (Ascii.eqb c "+"); by apply unsigned_float_nonneg in H.
Qed.

Lemma py_float_nonneg_chars (P : ascii → bool) s q :
  P "-"%char = false → Forall (fun c => P c = true) (chars s) →
  py_float s = Some q → (0 <= q)%Q.
Proof.
  intros HP HF Hq. apply (py_float_nonneg s q Hq).
  destruct (chars s) as [|c t]; [done|]. simpl. intros [= ->].
  apply Forall_cons in HF as [HF _]. congruence.
Qed.

Lemma clean_length_token_nonneg raw q :
  py_float (clean_length_token raw) = Some q → (0 <= q)%Q.
Proof.
  apply (py_float_nonneg_chars (fun c => is_digit c || one_of ".," c)); [done|].
  unfold clean_length_token. apply str_replace_Forall; [constructor|].
  apply keep_chars_Forall.
Qed.

Lemma number_re_nonneg (r : regex) (s t : string) q :
  chars_of r "-"%char = false →
  t ∈ re_findall r s → py_float t = Some q → (0 <= q)%Q.
Proof.
  intros Hr Ht. apply (py_float_nonneg_chars (chars_of r)); [done|].
  by apply (re_findall_chars r s).
Qed.

(** ** Table normaliser *)

Lemma parse_table_row_length_options line row :
  parse_table_row line = Some row →
  ∃ v, Row.length_options row = [v] ∧ (0 <= v)%Q.
Proof.
  unfold parse_table_row.
  set (tokens := str_split (str_strip line)).
  destruct (length tokens <? 4)%nat; [done|].
  destruct (negb (re_fullmatch number_re (nth 0 tokens ""%string))); [done|].
  destruct (if String.eqb _ "mm" then _ else _) as [[[raw desc] disp]|]; [|done].
  destruct (negb (nonempty desc)); [done|].
  destruct (negb (truthy _)); [done|].
  destruct (String.eqb (clean_length_token raw) ""); [done|].
  destruct (py_float (clean_length_token raw)) as [v|] eqn:E; [|done].
  intros [= <-]. exists v. split; [done|].
  by apply clean_length_token_nonneg in E.
Qed.

Lemma parse_measure_spec mt raw v opts disp :
  parse_measure mt raw = Some (v, opts, disp) →
  opts ≠ [] ∧
  (mt = "size"%string → Forall (fun x => (0 <= x)%Q) opts) ∧
  (mt = "length"%string → py_float (clean_length_cell raw) = Some v ∧ opts = [v]).
Proof.
  unfold parse_measure.
  destruct (String.eqb mt "length") eqn:El.
  - apply String.eqb_eq in El as ->.
    destruct (String.eqb (clean_length_cell raw) ""); [done|].
    destruct (py_float (clean_length_cell raw)) as [x|] eqn:E; [|done].
    intros [= <- <- <-]. done.
  - apply String.eqb_neq in El.
    destruct (String.eqb mt "size") eqn:Es; [|done].
    destruct (omap py_float _) as [|x xs] eqn:E; [done|].
    intros [= <- <- <-]. split; [done|]. split; [|done].
    intros _. rewrite <- E. apply Forall_forall. intros q Hq.
    apply list_elem_of_omap in Hq as (t & Ht & Hq).
    by apply (number_re_nonneg number_re _ t q) in Ht.
Qed.

Lemma grid_row_measure h tc pi tl pw cells row key snippet :
  grid_row h tc pi tl pw cells = RowOk row key snippet →
  ∃ cell v opts disp,
    cells !! measure_idx h = Some cell ∧
    parse_measure (measure_type h) (str_strip cell) = Some (v, opts, disp) ∧
    Row.length_options row = opts.
Proof.
  unfold grid_row. intros H.
  destruct (negb (nonempty cells)); [done|].
  destruct (negb (existsb _ cells)); [done|].
  destruct (cells !! pos_idx h) as [pos_cell|]; [|done].
  destruct (negb (re_fullmatch _ _)); [done|].
  destruct (cells_range _ _ _) as [desc_cells|]; [|done].
  destruct (negb (nonempty _)); [done|].
  destruct (cells !! measure_idx h) as [cell|]; [|done].
  destruct (String.eqb (str_strip cell) ""); [done|].
  destruct (parse_measure _ _) as [[[v opts] disp]|] eqn:Hm; [|done].
  destruct (parse_measure_spec _ _ _ _ _ Hm) as (Hne & _ & _).
  exists cell, v, opts, disp. split; [done|]. split; [done|].
  injection H as <- _ _. simpl. by destruct opts.
Qed.

Lemma grid_rows_from_grid_row h pi tl pw data_rows st st' :
  Forall from_grid_row (ex_rows st) →
  grid_rows h pi tl pw data_rows st = Some st' →
  Forall from_grid_row (ex_rows st').
Proof.
  revert st. induction data_rows as [|cells rest IH]; intros st Hst; simpl.
  - by intros [= <-].
  - destruct (grid_row h (ex_table_counter st) pi tl pw cells) as [| |row key snippet] eqn:E;
      [by apply IH|done|].
    destruct (existsb _ _); [by apply IH|].
    apply IH. simpl. apply Forall_app. split; [done|].
    constructor; [|constructor]. by repeat eexists.
Qed.

Lemma process_table_from_grid_row pi hs pw table st st' :
  Forall from_grid_row (ex_rows st) →
  process_table pi hs pw table st = Some st' →
  Forall from_grid_row (ex_rows st').
Proof.
  intros Hst. unfold process_table.
  destruct (negb (nonempty table)); [by intros [= <-]|].
  destruct (negb _ && negb hs); [by intros [= <-]|].
  destruct (find_header 0 _) as [h|]; [|by intros [= <-]].
  destruct (_ || _); [by intros [= <-]|].
  by apply grid_rows_from_grid_row.
Qed.

Lemma process_tables_from_grid_row pi hs pw tables st st' :
  Forall from_grid_row (ex_rows st) →
  process_tables pi hs pw tables st = Some st' →
  Forall from_grid_row (ex_rows st').
Proof.
  revert st. induction tables as [|table rest IH]; intros st Hst; simpl.
  - by intros [= <-].
  - destruct (process_table pi hs pw table st) as [st1|] eqn:E; [|done].
    apply IH. by eapply process_table_from_grid_row.
Qed.

Lemma process_pages_from_grid_row pi pages st st' :
  Forall from_grid_row (ex_rows st) →
  process_pages pi pages st = Some st' →
  Forall from_grid_row (ex_rows st').
Proof.
  revert pi st. induction pages as [|pg rest IH]; intros pi st Hst; simpl.
  - by intros [= <-].
  - destruct (process_tables _ _ _ _ st) as [st1|] eqn:E; [|done].
    apply IH. by eapply process_tables_from_grid_row.
Qed.

Lemma extract_rows_from_grid_row pages :
  Forall from_grid_row (extract_rows_with_plumber pages).1.1.
Proof.
  unfold extract_rows_with_plumber.
  destruct (process_pages 1 pages _) as [st|] eqn:E; simpl; [|constructor].
  eapply process_pages_from_grid_row; [|exact E]. constructor.
Qed.

(** What the normaliser does keep of the invariant of [length_options].
    Every row it produces has a non-empty [length_options]. In line mode it
    holds one value, which is not negative; in grid mode a SIZE column gives
    values that are not negative, and a LENGTH column gives the one value
    [float] reads off the cell once everything but digits, points and signs
    is removed, which is not negative unless that text starts with a minus
    sign. *)
Lemma length_options_kept :
  (∀ line row, parse_table_row line = Some row →
     Row.length_options row ≠ [] ∧
     Forall (fun v => (0 <= v)%Q) (Row.length_options row)) ∧
  (∀ pages row, row ∈ (extract_rows_with_plumber pages).1.1 →
     Row.length_options row ≠ []) ∧
  (∀ h tc pi tl pw cells row key snippet,
     grid_row h tc pi tl pw cells = RowOk row key snippet →
     Row.length_options row ≠ [] ∧
     (measure_type h = "size"%string →
      Forall (fun v => (0 <= v)%Q) (Row.length_options row)) ∧
     (measure_type h = "length"%string →
      ∃ cell v,
        cells !! measure_idx h = Some cell ∧
        py_float (clean_length_cell (str_strip cell)) = Some v ∧
        Row.length_options row = [v] ∧
        (head (chars (clean_length_cell (str_strip cell))) ≠ Some "-"%char → (0 <= v)%Q))).
Proof.
  assert (Hgrid : ∀ h tc pi tl pw cells row key snippet,
     grid_row h tc pi tl pw cells = RowOk row key snippet →
     Row.length_options row ≠ [] ∧
     (measure_type h = "size"%string →
      Forall (fun v => (0 <= v)%Q) (Row.length_options row)) ∧
     (measure_type h = "length"%string →
      ∃ cell v,
        cells !! measure_idx h = Some cell ∧
        py_float (clean_length_cell (str_strip cell)) = Some v ∧
        Row.length_options row = [v] ∧
        (head (chars (clean_length_cell (str_strip cell))) ≠ Some "-"%char → (0 <= v)%Q))).
  { intros h tc pi tl pw cells row key snippet Hrow.
    apply grid_row_measure in Hrow as (cell & v & opts & disp & Hcell & Hm & ->).
    destruct (parse_measure_spec _ _ _ _ _ Hm) as (Hne & Hsize & Hlen).
    split; [done|]. split; [done|].
    intros Hl. destruct (Hlen Hl) as [Hv ->].
    exists cell, v. split; [done|]. split; [done|]. split; [done|].
    by apply py_float_nonneg. }
  split; [|split; [|exact Hgrid]].
  - intros line row Hrow.
    apply parse_table_row_length_options in Hrow as (v & -> & Hv).
    split; [done|]. by repeat constructor.
  - intros pages row Hrow.
    pose proof (extract_rows_from_grid_row pages) as HF.
    rewrite Forall_forall in HF.
    destruct (HF row Hrow) as (h & tc & pi & tl & pw & cells & key & snippet & Hg).
    by apply Hgrid in Hg as [Hne _].
Qed.

Lemma length_options_kept_line :
  ∃ row, parse_table_row "3 BASE PLATE 250mm" = Some row ∧
         Row.length_options row ≠ [] ∧
         Forall (fun v => (0 <= v)%Q) (Row.length_options row).
Proof.
  destruct length_options_kept as [Hline _].
  eexists. split; [vm_compute; reflexivity|].
  apply (Hline "3 BASE PLATE 250mm"%string). vm_compute. reflexivity.
Qed.

(** ** Duplicate position ids *)

Section Groups.
Context {A : Type} (gkey : A → table_key).

Lemma group_lookup_append k k' (e : A) (groups : list (table_key * list A)) :
  group_lookup k (group_append k' e groups) =
  if decide (k = k') then group_lookup k groups ++ [e] else group_lookup k groups.
Proof.
  induction groups as [|[k0 es] rest IH]; simpl.
  - destruct (decide (k = k')); done.
  - destruct (decide (k' = k0)) as [->|Hne]; simpl.
    + destruct (decide (k = k0)); done.
    + destruct (decide (k = k0)) as [->|Hne'].
      * rewrite decide_False by done. done.
      * exact IH.
Qed.

Lemma group_append_keys k' (e : A) (groups : list (table_key * list A)) k :
  k ∈ (group_append k' e groups).*1 ↔ k = k' ∨ k ∈ groups.*1.
Proof.
  induction groups as [|[k0 es] rest IH]; simpl.
  - rewrite list_elem_of_singleton, elem_of_nil. tauto.
  - destruct (decide (k' = k0)) as [->|Hne]; simpl.
    + rewrite !elem_of_cons. intuition.
    + rewrite !elem_of_cons, IH. tauto.
Qed.

Lemma group_append_NoDup k' (e : A) (groups : list (table_key * list A)) :
  NoDup groups.*1 → NoDup (group_append k' e groups).*1.
Proof.
  induction groups as [|[k0 es] rest IH]; simpl.
  - intros _. apply NoDup_singleton.
  - rewrite NoDup_cons. intros [Hk0 Hrest].
    destruct (decide (k' = k0)) as [->|Hne]; simpl.
    + by apply NoDup_cons.
    + apply NoDup_cons. split; [|by apply IH].
      rewrite group_append_keys. intros [?|?]; [by subst|done].
Qed.

Lemma grouped_snoc es e :
  grouped gkey (es ++ [e]) = group_append (gkey e) e (grouped gkey es).
Proof. unfold grouped. by rewrite fold_left_app. Qed.

Lemma grouped_lookup es k :
  group_lookup k (grouped gkey es) = filter (fun e => gkey e = k) es.
Proof.
  induction es as [|e es IH] using rev_ind; [done|].
  rewrite grouped_snoc, group_lookup_append, filter_app, IH.
  destruct (decide (k = gkey e)) as [->|Hne].
  - by rewrite filter_cons_True.
  - rewrite filter_cons_False by done. by rewrite app_nil_r.
Qed.

Lemma grouped_keys es k : k ∈ (grouped gkey es).*1 ↔ ∃ e, e ∈ es ∧ gkey e = k.
Proof.
  induction es as [|e es IH] using rev_ind.
  - simpl. rewrite elem_of_nil. split; [done|]. by intros (e & ?%elem_of_nil & _).
  - rewrite grouped_snoc, group_append_keys, IH.
    split.
    + intros [->|(e' & He' & <-)]; [exists e|exists e']; (split; [|done]).
      * apply elem_of_app. right. left.
      * apply elem_of_app. by left.
    + intros (e' & [He'|He']%elem_of_app & <-).
      * right. by exists e'.
      * apply list_elem_of_singleton in He' as ->. by left.
Qed.

Lemma grouped_NoDup es : NoDup (grouped gkey es).*1.
Proof.
  induction es as [|e es IH] using rev_ind; [constructor|].
  rewrite grouped_snoc. by apply group_append_NoDup.
Qed.

Lemma group_lookup_elem_of k (l : list A) (groups : list (table_key * list A)) :
  NoDup groups.*1 → (k, l) ∈ groups → group_lookup k groups = l.
Proof.
  induction groups as [|[k0 es] rest IH]; simpl; [by intros _ ?%elem_of_nil|].
  rewrite NoDup_cons. intros [Hk0 Hrest] [[= -> ->]|Hin]%elem_of_cons.
  - by rewrite decide_True.
  - destruct (decide (k = k0)) as [->|Hne]; [|by apply IH].
    exfalso. apply Hk0. apply list_elem_of_fmap. by exists (k0, l).
Qed.

Lemma elem_of_group_lookup k (groups : list (table_key * list A)) :
  k ∈ groups.*1 → (k, group_lookup k groups) ∈ groups.
Proof.
  induction groups as [|[k0 es] rest IH]; simpl; [by intros ?%elem_of_nil|].
  rewrite elem_of_cons. destruct (decide (k = k0)) as [->|Hne].
  - intros _. left.
  - intros [?|Hin]; [done|]. right. by apply IH.
Qed.

(** The groups are the keys that occur, each with its entries in order. *)
Lemma elem_of_grouped es k l :
  (k, l) ∈ grouped gkey es ↔
  l = filter (fun e => gkey e = k) es ∧ ∃ e, e ∈ es ∧ gkey e = k.
Proof.
  split.
  - intros Hin. split.
    + rewrite <- grouped_lookup. symmetry.
      apply group_lookup_elem_of; [apply grouped_NoDup|done].
    + apply grouped_keys. apply list_elem_of_fmap. by exists (k, l).
  - intros [-> Hk]. rewrite <- grouped_lookup.
    apply elem_of_group_lookup. by apply grouped_keys.
Qed.
End Groups.

Lemma chars_nonempty (s : string) : nonempty (chars s) = false ↔ s = ""%string.
Proof. destruct s; simpl; split; done. Qed.

Lemma dup_in_mono es es' i :
  (∀ e, e ∈ es → e ∈ es') → dup_in es i → dup_in es' i.
Proof.
  intros Hsub (r & j & r' & H1 & H2 & H3). exists r, j, r'. split_and!; tauto || auto.
Qed.

Lemma scan_entry_inv lbl D0 done acc e :
  NoDup (done ++ [e]).*1 →
  scan_inv D0 done acc → scan_inv D0 (done ++ [e]) (scan_entry lbl acc e).
Proof.
  destruct acc as [st seen], e as [idx row].
  rewrite fmap_app, NoDup_app. simpl. intros (_ & Hfresh & _).
  assert (Hidx : ∀ r, (idx, r) ∈ done → False).
  { intros r Hr. apply (Hfresh idx); [|left].
    apply list_elem_of_fmap. by exists (idx, r). }
  intros (Hseen & Hcover & HD). simpl in *.
  assert (Hmono : ∀ i, dup_in done i → dup_in (done ++ [(idx, row)]) i).
  { intros i. apply dup_in_mono. intros e He. apply elem_of_app. by left. }
  unfold scan_entry.
  destruct (nonempty (chars (pos_key row))) eqn:Hblank; simpl.
  2:{ apply chars_nonempty in Hblank.
      split_and!; simpl.
      - intros p i Hp. destruct (Hseen p i Hp) as (r & Hr & ?).
        exists r. split; [|done]. apply elem_of_app. by left.
      - intros i r [Hr|Hr]%elem_of_app Hnb; [by eapply Hcover|].
        apply list_elem_of_singleton in Hr as [= -> ->]. done.
      - intros i. rewrite HD. split; [intros [?|?]; auto|].
        intros [?|(r & j & r' & Hr & Hr' & Hij & Hnb & Heq)]; [by left|]. right.
        apply elem_of_app in Hr as [Hr|Hr];
          [|apply list_elem_of_singleton in Hr as [= -> ->]; done].
        apply elem_of_app in Hr' as [Hr'|Hr'];
          [|apply list_elem_of_singleton in Hr' as [= -> ->]; congruence].
        by exists r, j, r'. }
  assert (Hnb : pos_key row ≠ ""%string).
  { intros Heq. apply chars_nonempty in Heq. congruence. }
  destruct (seen !! pos_key row) as [first|] eqn:Hfirst; simpl.
  - destruct (Hseen _ _ Hfirst) as (r1 & Hr1 & Hp1 & _).
    assert (Hne : idx ≠ first) by (intros ->; eauto).
    split_and!; simpl.
    + intros p i Hp. destruct (Hseen p i Hp) as (r & Hr & ?).
      exists r. split; [|done]. apply elem_of_app. by left.
    + intros i r [Hr|Hr]%elem_of_app Hnb'; [by eapply Hcover|].
      apply list_elem_of_singleton in Hr as [= -> ->]. by rewrite Hfirst.
    + intros i. rewrite !elem_of_union, !elem_of_singleton, HD. split.
      * intros [->|[->|[?|?]]]; auto; right.
        -- exists row, first, r1. split_and!; auto.
           ++ apply elem_of_app. right. left.
           ++ apply elem_of_app. by left.
        -- exists r1, idx, row. split_and!; auto.
           ++ apply elem_of_app. by left.
           ++ apply elem_of_app. right. left.
           ++ congruence.
      * intros [?|(r & j & r' & Hr & Hr' & Hij & Hnbr & Heq)]; [auto|].
        apply elem_of_app in Hr as [Hr|Hr];
          [|apply list_elem_of_singleton in Hr as [= -> ->]; by left].
        apply elem_of_app in Hr' as [Hr'|Hr'].
        { do 3 right. by exists r, j, r'. }
        apply list_elem_of_singleton in Hr' as [= -> ->].
        destruct (decide (i = first)) as [->|Hif]; [auto|].
        do 3 right. exists r, first, r1. split_and!; auto. congruence.
  - split_and!; simpl.
    + intros p i. rewrite lookup_insert. destruct (decide (pos_key row = p)) as [<-|Hp].
      * intros [= <-]. exists row. split; [|done]. apply elem_of_app. right. left.
      * intros Hpi. destruct (Hseen p i Hpi) as (r & Hr & ?).
        exists r. split; [|done]. apply elem_of_app. by left.
    + intros i r Hr Hnbr. rewrite lookup_insert.
      destruct (decide (pos_key row = pos_key r)); [done|].
      apply elem_of_app in Hr as [Hr|Hr]; [by eapply Hcover|].
      apply list_elem_of_singleton in Hr as [= -> ->]. done.
    + intros i. rewrite HD. split; [intros [?|?]; auto|].
      intros [?|(r & j & r' & Hr & Hr' & Hij & Hnbr & Heq)]; [by left|]. right.
      apply elem_of_app in Hr as [Hr|Hr]; apply elem_of_app in Hr' as [Hr'|Hr'].
      * by exists r, j, r'.
      * apply list_elem_of_singleton in Hr' as [= -> ->].
        destruct (Hcover i r Hr Hnbr) as [x Hx]. congruence.
      * apply list_elem_of_singleton in Hr as [= -> ->].
        destruct (Hcover j r' Hr') as [x Hx]; congruence.
      * apply list_elem_of_singleton in Hr as [= -> ->].
        apply list_elem_of_singleton in Hr' as [= -> ->]. done.
Qed.

Lemma scan_entries_inv lbl D0 es done acc :
  NoDup (done ++ es).*1 →
  scan_inv D0 done acc →
  scan_inv D0 (done ++ es) (fold_left (scan_entry lbl) es acc).
Proof.
  revert done acc. induction es as [|e es IH]; intros done acc Hnd Hinv; simpl.
  - by rewrite app_nil_r.
  - replace (done ++ e :: es) with ((done ++ [e]) ++ es) in *
      by (by rewrite <- app_assoc).
    apply IH; [done|]. apply scan_entry_inv; [|done].
    rewrite fmap_app in Hnd. by apply NoDup_app in Hnd as [Hnd _].
Qed.

Lemma dup_in_nil i : ¬ dup_in [] i.
Proof. by intros (r & j & r' & ?%elem_of_nil & _). Qed.

Lemma scan_group_indices st k es i :
  NoDup es.*1 →
  i ∈ duplicate_indices (scan_group st (k, es)) ↔
  i ∈ duplicate_indices st ∨ dup_in es i.
Proof.
  intros Hnd. unfold scan_group.
  set (es' := sorted_by _ es).
  assert (Hperm : es' ≡ₚ es) by apply sorted_by_perm.
  destruct (scan_entries_inv (group_label k es') (duplicate_indices st) es' [] (st, ∅))
    as (_ & _ & HD).
  - simpl. by rewrite Hperm.
  - split_and!; simpl.
    + intros p j. by rewrite lookup_empty.
    + by intros j r ?%elem_of_nil.
    + intros j. split; [auto|]. intros [?|?%dup_in_nil]; done.
  - simpl in HD. rewrite HD. split; (intros [?|Hd]; [by left|right]);
      (eapply dup_in_mono; [|exact Hd]); intros e; by rewrite Hperm.
Qed.

Lemma scan_groups_indices groups st i :
  (∀ k es, (k, es) ∈ groups → NoDup es.*1) →
  i ∈ duplicate_indices (fold_left scan_group groups st) ↔
  i ∈ duplicate_indices st ∨ ∃ k es, (k, es) ∈ groups ∧ dup_in es i.
Proof.
  revert st. induction groups as [|[k es] rest IH]; intros st Hnd; cbn [fold_left].
  - split; [auto|]. by intros [?|(k & es & ?%elem_of_nil & _)].
  - rewrite IH by (intros k' es' Hin; apply (Hnd k'); by right).
    rewrite scan_group_indices by (apply (Hnd k); left).
    split.
    + intros [[?|?]|(k' & es' & Hin & Hd)]; [by left|right..].
      * exists k, es. split; [left|done].
      * exists k', es'. split; [by right|done].
    + intros [?|(k' & es' & [[= -> ->]|Hin]%elem_of_cons & Hd)]; [by left; left|..].
      * left. by right.
      * right. by exists k', es'.
Qed.

Lemma elem_of_enumerate {A : Type} (l : list A) i x :
  (i, x) ∈ enumerate l ↔ l !! i = Some x.
Proof.
  unfold enumerate. rewrite elem_of_lookup_imap. split.
  - by intros (j & y & [= -> ->] & Hj).
  - intros Hi. by exists i, x.
Qed.

Lemma enumerate_NoDup {A : Type} (l : list A) : NoDup (enumerate l).*1.
Proof.
  unfold enumerate. rewrite fmap_imap.
  rewrite (imap_ext _ (fun j _ => j)) by done.
  rewrite imap_seq_0, list_fmap_id. apply NoDup_seq.
Qed.

Lemma filter_fst_NoDup {A : Type} (P : nat * A → Prop) `{!∀ e, Decision (P e)}
    (es : list (nat * A)) :
  NoDup es.*1 → NoDup (filter P es).*1.
Proof.
  intros Hnd. eapply sublist_NoDup; [exact Hnd|].
  apply fmap_sublist, sublist_filter.
Qed.

(** The indices that [_analyze_pos_sequence] reports: the rows with a
    non-blank position id that another row of the same table shares. *)
Lemma analyze_indices rows i :
  i ∈ pa_duplicate_indices (_analyze_pos_sequence rows).1 ↔
  ∃ r, rows !! i = Some r ∧ pos_key r ≠ ""%string ∧
       ∃ j r', j ≠ i ∧ rows !! j = Some r' ∧ same_position r r'.
Proof.
  unfold _analyze_pos_sequence. cbn [fst pa_duplicate_indices].
  rewrite scan_groups_indices.
  2:{ intros k es [-> _]%elem_of_grouped. apply filter_fst_NoDup, enumerate_NoDup. }
  cbn [duplicate_indices]. rewrite elem_of_empty.
  split.
  - intros [[]|(k & es & [-> _]%elem_of_grouped & Hd)].
    destruct Hd as (r & j & r' & Hr & Hr' & Hij & Hnb & Heq).
    apply list_elem_of_filter in Hr as [Hk Hr], Hr' as [Hk' Hr']. simpl in *.
    apply elem_of_enumerate in Hr, Hr'.
    exists r. split; [done|]. split; [done|].
    exists j, r'. split; [done|]. split; [done|]. split; congruence.
  - intros (r & Hr & Hnb & j & r' & Hij & Hr' & Hk & Hp). right.
    exists (row_table_key r), (filter (fun e => row_table_key e.2 = row_table_key r)
                                      (enumerate rows)).
    split.
    + apply elem_of_grouped. split; [done|]. exists (i, r).
      split; [by apply elem_of_enumerate|done].
    + exists r, j, r'. split_and!; try done.
      * apply list_elem_of_filter. split; [done|]. by apply elem_of_enumerate.
      * apply list_elem_of_filter. split; [done|]. by apply elem_of_enumerate.
Qed.

Lemma same_but_mark_refl r : same_but_mark r r.
Proof. done. Qed.

Lemma same_but_mark_set r r' b : same_but_mark r r' → same_but_mark r (set_pos_duplicate b r').
Proof. intros H b'. rewrite <- (H b'). done. Qed.

Lemma scan_entry_rows lbl rows acc e :
  Forall2 same_but_mark rows (scanned_rows acc.1) →
  Forall2 same_but_mark rows (scanned_rows (scan_entry lbl acc e).1).
Proof.
  destruct acc as [st seen], e as [idx row]. unfold scan_entry. simpl.
  intros HF. destruct (negb _); [done|].
  destruct (seen !! pos_key row); [|done]. simpl.
  apply Forall2_alter_r; [done|]. intros x y _ _. apply same_but_mark_set.
Qed.

Lemma scan_entries_rows lbl rows es acc :
  Forall2 same_but_mark rows (scanned_rows acc.1) →
  Forall2 same_but_mark rows (scanned_rows (fold_left (scan_entry lbl) es acc).1).
Proof.
  revert acc. induction es as [|e es IH]; intros acc HF; simpl; [done|].
  by apply IH, scan_entry_rows.
Qed.

Lemma scan_groups_rows rows groups st :
  Forall2 same_but_mark rows (scanned_rows st) →
  Forall2 same_but_mark rows (scanned_rows (fold_left scan_group groups st)).
Proof.
  revert st. induction groups as [|[k es] rest IH]; intros st HF; cbn [fold_left]; [done|].
  apply IH. unfold scan_group. by apply scan_entries_rows.
Qed.

Lemma analyze_rows rows :
  Forall2 same_but_mark rows (_analyze_pos_sequence rows).2.
Proof.
  unfold _analyze_pos_sequence. cbn [snd].
  apply scan_groups_rows. cbn [scanned_rows].
  apply Forall2_same_length_lookup. split; [done|].
  intros i x y Hx Hy. assert (x = y) as -> by congruence. apply same_but_mark_refl.
Qed.

Lemma mark_duplicates_lookup rows i r :
  rows !! i = Some r →
  mark_duplicates rows !! i =
  Some (set_pos_duplicate
          (bool_decide (i ∈ pa_duplicate_indices (_analyze_pos_sequence rows).1)) r).
Proof.
  intros Hr. unfold mark_duplicates.
  pose proof (analyze_rows rows) as HF.
  destruct (_analyze_pos_sequence rows) as [analysis rows'] eqn:E. simpl in *.
  rewrite list_lookup_imap.
  destruct (Forall2_lookup_l _ _ _ _ _ HF Hr) as (r' & -> & Hsame). simpl.
  by rewrite Hsame.
Qed.

Lemma same_position_refl r : same_position r r.
Proof. by split. Qed.

(** Another row in the same position, or two rows counting the row itself. *)
Lemma other_row_count rows i r :
  rows !! i = Some r →
  (∃ j r', j ≠ i ∧ rows !! j = Some r' ∧ same_position r r') ↔
  2 ≤ length (filter (same_position r) rows).
Proof.
  intros Hr.
  assert (length (filter (same_position r) rows) =
          length (filter (same_position r) (take i rows))
          + S (length (filter (same_position r) (drop (S i) rows)))) as ->.
  { rewrite <- (take_drop_middle rows i r Hr) at 1.
    rewrite filter_app, filter_cons_True by apply same_position_refl.
    by rewrite length_app. }
  split.
  - intros (j & r' & Hij & Hr' & Hsame).
    destruct (decide (j < i)) as [Hlt|Hge].
    + assert (r' ∈ filter (same_position r) (take i rows)) as Hin.
      { apply list_elem_of_filter. split; [done|]. apply elem_of_take. by exists j. }
      destruct (filter (same_position r) (take i rows)); [by apply elem_of_nil in Hin|].
      simpl. lia.
    + assert (r' ∈ filter (same_position r) (drop (S i) rows)) as Hin.
      { apply list_elem_of_filter. split; [done|].
        apply list_elem_of_lookup. exists (j - S i). rewrite lookup_drop.
        by replace (S i + (j - S i)) with j by lia. }
      destruct (filter (same_position r) (drop (S i) rows)); [by apply elem_of_nil in Hin|].
      simpl. lia.
  - intros Hlen.
    destruct (filter (same_position r) (take i rows)) as [|r' l1] eqn:E1.
    + destruct (filter (same_position r) (drop (S i) rows)) as [|r' l2] eqn:E2;
        [simpl in Hlen; lia|].
      assert (r' ∈ filter (same_position r) (drop (S i) rows)) as Hin
        by (rewrite E2; left).
      apply list_elem_of_filter in Hin as [Hsame Hin].
      apply list_elem_of_lookup in Hin as [j Hj]. rewrite lookup_drop in Hj.
      exists (S i + j), r'. split; [lia|]. done.
    + assert (r' ∈ filter (same_position r) (take i rows)) as Hin
        by (rewrite E1; left).
      apply list_elem_of_filter in Hin as [Hsame Hin].
      apply elem_of_take in Hin as (j & Hj & Hlt).
      exists j, r'. split; [lia|]. done.
Qed.

Lemma mark_duplicates_map rows :
  mark_duplicates rows = map (fun r => set_pos_duplicate (duplicated rows r) r) rows.
Proof.
  apply list_eq. intros i. rewrite list_lookup_fmap.
  destruct (rows !! i) as [r|] eqn:Hr; simpl.
  - rewrite (mark_duplicates_lookup rows i r Hr). do 2 f_equal.
    unfold duplicated. apply bool_decide_ext.
    rewrite analyze_indices, <- (other_row_count rows i r Hr).
    split.
    + intros (r0 & Hr0 & Hnb & H). by assert (r0 = r) as -> by congruence.
    + intros [Hnb H]. by exists r.
  - unfold mark_duplicates.
    pose proof (Forall2_length _ _ _ (analyze_rows rows)) as Hlen.
    destruct (_analyze_pos_sequence rows) as [analysis rows']. simpl in *.
    apply lookup_ge_None. rewrite length_imap, <- Hlen. by apply lookup_ge_None.
Qed.

Lemma duplicated_perm rows rows' r :
  rows ≡ₚ rows' → duplicated rows r = duplicated rows' r.
Proof. intros Hp. unfold duplicated. apply bool_decide_ext. by rewrite Hp. Qed.

(** C5. After the duplicate analysis a row is marked exactly when its
    position id, blanks stripped, is not empty and another row of the same
    table group carries the same id: every row of such a set is marked, the
    first one too, and a row whose id is unique in its group is not. The
    marks do not depend on the order of the rows: permuting the rows permutes
    the marked rows. *)
Theorem duplicate_positions_marked (rows rows' : list Row.t) :
  (∀ i r, rows !! i = Some r →
     ∃ b, mark_duplicates rows !! i = Some (set_pos_duplicate b r) ∧
          (b = true ↔
           pos_key r ≠ ""%string ∧
           ∃ j r', j ≠ i ∧ rows !! j = Some r' ∧ same_position r r')) ∧
  (rows ≡ₚ rows' → mark_duplicates rows ≡ₚ mark_duplicates rows').
Proof.
  split.
  - intros i r Hr. eexists. split; [by apply mark_duplicates_lookup|].
    rewrite bool_decide_eq_true, analyze_indices. split.
    + intros (r0 & Hr0 & Hnb & H). by assert (r0 = r) as -> by congruence.
    + intros [Hnb H]. by exists r.
  - intros Hp. rewrite !mark_duplicates_map.
    rewrite (list_fmap_ext _ (fun r => set_pos_duplicate (duplicated rows' r) r) rows).
    + by apply fmap_Permutation.
    + intros i r _. f_equal. by apply duplicated_perm.
Qed.

Lemma duplicate_positions_marked_witness :
  ∃ b, mark_duplicates [plate_row "5" 1; plate_row "6" 1; plate_row "5" 1] !! 0%nat
       = Some (set_pos_duplicate b (plate_row "5" 1)) ∧ b = true.
Proof.
  destruct (duplicate_positions_marked
              [plate_row "5" 1; plate_row "6" 1; plate_row "5" 1]
              [plate_row "5" 1; plate_row "6" 1; plate_row "5" 1]) as [H _].
  destruct (H 0%nat (plate_row "5" 1) eq_refl) as (b & Hb & Hiff).
  exists b. split; [exact Hb|]. apply Hiff.
  split; [vm_compute; discriminate|].
  exists 2%nat, (plate_row "5" 1). split; [lia|]. split; [reflexivity|]. by split.
Defined.

(** C9 fails on the code. A table with a LENGTH column whose cell reads
    "-250" gives a row whose [length_options] holds the negative value -250:
    the grid mode keeps the sign of a LENGTH cell, where the line mode, the
    SIZE column and the thickness column give values that are not negative. *)
Theorem signed_length_cell_negative :
  map Row.length_options (extract_rows_with_plumber [signed_length_page]).1.1
    = [[(-250)%Q]] ∧
  ¬ Forall (fun row => Forall (fun v => (0 <= v)%Q) (Row.length_options row))
           (extract_rows_with_plumber [signed_length_page]).1.1.
Proof.
  split; [vm_compute; reflexivity|].
  intros H. vm_compute in H.
  apply Forall_cons in H as [H _]. apply Forall_cons in H as [H _].
  by apply H.
Qed.

(** ** Table normaliser, line mode *)

Lemma nonempty_length {A : Type} (l : list A) : nonempty l = true ↔ 0 < length l.
Proof. destruct l; simpl; split; (done || lia). Qed.

Lemma split_at_pieces {A : Type} (sep : A → bool) cur l :
  Forall (fun c => sep c = false) cur →
  Forall (Forall (fun c => sep c = false)) (split_at sep cur l).
Proof.
  revert cur. induction l as [|c t IH]; intros cur Hcur; simpl.
  - constructor; [|constructor]. by apply Forall_rev.
  - destruct (sep c) eqn:E.
    + constructor; [by apply Forall_rev|]. apply IH. constructor.
    + apply IH. by constructor.
Qed.

(** The tokens of [str.split] are not empty and hold no blank. *)
Lemma str_split_tokens s t :
  t ∈ str_split s →
  ∃ c rest, chars t = c :: rest ∧ Forall (fun c => is_space c = false) (c :: rest).
Proof.
  unfold str_split. intros Hin.
  apply list_elem_of_fmap in Hin as (piece & -> & Hin).
  apply list_elem_of_In, filter_In in Hin as [Hin Hne].
  pose proof (split_at_pieces is_space [] (chars s) (Forall_nil_2 _)) as HF.
  rewrite Forall_forall in HF. apply list_elem_of_In, HF in Hin.
  rewrite chars_str. destruct piece as [|c rest]; [done|]. by exists c, rest.
Qed.

Lemma drop_while_nil {A : Type} (p : A → bool) l :
  drop_while p l = [] → Forall (fun c => p c = true) l.
Proof.
  induction l as [|c t IH]; simpl; [constructor|].
  destruct (p c) eqn:E; [|done]. intros H. constructor; auto.
Qed.

Lemma drop_while_Forall {A : Type} (p : A → bool) l :
  Forall (fun c => p c = true) (drop_while p l) → Forall (fun c => p c = true) l.
Proof.
  induction l as [|c t IH]; simpl; [constructor|].
  destruct (p c) eqn:E.
  - intros H. constructor; auto.
  - intros H. apply Forall_cons in H as [H _]. congruence.
Qed.

Lemma strip_with_nil p l : strip_with p l = [] → Forall (fun c => p c = true) l.
Proof.
  unfold strip_with. intros H.
  apply (f_equal (@rev ascii)) in H. rewrite rev_involutive in H. simpl in H.
  apply drop_while_nil in H. apply Forall_rev in H. rewrite rev_involutive in H.
  by apply drop_while_Forall.
Qed.

Lemma chars_append (s1 s2 : string) : chars (s1 +:+ s2) = chars s1 ++ chars s2.
Proof. induction s1 as [|c s1 IH]; simpl; [done|]. unfold chars in *. simpl. by rewrite IH. Qed.

Lemma chars_join_head sep t ts :
  ∃ rest, chars (join sep (t :: ts)) = chars t ++ rest.
Proof.
  unfold join. destruct ts as [|t' ts]; simpl.
  - exists []. by rewrite app_nil_r.
  - exists (chars (sep +:+ String.concat sep (t' :: ts))). apply chars_append.
Qed.

(** The description of a line is not empty when it has a token. *)
Lemma description_truthy (tokens : list string) t ts :
  (∀ x, x ∈ t :: ts → x ∈ tokens) →
  (∀ x, x ∈ tokens → ∃ c rest, chars x = c :: rest ∧
                               Forall (fun c => is_space c = false) (c :: rest)) →
  truthy (Some (str_strip (join " " (t :: ts)))) = true.
Proof.
  intros Hsub Htok. unfold truthy.
  destruct (str_strip (join " " (t :: ts))) as [|c s] eqn:E; [|done]. exfalso.
  unfold str_strip in E. apply (f_equal chars) in E. rewrite chars_str in E.
  change (chars "") with (@nil ascii) in E.
  apply strip_with_nil in E.
  destruct (chars_join_head " " t ts) as [rest Hj]. rewrite Hj in E.
  destruct (Htok t) as (c & r & Hc & Hsp); [apply Hsub; left|].
  rewrite Hc in E. simpl in E. apply Forall_cons in E as [E _].
  apply Forall_cons in Hsp as [Hsp _]. congruence.
Qed.

Lemma slice_elem_of {A : Type} i j (l : list A) x : x ∈ slice i j l → x ∈ l.
Proof.
  unfold slice. intros H%elem_of_take. destruct H as (k & Hk & _).
  rewrite lookup_drop in Hk. by eapply list_elem_of_lookup_2.
Qed.

Lemma slice_nonempty {A : Type} i j (l : list A) :
  i < j → i < length l → nonempty (slice i j l) = true.
Proof.
  intros Hij Hil. apply nonempty_length. unfold slice.
  rewrite length_take, length_drop. lia.
Qed.

Lemma eqb_mm_endswith s : String.eqb s "mm" = true → str_endswith s "mm" = true.
Proof. intros ->%String.eqb_eq. reflexivity. Qed.

Lemma py_float_empty : py_float "" = None.
Proof. reflexivity. Qed.

Lemma number_char_not_m (c : ascii) :
  chars_of number_re c = true → Ascii.eqb "m" (to_lower c) = false.
Proof.
  destruct c as [b0 b1 b2 b3 b4 b5 b6 b7].
  destruct b0, b1, b2, b3, b4, b5, b6, b7; vm_compute; (reflexivity || discriminate).
Qed.

(** A bare number does not end in "mm". *)
Lemma bare_number_not_mm (s : string) :
  re_fullmatch number_re s = true → str_endswith (str_lower s) "mm" = false.
Proof.
  intros Hm%re_fullmatch_chars.
  unfold str_endswith, str_lower. rewrite chars_str, <- map_rev.
  apply Forall_rev in Hm.
  destruct (rev (chars s)) as [|c l]; [done|].
  apply Forall_cons in Hm as [Hc _].
  change (rev (chars "mm")) with ["m"; "m"]%char.
  cbn [map is_prefix].
  by rewrite (number_char_not_m c Hc).
Qed.

(** C6, as the code has it. A line is a row in line mode exactly when it
    splits into at least four blank-separated tokens, the first token is a
    bare POS number, the last token ends in "mm" in any letter case, and the
    length token (the token before a last token "mm", else the last token
    without its suffix), with everything but digits and points removed, is a
    number. A line whose last token is a bare number is not a row. *)
Theorem line_row_accepted (line : string) :
  let tokens := str_split (str_strip line) in
  let last := nth (length tokens - 1) tokens ""%string in
  (is_Some (parse_table_row line) ↔
     4 ≤ length tokens ∧
     re_fullmatch number_re (nth 0 tokens ""%string) = true ∧
     str_endswith (str_lower last) "mm" = true ∧
     is_Some (py_float (clean_length_token (length_token_of tokens)))) ∧
  (re_fullmatch number_re last = true → parse_table_row line = None).
Proof.
  intros tokens last.
  cut ((is_Some (parse_table_row line) ↔
          4 ≤ length tokens ∧
          re_fullmatch number_re (nth 0 tokens ""%string) = true ∧
          str_endswith (str_lower last) "mm" = true ∧
          is_Some (py_float (clean_length_token (length_token_of tokens)))) ∧
       (str_endswith (str_lower last) "mm" = false → parse_table_row line = None)).
  { intros [H1 H2]. split; [exact H1|]. intros Hb. by apply H2, bare_number_not_mm. }
  assert (Htok : ∀ x, x ∈ tokens → ∃ c rest, chars x = c :: rest ∧
                        Forall (fun c => is_space c = false) (c :: rest))
    by (intros x; apply str_split_tokens).
  unfold parse_table_row. fold tokens. unfold length_token_of. fold last.
  destruct (length tokens <? 4)%nat eqn:En.
  { apply Nat.ltb_lt in En. split; [|done].
    split; [by intros [? [=]]|]. intros [? _]. lia. }
  apply Nat.ltb_ge in En.
  destruct (re_fullmatch number_re (nth 0 tokens ""%string)) eqn:Epos; cbn [negb].
  2:{ split; [|done]. split; [by intros [? [=]]|]. by intros (_ & [=] & _). }
  assert (Hdesc : ∀ j, length tokens - 2 ≤ j →
            ∃ t ts, slice 1 j tokens = t :: ts).
  { intros j Hj. pose proof (slice_nonempty 1 j tokens) as H.
    destruct (slice 1 j tokens) as [|t ts]; [|by eauto].
    discriminate H; lia. }
  destruct (String.eqb (str_lower last) "mm") eqn:Emm.
  - rewrite (eqb_mm_endswith _ Emm).
    destruct (Hdesc (length tokens - 2)) as (t & ts & Hs); [lia|]. rewrite Hs.
    cbn [nonempty negb].
    rewrite (description_truthy tokens t ts); [|rewrite <- Hs; apply slice_elem_of|done].
    cbn [negb].
    set (cleaned := clean_length_token _).
    split; [|done].
    destruct (String.eqb cleaned "") eqn:Ec.
    + apply String.eqb_eq in Ec. rewrite Ec, py_float_empty.
      split; [by intros [? [=]]|]. by intros (_ & _ & _ & [? [=]]).
    + destruct (py_float cleaned) as [v|].
      * split; [intros _|by eauto]. split_and!; (done || eauto).
      * split; [by intros [? [=]]|]. by intros (_ & _ & _ & [? [=]]).
  - destruct (str_endswith (str_lower last) "mm") eqn:Eend.
    + destruct (Hdesc (length tokens - 1)) as (t & ts & Hs); [lia|]. rewrite Hs.
      cbn [nonempty negb].
      rewrite (description_truthy tokens t ts); [|rewrite <- Hs; apply slice_elem_of|done].
      cbn [negb].
      set (cleaned := clean_length_token _).
      split; [|done].
      destruct (String.eqb cleaned "") eqn:Ec.
      * apply String.eqb_eq in Ec. rewrite Ec, py_float_empty.
        split; [by intros [? [=]]|]. by intros (_ & _ & _ & [? [=]]).
      * destruct (py_float cleaned) as [v|].
        -- split; [intros _|by eauto]. split_and!; (done || eauto).
        -- split; [by intros [? [=]]|]. by intros (_ & _ & _ & [? [=]]).
    + split; [|done]. split; [by intros [? [=]]|]. by intros (_ & _ & [=] & _).
Qed.

(** C6, as the specification words it, fails: the line "3 BASE PLATE X 250"
    has five tokens, a bare POS number first and a bare number last, and the
    code does not take it as a row. *)
Lemma bare_number_line_counterexample :
  line_qualifies_spec "3 BASE PLATE X 250" = true ∧
  parse_table_row "3 BASE PLATE X 250" = None.
Proof. split; vm_compute; reflexivity. Qed.

Lemma line_row_accepted_witness :
  is_Some (parse_table_row "3 BASE PLATE 250mm") ∧
  parse_table_row "3 BASE PLATE X 250" = None.
Proof.
  split.
  - apply (line_row_accepted "3 BASE PLATE 250mm").
    split; [vm_compute; lia|]. split; [vm_compute; reflexivity|].
    split; [vm_compute; reflexivity|]. vm_compute. eauto.
  - apply (line_row_accepted "3 BASE PLATE X 250"). vm_compute. reflexivity.
Defined.

(** ** Geometric search above a callout *)

Lemma line_group_add_keys key w groups k :
  k ∈ (line_group_add key w groups).*1 ↔ k = key ∨ k ∈ groups.*1.
Proof.
  induction groups as [|[k0 g] rest IH]; simpl.
  - rewrite list_elem_of_singleton, elem_of_nil. tauto.
  - destruct (Z.eqb k0 key) eqn:E; simpl.
    + apply Z.eqb_eq in E as ->. rewrite !elem_of_cons. tauto.
    + rewrite !elem_of_cons, IH. tauto.
Qed.

Lemma line_group_add_NoDup key w groups :
  NoDup groups.*1 → NoDup (line_group_add key w groups).*1.
Proof.
  induction groups as [|[k0 g] rest IH]; simpl.
  - intros _. apply NoDup_singleton.
  - rewrite NoDup_cons. intros [Hk0 Hrest].
    destruct (Z.eqb k0 key) eqn:E; simpl.
    + by apply NoDup_cons.
    + apply Z.eqb_neq in E. apply NoDup_cons. split; [|by apply IH].
      rewrite line_group_add_keys. intros [?|?]; [by subst|done].
Qed.

Lemma line_group_add_ok bbox_top words w groups :
  w ∈ words → (Word.bottom w < bbox_top - 1)%Q →
  Forall (line_ok bbox_top words) groups →
  Forall (line_ok bbox_top words) (line_group_add (word_line_key w) w groups).
Proof.
  intros Hw Hb. induction 1 as [|[k0 g] rest [Hne Hg] Hrest IH]; simpl.
  - constructor; [|constructor]. split; simpl; [done|]. by repeat constructor.
  - destruct (Z.eqb k0 (word_line_key w)) eqn:E.
    + apply Z.eqb_eq in E. constructor; [|done]. split; simpl in *.
      * by destruct (lg_words g).
      * apply Forall_app. split; [done|]. by repeat constructor.
    + constructor; [by split|done].
Qed.

Lemma group_lines_ok bbox_top words :
  NoDup (group_lines bbox_top words).*1 ∧
  Forall (line_ok bbox_top words) (group_lines bbox_top words).
Proof.
  unfold group_lines.
  cut (∀ ws groups,
         (∀ w, w ∈ ws → w ∈ words) →
         NoDup groups.*1 ∧ Forall (line_ok bbox_top words) groups →
         let res := fold_left (fun line_groups w =>
                       if Qle_bool (bbox_top - 1) (Word.bottom w) then line_groups
                       else line_group_add (py_round (Word.top w / line_tol)) w line_groups)
                     ws groups in
         NoDup res.*1 ∧ Forall (line_ok bbox_top words) res).
  { intros H. apply H; [done|]. split; constructor. }
  induction ws as [|w ws IH]; intros groups Hsub [Hnd Hok]; simpl; [done|].
  apply IH; [intros w' Hw'; apply Hsub; by right|].
  destruct (Qle_bool (bbox_top - 1) (Word.bottom w)) eqn:E; [done|].
  split; [by apply line_group_add_NoDup|].
  apply line_group_add_ok; [apply Hsub; left| |done].
  apply Qnot_le_lt. intros Hle. apply Qle_bool_iff in Hle. congruence.
Qed.

(** The words of different lines are different words. *)
Lemma lines_disjoint bbox_top words (l1 l2 : list line_group) g g' w :
  l1 ++ l2 ≡ₚ (group_lines bbox_top words).*2 →
  g ∈ l1 → g' ∈ l2 → w ∈ lg_words g → w ∈ lg_words g' → False.
Proof.
  intros Hperm Hg Hg' Hw Hw'.
  destruct (group_lines_ok bbox_top words) as [Hnd Hok].
  assert (Hkeys : ∀ g0, g0 ∈ (group_lines bbox_top words).*2 →
            ∀ w0, w0 ∈ lg_words g0 → line_key g0 = Some (word_line_key w0)).
  { intros g0 Hg0 w0 Hw0. apply list_elem_of_fmap in Hg0 as ([k g1] & -> & Hin).
    rewrite Forall_forall in Hok. destruct (Hok _ Hin) as [Hne HF]. simpl in *.
    rewrite Forall_forall in HF. unfold line_key.
    destruct (lg_words g1) as [|w1 ws] eqn:E; [done|]. simpl.
    destruct (HF w1) as [-> _]; [left|]. destruct (HF w0 Hw0) as [-> _]. done. }
  assert (Hnd' : NoDup (line_key <$> (group_lines bbox_top words).*2)).
  { rewrite <- list_fmap_compose.
    rewrite (list_fmap_ext _ (fun kg => Some kg.1) (group_lines bbox_top words)).
    - assert ((fun kg : Z * line_group => Some kg.1) <$> group_lines bbox_top words
              = Some <$> (group_lines bbox_top words).*1) as ->
        by (by rewrite <- list_fmap_compose).
      apply (NoDup_fmap_2 _). exact Hnd.
    - intros i [k g0] Hi. simpl.
      rewrite Forall_forall in Hok.
      destruct (Hok (k, g0)) as [Hne HF]; [by eapply list_elem_of_lookup_2|]. simpl in *.
      unfold line_key. destruct (lg_words g0) as [|w1 ws]; [done|]. simpl.
      apply Forall_cons in HF as [[-> _] _]. done. }
  rewrite <- Hperm, fmap_app in Hnd'. apply NoDup_app in Hnd' as (_ & Hdisj & _).
  assert (Hin : g ∈ (group_lines bbox_top words).*2)
    by (rewrite <- Hperm; apply elem_of_app; by left).
  assert (Hin' : g' ∈ (group_lines bbox_top words).*2)
    by (rewrite <- Hperm; apply elem_of_app; by right).
  apply (Hdisj (line_key g)).
  - by apply list_elem_of_fmap_2.
  - rewrite (Hkeys g Hin w Hw), <- (Hkeys g' Hin' w Hw').
    by apply list_elem_of_fmap_2.
Qed.

Lemma scan_lines_barrier pos_token bx0 bx1 pre b post acc :
  Forall (fun g => is_barrier pos_token g = false) pre →
  is_barrier pos_token b = true →
  scan_lines pos_token bx0 bx1 (pre ++ b :: post) acc =
  (Some (lg_bottom b),
   acc ++ flat_map (fun g => List.filter
                     (fun w => Qle_bool bx0 (word_center w) && Qle_bool (word_center w) bx1)
                     (line_words g)) pre).
Proof.
  intros Hpre Hb. revert acc.
  induction Hpre as [|g pre Hg Hpre IH]; intros acc; simpl.
  - by rewrite Hb, app_nil_r.
  - by rewrite Hg, IH, app_assoc.
Qed.

Lemma StronglySorted_middle {A : Type} (R : A → A → Prop) l1 x l2 :
  StronglySorted R (l1 ++ x :: l2) → Forall (fun y => R y x) l1 ∧ Forall (R x) l2.
Proof.
  induction l1 as [|y l1 IH]; simpl; intros Hs.
  - apply StronglySorted_inv in Hs as [_ H]. by split.
  - apply StronglySorted_inv in Hs as [Hs H].
    destruct (IH Hs) as [H1 H2]. split; [|done].
    constructor; [|done]. rewrite Forall_forall in H. apply H.
    apply elem_of_app. right. left.
Qed.

(** Every candidate entry is read off a word of the window. *)
Lemma add_word_values_from (P : candidate_entry → Prop) desc center acc w :
  (∀ v offset, v ∈ _numeric_from_text (Word.text w) →
               P {| ce_value := v; ce_center_offset := offset; ce_bbox := word_bbox w |}) →
  Forall P acc.1 → Forall P (add_word_values desc center acc w).1.
Proof.
  unfold add_word_values. intros HP.
  generalize (_numeric_from_text (Word.text w)) HP. clear HP.
  intros vs. revert acc. induction vs as [|v vs IH]; intros [entries seen] HP Hacc; simpl; [done|].
  apply IH; [intros v' o Hv'; apply HP; by right|].
  destruct (existsb _ desc); [done|]. destruct (existsb _ seen); [done|].
  simpl. apply Forall_app. split; [done|]. constructor; [|constructor].
  apply HP. left.
Qed.

Lemma window_entries_from (P : candidate_entry → Prop) desc center ws acc :
  (∀ w v offset, w ∈ ws → v ∈ _numeric_from_text (Word.text w) →
                 P {| ce_value := v; ce_center_offset := offset; ce_bbox := word_bbox w |}) →
  Forall P acc.1 → Forall P (fold_left (add_word_values desc center) ws acc).1.
Proof.
  revert acc. induction ws as [|w ws IH]; intros acc HP Hacc; simpl; [done|].
  apply IH; [intros w' v o Hw'; apply HP; by right|].
  apply add_word_values_from; [|done]. intros v o. apply HP. left.
Qed.

Lemma order_entries_from entries :
  (∀ v, v ∈ (order_entries entries).1 → ∃ e, e ∈ entries ∧ ce_value e = v) ∧
  (∀ v box, (v, box) ∈ (order_entries entries).2 →
            ∃ e, e ∈ entries ∧ ce_value e = v ∧ ce_bbox e = box).
Proof.
  unfold order_entries.
  cut (∀ es acc,
         ((∀ v, v ∈ acc.1 → ∃ e, e ∈ entries ∧ ce_value e = v) ∧
          (∀ v box, (v, box) ∈ acc.2 →
                    ∃ e, e ∈ entries ∧ ce_value e = v ∧ ce_bbox e = box)) →
         (∀ e, e ∈ es → e ∈ entries) →
         let res := fold_left
           (fun '(ordered_values, value_bboxes) entry =>
              let v := ce_value entry in
              (match last ordered_values with
               | Some l => if Qltb 1e-6 (Qabs (v - l)) then ordered_values ++ [v]
                           else ordered_values
               | None => ordered_values ++ [v]
               end,
               if existsb (fun kv => Qeq_bool kv.1 v) value_bboxes
               then value_bboxes else value_bboxes ++ [(v, ce_bbox entry)])) es acc in
         (∀ v, v ∈ res.1 → ∃ e, e ∈ entries ∧ ce_value e = v) ∧
         (∀ v box, (v, box) ∈ res.2 →
                   ∃ e, e ∈ entries ∧ ce_value e = v ∧ ce_bbox e = box)).
  { intros H. apply (H entries ([], [])); [|done].
    split; [by intros v ?%elem_of_nil|by intros v box ?%elem_of_nil]. }
  induction es as [|e es IH]; intros [vals boxes] [Hv Hb] Hsub; simpl; [by split|].
  apply IH; [|intros e' He'; apply Hsub; by right].
  assert (He : e ∈ entries) by (apply Hsub; left).
  split; simpl.
  - assert (Hsnoc : ∀ v, v ∈ vals ++ [ce_value e] → ∃ e0, e0 ∈ entries ∧ ce_value e0 = v).
    { intros v [Hin|Hin]%elem_of_app; [by apply Hv|].
      apply list_elem_of_singleton in Hin as ->. by exists e. }
    destruct (last vals) as [l|]; [|done].
    destruct (Qltb _ _); [done|apply Hv].
  - destruct (existsb _ boxes); [apply Hb|].
    intros v box [Hin|Hin]%elem_of_app; [by apply Hb|].
    apply list_elem_of_singleton in Hin as [= -> ->]. by exists e.
Qed.

(** X30. The window of the search above a callout. The lines are the
    groups of words whose [top], halved, rounds to the same number, taken
    from the nearest to the callout upwards. When the scan stops at a line
    [b] (a line with another numbered callout, or with a parenthesised tag
    that starts with the first token of the callout), the lines scanned
    before it lie at or below it and the lines behind it at or above it, and
    every candidate the search returns, with the box recorded for it, was
    read off a word of a line scanned before [b]: a word of no line behind
    [b], which ends above the callout and not above [b]. *)
Theorem barrier_bounds_candidates words bbox desc_numbers callout_tokens pre b post
    values boxes :
  sorted_key_reverse lg_bottom (map snd (group_lines (BBox.top bbox) words))
    = pre ++ b :: post →
  Forall (fun g => is_barrier (head callout_tokens) g = false) pre →
  is_barrier (head callout_tokens) b = true →
  _find_length_above_bbox words (Some bbox) desc_numbers callout_tokens = (values, boxes) →
  Forall (fun g => (lg_bottom b <= lg_bottom g)%Q) pre ∧
  Forall (fun g => (lg_bottom g <= lg_bottom b)%Q) post ∧
  (∀ v, v ∈ values →
     ∃ w box, below_barrier words bbox pre b (b :: post) w ∧ read_off w v box) ∧
  (∀ v box, (v, box) ∈ boxes →
     ∃ w, below_barrier words bbox pre b (b :: post) w ∧ read_off w v box).
Proof.
  intros Hlines Hpre Hb Hres.
  pose proof (sorted_key_reverse_sorted lg_bottom
                (map snd (group_lines (BBox.top bbox) words))) as Hsorted.
  rewrite Hlines in Hsorted.
  apply StronglySorted_middle in Hsorted as [Hs1 Hs2].
  split; [exact Hs1|]. split; [exact Hs2|].
  assert (Hperm : pre ++ b :: post ≡ₚ (group_lines (BBox.top bbox) words).*2).
  { rewrite <- Hlines. apply sorted_by_perm. }
  destruct (group_lines_ok (BBox.top bbox) words) as [_ Hok].
  (* the words the scan keeps *)
  assert (Hwin : ∀ w, w ∈ window_words words bbox callout_tokens →
                      below_barrier words bbox pre b (b :: post) w).
  { intros w. unfold window_words. rewrite Hlines.
    rewrite (scan_lines_barrier _ _ _ pre b post [] Hpre Hb). simpl.
    rewrite list_elem_of_In, filter_In, in_flat_map.
    intros [(g & Hg & Hw) Hbot].
    apply filter_In in Hw as [Hw _].
    apply list_elem_of_In in Hg, Hw. apply elem_of_sorted_key in Hw.
    assert (Hgl : g ∈ (group_lines (BBox.top bbox) words).*2).
    { rewrite <- Hperm. apply elem_of_app. by left. }
    apply list_elem_of_fmap in Hgl as ([k g0] & -> & Hin).
    rewrite Forall_forall in Hok. destruct (Hok _ Hin) as [_ HF].
    rewrite Forall_forall in HF. destruct (HF w Hw) as (_ & Hww & Hlow).
    split; [done|]. split; [by exists g0|]. split; [|split; [by apply Qle_bool_iff|done]].
    intros g' Hg' Hw'.
    by apply (lines_disjoint (BBox.top bbox) words pre (b :: post) g0 g' w). }
  (* the entries read off them *)
  assert (Hent : Forall (fun e => ∃ w, below_barrier words bbox pre b (b :: post) w ∧
                                      read_off w (ce_value e) (ce_bbox e))
                        (window_entries words bbox desc_numbers callout_tokens)).
  { unfold window_entries. apply window_entries_from; [|constructor].
    intros w v o Hw Hv. exists w. split; [by apply Hwin|]. by split. }
  unfold _find_length_above_bbox in Hres.
  destruct words as [|w0 ws]; [|].
  { simplify_eq. split; [by intros v ?%elem_of_nil|by intros v box ?%elem_of_nil]. }
  destruct (negb (nonempty (group_lines _ _))).
  { simplify_eq. split; [by intros v ?%elem_of_nil|by intros v box ?%elem_of_nil]. }
  destruct (negb (nonempty (window_entries _ _ _ _))).
  { simplify_eq. split; [by intros v ?%elem_of_nil|by intros v box ?%elem_of_nil]. }
  destruct (order_entries_from
              (pair_key_sorted (fun c => (- ce_value c, ce_center_offset c)%Q)
                 (window_entries (w0 :: ws) bbox desc_numbers callout_tokens)))
    as [Hv Hbx].
  rewrite Hres in Hv, Hbx. simpl in Hv, Hbx.
  rewrite Forall_forall in Hent.
  split.
  - intros v Hin. destruct (Hv v Hin) as (e & He & <-).
    apply elem_of_sorted_by in He. destruct (Hent e He) as (w & Hw & Hr).
    by exists w, (ce_bbox e).
  - intros v box Hin. destruct (Hbx v box Hin) as (e & He & <- & <-).
    apply elem_of_sorted_by in He. destruct (Hent e He) as (w & Hw & Hr).
    by exists w.
Qed.

Lemma barrier_bounds_candidates_witness :
  ∃ w box, below_barrier tank_words tank_callout [line_250] line_tank
             [line_tank; line_999] w ∧
           read_off w 250%Q box.
Proof.
  destruct (barrier_bounds_candidates tank_words tank_callout [] ["3"; "plate"]%string
              [line_250] line_tank [line_999]
              [250%Q] [(250%Q, word_bbox word_250)]) as (_ & _ & H & _).
  - vm_compute. reflexivity.
  - repeat constructor.
  - vm_compute. reflexivity.
  - vm_compute. reflexivity.
  - apply (H 250%Q). left.
Defined.

(** C3 fails on the code. The tag pattern is built from the first token of
    the callout matched, which the search takes for the position id. Row 3
    "PLATE" is matched here by the variant ["plate"], since the only word
    "3" that the earlier variants find is the POS cell of the table. So the
    line "(3 REF)", a barrier for the position id 3 and the line nearest
    above the callout, does not stop the scan: the number 999 above it is
    returned as a candidate, and row 3, listed with the length 999, passes
    with it. With tokens that start with the position id the same words
    give no candidate at all. *)
Theorem tag_barrier_missed (fmt : py_format) :
  map (fun r => (verdict r, Result.candidate_lengths r, Result.callout_bbox r))
    <$> analyze_page fmt tag_page
    = Some [(("3", "PASS", true, Some 999%Q, Some "geometry", [])%string,
             [999%Q; 3%Q], Some (word_bbox plate_callout_word))] ∧
  analyze_page fmt tag_page
    = Some (compare_rows fmt (_find_value_for_row fmt tag_app)
              (mark_duplicates (extract_rows_with_plumber [tag_page]).1.1)) ∧
  (let '(_, value, _, meta) :=
     _find_value_for_row fmt tag_app "3" "PLATE" (Some 999%Q) true None None in
   value = Some 999%Q ∧ Meta.tokens meta = Some ["plate"%string] ∧
   Meta.bbox meta = Some (word_bbox plate_callout_word)) ∧
  sorted_key_reverse lg_bottom
    (map snd (group_lines (Word.top plate_callout_word) tag_words)) = [tag_line; far_line] ∧
  is_barrier (Some "3"%string) tag_line = true ∧
  _find_length_above_bbox tag_words (Some (word_bbox plate_callout_word)) [] ["plate"%string]
    = ([999%Q; 3%Q], [(999%Q, word_bbox far_999); (3%Q, word_bbox tag_3)]) ∧
  _find_length_above_bbox tag_words (Some (word_bbox plate_callout_word)) []
    ["3"; "plate"]%string = ([], []).
Proof.
  split; [vm_compute; reflexivity|].
  split; [vm_compute; reflexivity|].
  split; [vm_compute; auto|].
  split; [vm_compute; reflexivity|].
  split; [vm_compute; reflexivity|].
  split; vm_compute; reflexivity.
Qed.

(** The lines of the scan are the groups of words whose [top], halved,
    rounds to the same number. The words "3.2" and "TANK" at the heights
    160.9 and 161.1 fall into two groups, neither of which reads as another
    callout, and the number 999 above them is returned; at one height they
    stop the scan. *)
Example split_line_no_barrier :
  map fst (group_lines (BBox.top tank_callout) split_words) = [90; 80; 81; 70]%Z ∧
  999%Q ∈ (_find_length_above_bbox split_words (Some tank_callout) [] ["3"; "plate"]%string).1 ∧
  (_find_length_above_bbox tank_words (Some tank_callout) [] ["3"; "plate"]%string).1 = [250%Q].
Proof.
  split; [vm_compute; reflexivity|].
  split; [|vm_compute; reflexivity].
  vm_compute. left.
Qed.

(** C8 fails on the code. The value 50 stands twice on the line above the
    callout, once 35 units left of the middle of the callout and once right
    above it; the search reports it once, with the box of the occurrence
    that comes first on the line, which is the farther one. *)
Theorem first_occurrence_box_kept :
  _find_length_above_bbox twin_words (Some tank_callout) [] ["3"; "plate"]%string
    = ([50%Q], [(50%Q, word_bbox far_50)]) ∧
  near_50 ∈ window_words twin_words tank_callout ["3"; "plate"]%string ∧
  50%Q ∈ _numeric_from_text (Word.text near_50) ∧
  (Qabs (word_center near_50 - 120) < Qabs (word_center far_50 - 120))%Q ∧
  word_bbox near_50 ≠ word_bbox far_50.
Proof.
  split; [vm_compute; reflexivity|].
  split; [vm_compute; right; left|].
  split; [vm_compute; left|].
  split; [vm_compute; reflexivity|].
  discriminate.
Qed.

(** ** The analysis of whole documents

    Documents of one page, whatever the float formatting is. *)

Section Scenarios.
Variable fmt : py_format.

Example analysis_length_in_text :
  map verdict <$> analyze_page fmt (page_with_table [["3"; "BASE PLATE"; "250"]] [] "3 BASE PLATE L=250mm")
  = Some [("3", "PASS", true, Some 250%Q, Some "text", [])]%string.
Proof. vm_compute. reflexivity. Qed.

Example analysis_length_mismatch :
  map verdict <$> analyze_page fmt (page_with_table [["3"; "BASE PLATE"; "250"]] [] "3 BASE PLATE L=180mm")
  = Some [("3", "FAIL", true, Some 180%Q, Some "text",
           ["length mismatch: drawing " +:+ format_1f fmt 180 +:+ " vs table 250 mm"])]%string.
Proof. vm_compute. reflexivity. Qed.

Example analysis_duplicate_position :
  map verdict <$> analyze_page fmt
    (page_with_table [["5"; "PLATE"; "120"]; ["5 "; "PLATE"; "130"]] [] "5 PLATE L=120mm")
  = Some [("5", "FAIL", true, Some 120%Q, Some "text", ["duplicate POS in Table 1 (page 1)"]);
          ("5", "FAIL", true, Some 120%Q, Some "text",
           ["duplicate POS in Table 1 (page 1)";
            "length mismatch: drawing " +:+ format_1f fmt 120 +:+ " vs table 130 mm"])]%string.
Proof. vm_compute. reflexivity. Qed.

Example analysis_callout_missing :
  map verdict <$> analyze_page fmt (page_with_table [["7"; "BASE PLATE"; "250"]] [] "GENERAL NOTES")
  = Some [("7", "FAIL", false, None, None, ["callout missing"])]%string.
Proof. vm_compute. reflexivity. Qed.

Example analysis_length_above_callout :
  map (fun r => (verdict r, Result.length_bbox r))
    <$> analyze_page fmt (page_with_table [["3"; "PLATE"; "250"]] tank_words "")
  = Some [(("3", "PASS", true, Some 250%Q, Some "geometry", []), Some (word_bbox word_250))]%string.
Proof. vm_compute. reflexivity. Qed.

Example analysis_no_table :
  analyze_page fmt {| page_words := []; page_text := "GENERAL NOTES"; page_tables := [] |} = None.
Proof. vm_compute. reflexivity. Qed.
End Scenarios.

(** ** Tokens and variants *)

Lemma token_char_lower c : is_token_char c = true → to_lower c = c.
Proof.
  destruct c as [[] [] [] [] [] [] [] []]; vm_compute; intros H; (reflexivity || discriminate H).
Qed.

Lemma filter_all {A : Type} (p : A → bool) (l : list A) :
  Forall (fun x => p x = true) l → List.filter p l = l.
Proof.
  induction 1 as [|x l Hx _ IH]; simpl; [done|]. by rewrite Hx, IH.
Qed.

Lemma filter_Forall {A : Type} (p : A → bool) (l : list A) :
  Forall (fun x => p x = true) (List.filter p l).
Proof.
  induction l as [|x l IH]; simpl; [constructor|].
  destruct (p x) eqn:Hx; [by constructor|done].
Qed.

Lemma map_id_Forall {A : Type} (f : A → A) (l : list A) :
  Forall (fun x => f x = x) l → map f l = l.
Proof. induction 1 as [|x l Hx _ IH]; simpl; [done|]. by rewrite Hx, IH. Qed.

Lemma normalize_word_token_chars text :
  Forall (fun c => is_token_char c = true) (chars (normalize_word_token text)).
Proof. unfold normalize_word_token. apply keep_chars_Forall. Qed.

Lemma normalize_fixed tok :
  Forall (fun c => is_token_char c = true) (chars tok) → normalize_word_token tok = tok.
Proof.
  intros H. unfold normalize_word_token, keep_chars, str_lower.
  rewrite chars_str.
  rewrite (map_id_Forall to_lower).
  - fold is_token_char. rewrite (filter_all is_token_char) by done. apply str_chars.
  - eapply Forall_impl; [exact H|]. intros c. apply token_char_lower.
Qed.

(** X1. Normalising a word twice gives what normalising it once gives, and
    a normalised word holds nothing but the characters [a-z0-9.+-]. *)
Theorem normalize_word_token_idempotent (text : string) :
  normalize_word_token (normalize_word_token text) = normalize_word_token text ∧
  Forall (fun c => is_token_char c = true) (chars (normalize_word_token text)).
Proof.
  split; [|apply normalize_word_token_chars].
  apply normalize_fixed, normalize_word_token_chars.
Qed.

Lemma elem_of_List_filter {A : Type} (p : A → bool) (l : list A) x :
  x ∈ List.filter p l ↔ x ∈ l ∧ p x = true.
Proof. rewrite !list_elem_of_In. apply filter_In. Qed.

Lemma normalized_parts_normal sep text tok :
  tok ∈ normalized_parts sep text → normal_token tok.
Proof.
  unfold normalized_parts. intros [Hin Hne]%elem_of_List_filter.
  apply list_elem_of_In, in_map_iff in Hin as (part & <- & _).
  split; [|apply normalize_word_token_chars].
  intros Heq. by rewrite Heq in Hne.
Qed.

(** X2. Every token of a page text is not empty, holds nothing but the
    characters [a-z0-9.+-], and is its own normal form. *)
Theorem tokenize_page_text_tokens (text : string) :
  Forall (fun tok => normal_token tok ∧ normalize_word_token tok = tok)
         (_tokenize_page_text text).
Proof.
  apply Forall_forall. intros tok Htok.
  apply normalized_parts_normal in Htok as Hn.
  split; [done|]. apply normalize_fixed, Hn.
Qed.

Lemma nonempty_true {A : Type} (l : list A) : nonempty l = true ↔ l ≠ [].
Proof. by destruct l. Qed.

Lemma is_prefix_list_spec p l :
  is_prefix_list p l = true ↔ ∃ post, l = p ++ post.
Proof.
  revert l. induction p as [|a p IH]; intros l; simpl.
  - split; [by exists l|done].
  - destruct l as [|b l].
    + split; [done|]. by intros [post ?].
    + rewrite andb_true_iff, String.eqb_eq, IH. split.
      * intros [-> [post ->]]. by exists post.
      * intros [post [= -> ->]]. split; [done|]. by exists post.
Qed.

Lemma contains_at_spec tokens subseq :
  contains_at tokens subseq = true ↔ ∃ pre post, tokens = pre ++ subseq ++ post.
Proof.
  induction tokens as [|t tokens IH]; simpl.
  - rewrite orb_false_r, is_prefix_list_spec. split.
    + intros [post Hp]. by exists [], post.
    + intros (pre & post & Hp). destruct pre; [by exists post|done].
  - rewrite orb_true_iff, is_prefix_list_spec, IH. split.
    + intros [[post Hp]|(pre & post & ->)]; [by exists [], post|by exists (t :: pre), post].
    + intros (pre & post & Hp). destruct pre as [|t' pre].
      * left. by exists post.
      * right. injection Hp as -> ->. by exists pre, post.
Qed.

(** X3. [contains_subsequence] holds exactly when the sought tokens are
    not empty and stand next to each other, in order, among the tokens; an
    empty sequence is never contained. *)
Theorem contains_subsequence_spec (tokens subseq : list string) :
  contains_subsequence tokens subseq = true ↔
  subseq ≠ [] ∧ ∃ pre post, tokens = pre ++ subseq ++ post.
Proof.
  unfold contains_subsequence. by rewrite andb_true_iff, contains_at_spec, nonempty_true.
Qed.

Lemma nonempty_chars_true (s : string) : nonempty (chars s) = true ↔ s ≠ ""%string.
Proof. by destruct s. Qed.

Lemma proper_variant_fixed tokens :
  proper_variant tokens →
  List.filter (fun tok => nonempty (chars tok)) tokens = tokens.
Proof.
  intros [_ H]. apply filter_all. eapply Forall_impl; [exact H|].
  intros tok. apply nonempty_chars_true.
Qed.

Lemma normalize_token_variants_fixed variants :
  Forall proper_variant variants → _normalize_token_variants variants = variants.
Proof.
  intros H. unfold _normalize_token_variants.
  assert (map (List.filter (fun tok => nonempty (chars tok))) variants = variants) as ->.
  { induction H as [|v variants Hv _ IH]; simpl; [done|].
    by rewrite (proper_variant_fixed v Hv), IH. }
  apply filter_all. eapply Forall_impl; [exact H|].
  intros v [Hv _]. by apply nonempty_true.
Qed.

Lemma normalize_token_variants_proper tv :
  Forall proper_variant (_normalize_token_variants tv).
Proof.
  apply Forall_forall. intros v [Hin Hne]%elem_of_List_filter.
  apply list_elem_of_In, in_map_iff in Hin as (v0 & <- & _).
  split; [by apply nonempty_true|].
  eapply Forall_impl; [apply filter_Forall|]. intros tok. apply nonempty_chars_true.
Qed.

(** X4. The normalised variants are not empty and hold no empty token, and
    normalising them again changes nothing. *)
Theorem normalize_token_variants_idempotent (token_variants : list (list string)) :
  Forall proper_variant (_normalize_token_variants token_variants) ∧
  _normalize_token_variants (_normalize_token_variants token_variants)
    = _normalize_token_variants token_variants.
Proof.
  split; [apply normalize_token_variants_proper|].
  apply normalize_token_variants_fixed, normalize_token_variants_proper.
Qed.

(** What [add_option] keeps true of the variants gathered so far. *)
Definition variants_ok (variants : list (list string)) : Prop :=
  NoDup variants ∧ Forall proper_variant variants.

Lemma add_option_ok variants tokens :
  variants_ok variants → variants_ok (add_option variants tokens).
Proof.
  intros [Hnd Hall]. unfold add_option.
  destruct (nonempty _) eqn:Hne; simpl; [|done].
  case_bool_decide as Hin; [done|].
  split.
  - apply NoDup_app. split; [done|]. split.
    + intros x Hx ->%list_elem_of_singleton. done.
    + apply NoDup_singleton.
  - apply Forall_app. split; [done|]. constructor; [|constructor].
    split; [by apply nonempty_true|].
    eapply Forall_impl; [apply filter_Forall|]. intros tok. apply nonempty_chars_true.
Qed.

Lemma add_option_mono variants tokens v :
  v ∈ variants → v ∈ add_option variants tokens.
Proof.
  intros Hv. unfold add_option.
  destruct (nonempty _); simpl; [|done].
  case_bool_decide; [done|]. apply elem_of_app. by left.
Qed.

Lemma add_option_elem variants tokens :
  proper_variant tokens → tokens ∈ add_option variants tokens.
Proof.
  intros Hp. unfold add_option. rewrite (proper_variant_fixed _ Hp).
  destruct Hp as [Hne _]. apply nonempty_true in Hne. rewrite Hne. simpl.
  case_bool_decide; [done|]. apply elem_of_app. right. by left.
Qed.

Lemma fold_add_option_ok {A : Type} (f : list (list string) → A → list (list string)) l variants :
  (∀ vs x, variants_ok vs → variants_ok (f vs x)) →
  variants_ok variants → variants_ok (fold_left f l variants).
Proof.
  intros Hf. revert variants. induction l as [|x l IH]; simpl; intros variants Hv; [done|].
  apply IH, Hf, Hv.
Qed.

Lemma fold_add_option_mono {A : Type} (f : list (list string) → A → list (list string)) l variants v :
  (∀ vs x, v ∈ vs → v ∈ f vs x) →
  v ∈ variants → v ∈ fold_left f l variants.
Proof.
  intros Hf. revert variants. induction l as [|x l IH]; simpl; intros variants Hv; [done|].
  apply IH, Hf, Hv.
Qed.

Lemma build_variants_ok fmt pos desc qt qv :
  variants_ok (build_callout_token_variants fmt pos desc qt qv).1.
Proof.
  unfold build_callout_token_variants. cbn [fst].
  apply fold_add_option_ok.
  { intros vs x Hvs. destruct (nonempty x); simpl; [|done].
    destruct (nonempty (chars (normalize_word_token pos)));
      repeat apply add_option_ok; done. }
  repeat match goal with
         | |- variants_ok (if ?b then _ else _) => destruct b
         | |- variants_ok (add_option _ _) => apply add_option_ok
         end.
  all: apply fold_add_option_ok; [intros; by apply add_option_ok|].
  all: split; [apply NoDup_nil_2|constructor].
Qed.

Lemma base_tokens_proper fmt pos desc qt qv :
  (build_callout_token_variants fmt pos desc qt qv).2 ≠ [] →
  proper_variant (build_callout_token_variants fmt pos desc qt qv).2.
Proof.
  unfold build_callout_token_variants. cbn [snd].
  set (pos_token := normalize_word_token pos).
  set (desc_tokens := normalized_parts space_re desc).
  set (dwp := List.filter _ desc_tokens).
  intros Hne. split; [done|]. clear Hne.
  assert (Forall (fun tok => tok ≠ ""%string) desc_tokens) as Hd.
  { apply Forall_forall. intros tok Htok. by apply normalized_parts_normal in Htok as [? _]. }
  assert (Forall (fun tok => tok ≠ ""%string) dwp) as Hdf.
  { apply Forall_forall. intros tok [Htok _]%elem_of_List_filter.
    revert tok Htok. by apply Forall_forall. }
  assert (nonempty (chars pos_token) = true → Forall (fun tok => tok ≠ ""%string) [pos_token]) as Hp.
  { intros H%nonempty_chars_true. by constructor. }
  destruct (nonempty (chars pos_token)), (nonempty dwp), (nonempty desc_tokens);
    cbn [app nonempty]; repeat (try apply Forall_cons_2; try apply Forall_app; try split);
    auto using Forall_nil_2.
  all: try (specialize (Hp eq_refl); by inversion Hp).
  all: repeat case_match; auto using Forall_nil_2.
Qed.

Ltac find_option :=
  repeat first
    [ apply add_option_elem; assumption
    | apply add_option_mono
    | match goal with |- _ ∈ (if ?b then _ else _) => destruct b end ].

Lemma build_variants_base fmt pos desc qt qv :
  (build_callout_token_variants fmt pos desc qt qv).2 ≠ [] →
  (build_callout_token_variants fmt pos desc qt qv).2
    ∈ (build_callout_token_variants fmt pos desc qt qv).1.
Proof.
  intros Hne. apply base_tokens_proper in Hne. revert Hne.
  unfold build_callout_token_variants. cbn [fst snd].
  generalize (normalized_parts space_re desc). intros desc_tokens.
  generalize (_quantity_token_variants fmt qt qv). intros quantity_variants.
  match goal with |- proper_variant ?b → _ => generalize b end.
  intros base_tokens Hbase.
  apply fold_add_option_mono.
  { intros vs x Hin. destruct (nonempty x); simpl; [|done].
    destruct (nonempty (chars (normalize_word_token pos)));
      repeat apply add_option_mono; done. }
  find_option.
Qed.

Lemma build_variants_pos fmt pos desc qt qv :
  normalize_word_token pos ≠ ""%string →
  [normalize_word_token pos] ∈ (build_callout_token_variants fmt pos desc qt qv).1.
Proof.
  intros Hpos.
  assert (proper_variant [normalize_word_token pos]) as Hp.
  { split; [done|]. by constructor. }
  apply nonempty_chars_true in Hpos. revert Hp.
  unfold build_callout_token_variants. cbn [fst snd]. rewrite Hpos.
  generalize (normalize_word_token pos). intros pos_token.
  generalize (normalized_parts space_re desc). intros desc_tokens.
  generalize (_quantity_token_variants fmt qt qv). intros quantity_variants.
  cbn [app nonempty]. cbv iota.
  intros Hp.
  apply fold_add_option_mono.
  { intros vs x Hin. destruct (nonempty x); simpl; [|done].
    repeat apply add_option_mono; done. }
  find_option.
Qed.

(** X5. The variants built for a row are pairwise different, none is empty
    or holds an empty token, so the lookups' normalisation leaves them as
    they are; the base tokens are one of the variants unless they are empty,
    and so is the position id alone unless it normalises to nothing. *)
Theorem callout_token_variants_proper fmt (pos desc : string)
    (quantity_text : option string) (quantity_value : option Q) :
  let '(variants, base_tokens) :=
    build_callout_token_variants fmt pos desc quantity_text quantity_value in
  NoDup variants ∧
  Forall proper_variant variants ∧
  _normalize_token_variants variants = variants ∧
  (base_tokens ≠ [] → base_tokens ∈ variants) ∧
  (normalize_word_token pos ≠ ""%string → [normalize_word_token pos] ∈ variants).
Proof.
  pose proof (build_variants_ok fmt pos desc quantity_text quantity_value) as [Hnd Hall].
  pose proof (build_variants_base fmt pos desc quantity_text quantity_value) as Hbase.
  pose proof (build_variants_pos fmt pos desc quantity_text quantity_value) as Hpos.
  destruct (build_callout_token_variants fmt pos desc quantity_text quantity_value)
    as [variants base_tokens].
  cbn [fst snd] in *.
  split; [done|]. split; [done|]. split; [by apply normalize_token_variants_fixed|]. done.
Qed.

Lemma numeric_value_nonneg (text : string) (v : Q) :
  v ∈ extract_numeric_values text → (0 <= v)%Q.
Proof.
  intros Hv. unfold extract_numeric_values in Hv.
  apply list_elem_of_omap in Hv as (m & Hm & Hf).
  apply re_findall_chars in Hm.
  eapply (py_float_nonneg_chars (chars_of grouped_number_re)); [reflexivity| |exact Hf].
  apply str_replace_Forall; [constructor|]. apply str_replace_Forall; [constructor|]. done.
Qed.

(** X6. The numbers read by [extract_numeric_values] are never negative:
    a sign in front of a number is not read. *)
Theorem extract_numeric_values_nonneg (text : string) :
  Forall (fun v => (0 <= v)%Q) (extract_numeric_values text).
Proof. apply Forall_forall. intros v. apply numeric_value_nonneg. Qed.

(** ** The values of the geometric search *)

Section SortedBy.
Context {A : Type} (before : A → A → bool).
Hypothesis before_asym : ∀ a b, before a b = true → before b a = false.
Hypothesis before_trans :
  ∀ a b c, before b a = false → before c b = false → before c a = false.

Lemma insert_sorted_by_sorted x l :
  StronglySorted (fun a b => before b a = false) l →
  StronglySorted (fun a b => before b a = false) (insert_sorted before x l).
Proof.
  induction 1 as [|y t Ht IH Hy]; simpl; [by repeat constructor|].
  destruct (before y x) eqn:E.
  - constructor; [done|].
    apply Forall_forall. intros z Hz.
    apply (elem_of_Permutation_proper _ _ _ (insert_sorted_perm before x t)) in Hz.
    apply elem_of_cons in Hz as [->|Hz]; [by apply before_asym|].
    rewrite Forall_forall in Hy. by apply Hy.
  - constructor; [by constructor|].
    constructor; [done|].
    apply Forall_forall. intros z Hz. rewrite Forall_forall in Hy.
    apply (before_trans x y z); [done|by apply Hy].
Qed.

Lemma sorted_by_sorted l :
  StronglySorted (fun a b => before b a = false) (sorted_by before l).
Proof.
  induction l as [|x l IH]; simpl; [constructor|]. by apply insert_sorted_by_sorted.
Qed.
End SortedBy.

Lemma pair_ltb_asym (k1 k2 : Q * Q) : pair_ltb k1 k2 = true → pair_ltb k2 k1 = false.
Proof.
  destruct k1 as [a1 b1], k2 as [a2 b2].
  rewrite pair_ltb_true, pair_ltb_false. intros [H|[H1 H2]].
  - by left.
  - right. split; [done|]. by apply Qlt_le_weak.
Qed.

Lemma pair_key_sorted_sorted {A : Type} (key : A → Q * Q) (l : list A) :
  StronglySorted (fun a b => pair_ltb (key b) (key a) = false) (pair_key_sorted key l).
Proof.
  unfold pair_key_sorted.
  apply (sorted_by_sorted (fun y x => pair_ltb (key y) (key x))).
  - intros a b. apply pair_ltb_asym.
  - intros a b c. apply pair_le_trans.
Qed.

Lemma StronglySorted_impl {A : Type} (R R' : A → A → Prop) l :
  (∀ a b, R a b → R' a b) → StronglySorted R l → StronglySorted R' l.
Proof.
  intros HR. induction 1 as [|x l Hl IH Hx]; constructor; [done|].
  eapply Forall_impl; [exact Hx|]. intros b. apply HR.
Qed.

Lemma StronglySorted_snoc {A : Type} (R : A → A → Prop) l x :
  StronglySorted R l → Forall (fun a => R a x) l → StronglySorted R (l ++ [x]).
Proof.
  induction 1 as [|y l Hl IH Hy]; simpl; intros Hx.
  - by repeat constructor.
  - apply Forall_cons in Hx as [Hyx Hx]. constructor; [by apply IH|].
    apply Forall_app. split; [done|]. by repeat constructor.
Qed.

Lemma last_Some_snoc {A : Type} (l : list A) x : last l = Some x → ∃ l', l = l' ++ [x].
Proof.
  intros H. destruct l as [|y l _] using rev_ind; [done|].
  rewrite last_snoc in H. injection H as ->. by exists l.
Qed.

(** The entries sorted for the last loop: largest value first. *)
Lemma sorted_entries_desc entries :
  StronglySorted (fun a b => (ce_value b <= ce_value a)%Q)
    (pair_key_sorted (fun c => (- ce_value c, ce_center_offset c)%Q) entries).
Proof.
  eapply StronglySorted_impl; [|apply pair_key_sorted_sorted].
  intros a b H. simpl in H. apply pair_ltb_false in H as [H|[H _]].
  - apply Qlt_le_weak. apply Qopp_lt_compat in H. by rewrite !Qopp_involutive in H.
  - apply Qle_lteq. right. rewrite <- (Qopp_involutive (ce_value a)), <- (Qopp_involutive (ce_value b)).
    by rewrite H.
Qed.

Lemma Qabs_gap (v l : Q) : (v <= l)%Q → Qltb 1e-6 (Qabs (v - l)) = true → well_below l v.
Proof.
  intros Hle H. apply Qltb_lt in H. unfold well_below.
  rewrite Qabs_neg in H by lra. lra.
Qed.

Lemma order_entries_sorted entries :
  StronglySorted (fun a b => (ce_value b <= ce_value a)%Q) entries →
  StronglySorted well_below (order_entries entries).1.
Proof.
  unfold order_entries.
  cut (∀ es acc,
         StronglySorted (fun a b => (ce_value b <= ce_value a)%Q) es →
         StronglySorted well_below acc.1 →
         (∀ v e, v ∈ acc.1 → e ∈ es → (ce_value e <= v)%Q) →
         StronglySorted well_below
           (fold_left
              (fun '(ordered_values, value_bboxes) entry =>
                 let v := ce_value entry in
                 (match last ordered_values with
                  | Some l => if Qltb 1e-6 (Qabs (v - l)) then ordered_values ++ [v]
                              else ordered_values
                  | None => ordered_values ++ [v]
                  end,
                  if existsb (fun kv => Qeq_bool kv.1 v) value_bboxes
                  then value_bboxes else value_bboxes ++ [(v, ce_bbox entry)])) es acc).1).
  { intros H Hs. apply (H entries ([], [])); [done|constructor|].
    by intros v e ?%elem_of_nil. }
  induction es as [|e es IH]; intros [vals boxes] Hs Hv Hle; simpl in *; [done|].
  apply StronglySorted_inv in Hs as [Hs He]. rewrite Forall_forall in He.
  assert (Hsnoc : ∀ v e', v ∈ vals ++ [ce_value e] → e' ∈ es → (ce_value e' <= v)%Q).
  { intros v e' [Hin|Hin]%elem_of_app He'.
    - apply Hle; [done|by right].
    - apply list_elem_of_singleton in Hin as ->. by apply He. }
  apply IH; [done| |]; simpl.
  - destruct (last vals) as [l|] eqn:El.
    + destruct (Qltb _ _) eqn:Eg; [|done].
      apply last_Some_snoc in El as [init ->].
      assert (Hl : (ce_value e <= l)%Q).
      { apply Hle; [apply elem_of_app; right; left|left]. }
      pose proof (Qabs_gap _ _ Hl Eg) as Hgap.
      apply StronglySorted_snoc; [done|].
      apply Forall_app. split; [|by repeat constructor].
      apply (StronglySorted_middle well_below init l []) in Hv as [Hinit _].
      eapply Forall_impl; [exact Hinit|].
      intros a Ha. unfold well_below in *. lra.
    + destruct vals; [by repeat constructor|].
      by rewrite last_cons in El; destruct (last vals).
  - destruct (last vals) as [l|]; [destruct (Qltb _ _)|]; try done.
    intros v e' Hin He'. apply Hle; [done|by right].
Qed.

(** Every entry has a box on record under a value equal to its own. *)
Lemma order_entries_boxes entries e :
  e ∈ entries →
  existsb (fun kv => Qeq_bool kv.1 (ce_value e)) (order_entries entries).2 = true.
Proof.
  unfold order_entries.
  cut (∀ es acc,
         (e ∈ es ∨ existsb (fun kv => Qeq_bool kv.1 (ce_value e)) acc.2 = true) →
         existsb (fun kv => Qeq_bool kv.1 (ce_value e))
           (fold_left
              (fun '(ordered_values, value_bboxes) entry =>
                 let v := ce_value entry in
                 (match last ordered_values with
                  | Some l => if Qltb 1e-6 (Qabs (v - l)) then ordered_values ++ [v]
                              else ordered_values
                  | None => ordered_values ++ [v]
                  end,
                  if existsb (fun kv => Qeq_bool kv.1 v) value_bboxes
                  then value_bboxes else value_bboxes ++ [(v, ce_bbox entry)])) es acc).2 = true).
  { intros H He. apply H. by left. }
  induction es as [|e' es IH]; intros [vals boxes] H; simpl in *.
  - destruct H as [H|H]; [by apply elem_of_nil in H|done].
  - apply IH. simpl. destruct H as [[->|H]%elem_of_cons|H]; [|by left|].
    + right. destruct (existsb _ boxes) eqn:E; [done|].
      rewrite existsb_app. simpl. rewrite (proj2 (Qeq_bool_iff _ _) (Qeq_refl _)).
      by rewrite orb_true_r.
    + right. destruct (existsb (fun kv => Qeq_bool kv.1 (ce_value e')) boxes); [done|].
      rewrite existsb_app, H. done.
Qed.

Lemma bbox_of_value_Some boxes v :
  existsb (fun kv => Qeq_bool kv.1 v) boxes = true → is_Some (bbox_of_value boxes v).
Proof.
  unfold bbox_of_value. intros H. apply existsb_exists in H as (kv & Hin & Hkv).
  destruct (List.find _ boxes) as [kv'|] eqn:E; [by eexists|].
  apply (find_none _ _ E) in Hin. simpl in *. congruence.
Qed.

(** No entry is a number of the description. *)
Lemma add_word_values_desc desc center acc w :
  Forall (fun e => ∀ dn, dn ∈ desc → (1e-6 < Qabs (ce_value e - dn))%Q) acc.1 →
  Forall (fun e => ∀ dn, dn ∈ desc → (1e-6 < Qabs (ce_value e - dn))%Q)
         (add_word_values desc center acc w).1.
Proof.
  unfold add_word_values.
  generalize (_numeric_from_text (Word.text w)). intros vs. revert acc.
  induction vs as [|v vs IH]; intros [entries seen] Hacc; simpl; [done|].
  apply IH.
  destruct (existsb _ desc) eqn:Ed; [done|]. destruct (existsb _ seen); [done|].
  simpl. apply Forall_app. split; [done|]. constructor; [|constructor].
  simpl. intros dn Hdn. apply Qnot_le_lt. intros Hle.
  apply Qle_bool_iff in Hle.
  apply not_true_iff_false in Ed. apply Ed.
  apply existsb_exists. exists dn. split; [by apply list_elem_of_In|done].
Qed.

Lemma window_entries_desc words bbox desc tokens :
  Forall (fun e => ∀ dn, dn ∈ desc → (1e-6 < Qabs (ce_value e - dn))%Q)
         (window_entries words bbox desc tokens).
Proof.
  unfold window_entries.
  generalize (window_words words bbox tokens). intros ws.
  assert (Forall (fun e => ∀ dn, dn ∈ desc → (1e-6 < Qabs (ce_value e - dn))%Q)
                 (([] : list candidate_entry), ([] : list Q)).1) as H by constructor.
  revert H. generalize (([] : list candidate_entry), ([] : list Q)).
  induction ws as [|w ws IH]; intros acc H; simpl; [done|].
  apply IH. by apply add_word_values_desc.
Qed.

(** X7. The values the geometric search returns go down by more than 1e-6
    from one to the next, none of them is within 1e-6 of a number of the
    description, and each has a box on record. *)
Theorem found_lengths_ordered (words : list Word.t) (bbox : option BBox.t)
    (desc_numbers : list Q) (callout_tokens : list string) :
  let '(values, boxes) := _find_length_above_bbox words bbox desc_numbers callout_tokens in
  StronglySorted well_below values ∧
  (∀ v dn, v ∈ values → dn ∈ desc_numbers → (1e-6 < Qabs (v - dn))%Q) ∧
  (∀ v, v ∈ values → is_Some (bbox_of_value boxes v)).
Proof.
  assert (Hnil : StronglySorted well_below [] ∧
            (∀ v dn, v ∈ [] → dn ∈ desc_numbers → (1e-6 < Qabs (v - dn))%Q) ∧
            (∀ v, v ∈ [] → is_Some (bbox_of_value [] v))).
  { split; [constructor|]. split; [by intros v dn ?%elem_of_nil|by intros v ?%elem_of_nil]. }
  unfold _find_length_above_bbox.
  destruct words as [|w0 ws]; [done|]. destruct bbox as [bbox|]; [|done].
  destruct (negb (nonempty (group_lines _ _))); [done|].
  destruct (negb (nonempty (window_entries _ _ _ _))); [done|].
  set (entries := window_entries (w0 :: ws) bbox desc_numbers callout_tokens).
  set (sorted := pair_key_sorted _ entries).
  pose proof (order_entries_sorted sorted (sorted_entries_desc entries)) as Hs.
  pose proof (order_entries_from sorted) as [Hv _].
  pose proof (order_entries_boxes sorted) as Hb.
  destruct (order_entries sorted) as [values boxes]. simpl in *.
  split; [done|]. split.
  - intros v dn Hin Hdn. destruct (Hv v Hin) as (e & He & <-).
    apply elem_of_sorted_by in He.
    pose proof (window_entries_desc (w0 :: ws) bbox desc_numbers callout_tokens) as Hd.
    rewrite Forall_forall in Hd. by apply Hd.
  - intros v Hin. destruct (Hv v Hin) as (e & He & <-).
    by apply bbox_of_value_Some, Hb.
Qed.

(** ** The words the geometric search reads *)

Lemma scan_lines_words pos_token bx0 bx1 lines acc w :
  w ∈ (scan_lines pos_token bx0 bx1 lines acc).2 →
  w ∈ acc ∨ ∃ g, g ∈ lines ∧ w ∈ lg_words g ∧
                 (bx0 <= word_center w)%Q ∧ (word_center w <= bx1)%Q.
Proof.
  revert acc. induction lines as [|g lines IH]; intros acc; simpl; [by left|].
  destruct (is_barrier pos_token g); simpl; [by left|].
  intros [[Hw|Hw]%elem_of_app|(g' & Hg' & H)]%IH.
  - by left.
  - right. exists g. split; [left|].
    apply elem_of_List_filter in Hw as [Hw Hc].
    apply elem_of_sorted_key in Hw. apply andb_true_iff in Hc as [H1 H2].
    by rewrite !Qle_bool_iff in *.
  - right. exists g'. split; [by right|done].
Qed.

Lemma window_words_above words bbox tokens w :
  w ∈ window_words words bbox tokens → w ∈ words ∧ above_callout bbox w.
Proof.
  unfold window_words.
  set (x_margin := qmax 20 ((BBox.x1 bbox - BBox.x0 bbox) * 0.6)).
  destruct (scan_lines _ _ _ _ _) as [barrier collected] eqn:E.
  intros Hw.
  assert (Hc : w ∈ collected).
  { destruct barrier; [|done]. by apply elem_of_List_filter in Hw as [? _]. }
  replace collected with (barrier, collected).2 in Hc by done.
  rewrite <- E in Hc. apply scan_lines_words in Hc as [?%elem_of_nil|(g & Hg & Hwg & H0 & H1)]; [done|].
  apply elem_of_sorted_key_reverse in Hg.
  apply list_elem_of_In, in_map_iff in Hg as ([k g0] & <- & Hin). apply list_elem_of_In in Hin.
  destruct (group_lines_ok (BBox.top bbox) words) as [_ Hok].
  rewrite Forall_forall in Hok. destruct (Hok _ Hin) as [_ HF].
  rewrite Forall_forall in HF. destruct (HF w Hwg) as (_ & Hww & Hlow).
  split; [done|]. by split.
Qed.

(** X8. Every value the geometric search returns, and every box it
    records, was read off a word of the page that ends more than one unit
    above the callout box and whose centre is within [max(20, 0.6 * width)]
    of the box to the left and to the right. *)
Theorem found_lengths_above_callout (words : list Word.t) (bbox : BBox.t)
    (desc_numbers : list Q) (callout_tokens : list string)
    (values : list Q) (boxes : list (Q * BBox.t)) :
  _find_length_above_bbox words (Some bbox) desc_numbers callout_tokens = (values, boxes) →
  (∀ v, v ∈ values →
     ∃ w, w ∈ words ∧ above_callout bbox w ∧ v ∈ _numeric_from_text (Word.text w)) ∧
  (∀ v box, (v, box) ∈ boxes →
     ∃ w, w ∈ words ∧ above_callout bbox w ∧ read_off w v box).
Proof.
  intros Hres.
  assert (Hent : Forall (fun e => ∃ w, (w ∈ words ∧ above_callout bbox w) ∧
                                      read_off w (ce_value e) (ce_bbox e))
                        (window_entries words bbox desc_numbers callout_tokens)).
  { unfold window_entries. apply window_entries_from; [|constructor].
    intros w v o Hw Hv. exists w. split; [by apply (window_words_above _ _ callout_tokens)|].
    by split. }
  unfold _find_length_above_bbox in Hres.
  destruct words as [|w0 ws]; [|].
  { simplify_eq. split; [by intros v ?%elem_of_nil|by intros v box ?%elem_of_nil]. }
  destruct (negb (nonempty (group_lines _ _))).
  { simplify_eq. split; [by intros v ?%elem_of_nil|by intros v box ?%elem_of_nil]. }
  destruct (negb (nonempty (window_entries _ _ _ _))).
  { simplify_eq. split; [by intros v ?%elem_of_nil|by intros v box ?%elem_of_nil]. }
  destruct (order_entries_from
              (pair_key_sorted (fun c => (- ce_value c, ce_center_offset c)%Q)
                 (window_entries (w0 :: ws) bbox desc_numbers callout_tokens)))
    as [Hv Hbx].
  rewrite Hres in Hv, Hbx. simpl in Hv, Hbx.
  rewrite Forall_forall in Hent.
  split.
  - intros v Hin. destruct (Hv v Hin) as (e & He & <-).
    apply elem_of_sorted_by in He. destruct (Hent e He) as (w & [Hw Ha] & [Hr _]).
    by exists w.
  - intros v box Hin. destruct (Hbx v box Hin) as (e & He & <- & <-).
    apply elem_of_sorted_by in He. destruct (Hent e He) as (w & [Hw Ha] & Hr).
    by exists w.
Qed.

Lemma found_lengths_above_callout_witness :
  ∃ w, w ∈ tank_words ∧ above_callout tank_callout w ∧
       250%Q ∈ _numeric_from_text (Word.text w).
Proof.
  destruct (found_lengths_above_callout tank_words tank_callout [] ["3"; "plate"]%string
              [250%Q] [(250%Q, word_bbox word_250)]) as [H _].
  - vm_compute. reflexivity.
  - apply (H 250%Q). left.
Defined.

(** ** Matching a callout on a page *)

Lemma qmin_le_l (a b : Q) : (qmin a b <= a)%Q.
Proof.
  unfold qmin. destruct (Qltb b a) eqn:E; [|apply Qle_refl].
  apply Qltb_lt in E. by apply Qlt_le_weak.
Qed.

Lemma qmin_le_r (a b : Q) : (qmin a b <= b)%Q.
Proof.
  unfold qmin. destruct (Qltb b a) eqn:E; [apply Qle_refl|]. by apply Qltb_ge in E.
Qed.

Lemma qmax_ge_l (a b : Q) : (a <= qmax a b)%Q.
Proof.
  unfold qmax. destruct (Qltb a b) eqn:E; [|apply Qle_refl].
  apply Qltb_lt in E. by apply Qlt_le_weak.
Qed.

Lemma qmax_ge_r (a b : Q) : (b <= qmax a b)%Q.
Proof.
  unfold qmax. destruct (Qltb a b) eqn:E; [apply Qle_refl|]. by apply Qltb_ge in E.
Qed.

Lemma min_of_le f w ws x : x ∈ w :: ws → (min_of f w ws <= f x)%Q.
Proof.
  unfold min_of.
  cut (∀ m, (x ∈ ws ∨ (m <= f x)%Q) → (fold_left (fun m x => qmin m (f x)) ws m <= f x)%Q).
  { intros H [->|Hx]%elem_of_cons; apply H; [right; apply Qle_refl|by left]. }
  induction ws as [|y ws IH]; intros m; simpl.
  - by intros [?%elem_of_nil|?].
  - intros [[->|Hx]%elem_of_cons|Hm]; apply IH.
    + right. apply qmin_le_r.
    + by left.
    + right. eapply Qle_trans; [apply qmin_le_l|done].
Qed.

Lemma max_of_ge f w ws x : x ∈ w :: ws → (f x <= max_of f w ws)%Q.
Proof.
  unfold max_of.
  cut (∀ m, (x ∈ ws ∨ (f x <= m)%Q) → (f x <= fold_left (fun m x => qmax m (f x)) ws m)%Q).
  { intros H [->|Hx]%elem_of_cons; apply H; [right; apply Qle_refl|by left]. }
  induction ws as [|y ws IH]; intros m; simpl.
  - by intros [?%elem_of_nil|?].
  - intros [[->|Hx]%elem_of_cons|Hm]; apply IH.
    + right. apply qmax_ge_r.
    + by left.
    + right. eapply Qle_trans; [done|apply qmax_ge_l].
Qed.

Lemma match_from_spec tokens nw ws :
  match_from tokens nw = Some ws →
  ∃ pre matched post, nw = pre ++ matched ++ post ∧
                      map snd matched = tokens ∧ ws = map fst matched.
Proof.
  induction nw as [|x nw IH]; simpl.
  - destruct (is_prefix_list tokens []) eqn:E; [|done].
    apply is_prefix_list_spec in E as [post E]. symmetry in E.
    apply app_eq_nil in E as [-> ->]. intros [= <-]. by exists [], [], [].
  - destruct (is_prefix_list tokens _) eqn:E.
    + intros [= <-]. apply is_prefix_list_spec in E as [post E].
      exists [], (take (length tokens) (x :: nw)), (drop (length tokens) (x :: nw)).
      simpl. rewrite take_drop. split; [done|]. split; [|done].
      change (snd x :: map snd nw) with (map snd (x :: nw)) in E.
      rewrite <- (take_drop (length tokens) (x :: nw)) in E at 1.
      rewrite map_app in E.
      assert (length (map snd (take (length tokens) (x :: nw))) = length tokens) as Hlen.
      { rewrite length_map, length_take.
        assert (length tokens ≤ length (x :: nw)); [|lia].
        rewrite <- (length_map snd (x :: nw)). rewrite <- (take_drop (length tokens) (x :: nw)), map_app, E.
        rewrite length_app. lia. }
      by apply app_inj_1 in E as [E _].
    + intros (pre & matched & post & -> & Hm & Hw)%IH.
      by exists (x :: pre), matched, post.
Qed.

(** X9. A callout found on a page: the words with a normal form hold, one
    after the other, words whose normal forms spell the tokens, and the box
    returned holds every one of these words. Without tokens or without words
    nothing is found. *)
Theorem match_callout_encloses (tokens : list string) (words : list Word.t) (bbox : BBox.t) :
  _match_callout_on_page tokens words = Some bbox →
  tokens ≠ [] ∧
  ∃ pre matched post,
    normalized_words words = pre ++ matched ++ post ∧
    map snd matched = tokens ∧
    Forall (fun wn => wn.1 ∈ words ∧ encloses bbox wn.1) matched.
Proof.
  unfold _match_callout_on_page. fold (normalized_words words).
  destruct tokens as [|t tokens]; [done|]. destruct words as [|w0 words]; [done|].
  cbn [nonempty negb orb].
  destruct (match_from _ _) as [[|w ws]|] eqn:E; [done| |done].
  intros [= <-]. split; [done|].
  apply match_from_spec in E as (pre & matched & post & Hnw & Hm & Hws).
  exists pre, matched, post. split; [done|]. split; [done|].
  apply Forall_forall. intros [x n] Hx. simpl. split.
  - assert ((x, n) ∈ normalized_words (w0 :: words)) as Hin.
    { rewrite Hnw. apply elem_of_app. right. apply elem_of_app. by left. }
    apply elem_of_List_filter in Hin as [Hin _].
    apply list_elem_of_In, in_map_iff in Hin as (x' & [= -> _] & Hin).
    by apply list_elem_of_In.
  - assert (x ∈ w :: ws) as Hxin.
    { rewrite Hws. apply list_elem_of_In, in_map_iff. exists (x, n).
      split; [done|]. by apply list_elem_of_In. }
    repeat split; simpl; [by apply min_of_le|by apply max_of_ge|by apply min_of_le|
                          by apply max_of_ge].
Qed.

Lemma match_callout_encloses_witness :
  ∃ pre matched post,
    normalized_words tank_words = pre ++ matched ++ post ∧
    map snd matched = ["3"; "plate"]%string ∧
    Forall (fun wn => wn.1 ∈ tank_words ∧ encloses tank_callout wn.1) matched.
Proof.
  destruct (match_callout_encloses ["3"; "plate"]%string tank_words tank_callout) as [_ H].
  - vm_compute. reflexivity.
  - exact H.
Defined.

(** ** The lookups *)

Lemma first_some_Some {A B : Type} (f : A → option B) l y :
  first_some f l = Some y → ∃ x, x ∈ l ∧ f x = Some y.
Proof.
  induction l as [|x l IH]; simpl; [done|].
  destruct (f x) as [y'|] eqn:E.
  - intros [= <-]. exists x. split; [left|done].
  - intros (x' & Hx' & Hf)%IH. exists x'. split; [by right|done].
Qed.

Lemma pick_candidate_elem candidates expected prefer_max tolerance v mode :
  _pick_candidate candidates expected prefer_max tolerance = (Some v, mode) →
  v ∈ candidates.
Proof.
  unfold _pick_candidate. destruct candidates as [|c0 rest]; [done|].
  destruct expected as [e|]; [destruct prefer_max|].
  - destruct (List.find _ _) as [v'|] eqn:E.
    + intros [= <- _]. apply find_some in E as [E _].
      apply list_elem_of_In in E.
      by apply (proj1 (elem_of_sorted_key_reverse (fun v : Q => v) v' (c0 :: rest))) in E.
    + intros [= H _]. apply head_elem_of in H.
      by apply (proj1 (elem_of_sorted_key_reverse (fun v : Q => v) v (c0 :: rest))) in H.
  - intros [= <- _]. apply min_key_spec.
  - intros [= H _]. apply head_elem_of in H.
    by apply (proj1 (elem_of_sorted_key_reverse (fun v : Q => v) v (c0 :: rest))) in H.
Qed.

Lemma pick_candidate_None candidates expected prefer_max tolerance mode :
  _pick_candidate candidates expected prefer_max tolerance = (None, mode) →
  candidates = [].
Proof.
  unfold _pick_candidate. destruct candidates as [|c0 rest]; [done|].
  assert (Hhead : head (sorted_reverse (c0 :: rest)) ≠ None).
  { destruct (head_sorted_key_reverse (fun v : Q => v) (c0 :: rest)) as (m & Hm & _); [done|].
    unfold sorted_reverse. by rewrite Hm. }
  destruct expected as [e|]; [destruct prefer_max|].
  - destruct (List.find _ _); [done|]. by intros [= H _].
  - done.
  - by intros [= H _].
Qed.

Lemma search_group1_chars r1 r2 prev l m :
  search_group1 r1 r2 prev l = Some m → Forall (fun c => chars_of r1 c = true) m.
Proof.
  revert prev. induction l as [|c l IH]; intros prev; simpl.
  - destruct (head _) as [m1|] eqn:E; [|done]. intros [= <-].
    apply head_elem_of, list_elem_of_In, in_flat_map in E as ([m1' l1] & Hin & Hm).
    apply in_map_iff in Hm as (x & <- & _).
    apply list_elem_of_In, run_reads in Hin as [_ H]. done.
  - destruct (head _) as [m1|] eqn:E.
    + intros [= <-].
      apply head_elem_of, list_elem_of_In, in_flat_map in E as ([m1' l1] & Hin & Hm).
      apply in_map_iff in Hm as (x & <- & _).
      apply list_elem_of_In, run_reads in Hin as [_ H]. done.
    + apply IH.
Qed.

Lemma explicit_mm_value_nonneg lines v : explicit_mm_value lines = Some v → (0 <= v)%Q.
Proof.
  unfold explicit_mm_value. intros (cand & _ & H)%first_some_Some.
  unfold search_mm in H. destruct (search_group1 _ _ _ _) as [m|] eqn:E; [|done].
  simpl in H. apply search_group1_chars in E.
  eapply (py_float_nonneg_chars (chars_of grouped_number_re)); [reflexivity| |exact H].
  apply str_replace_Forall; [constructor|]. apply str_replace_Forall; [constructor|].
  by rewrite chars_str.
Qed.

Lemma text_line_value_sound lines desc expected prefer_max value candidates mode :
  text_line_value lines desc expected prefer_max = (value, candidates, mode) →
  match value with
  | Some v => v ∈ candidates ∧ (0 <= v)%Q
  | None => candidates = []
  end.
Proof.
  unfold text_line_value.
  destruct (explicit_mm_value lines) as [x|] eqn:Ex.
  - destruct (_pick_candidate [x] _ _ _) as [best m] eqn:Ep. intros [= <- <- <-].
    destruct best as [v|].
    + apply pick_candidate_elem in Ep as Hv. split; [done|].
      apply list_elem_of_singleton in Hv as ->. by apply explicit_mm_value_nonneg in Ex.
    + by apply pick_candidate_None in Ep.
  - destruct (nonempty _) eqn:En.
    + destruct (_pick_candidate _ _ _ _) as [best m] eqn:Ep. intros [= <- <- <-].
      destruct best as [v|].
      * apply pick_candidate_elem in Ep as Hv. split; [done|].
        apply elem_of_sorted_key_reverse, elem_of_text_numbers in Hv as (Hv & _).
        apply list_elem_of_In, in_flat_map in Hv as (line & _ & Hv).
        by apply list_elem_of_In, numeric_value_nonneg in Hv.
      * by apply pick_candidate_None in Ep.
    + by intros [= <- <- <-].
Qed.

Lemma candidate_pages_positive self tv p :
  p ∈ _candidate_pages_for_tokens self tv → 1 ≤ p.
Proof.
  unfold _candidate_pages_for_tokens. destruct (negb _); [by intros ?%elem_of_nil|].
  intros ([i text] & _ & H)%list_elem_of_omap. destruct (existsb _ _); [|done].
  injection H as <-. lia.
Qed.

Lemma find_length_boxes words bbox desc tokens v :
  v ∈ (_find_length_above_bbox words bbox desc tokens).1 →
  is_Some (bbox_of_value (_find_length_above_bbox words bbox desc tokens).2 v).
Proof.
  unfold _find_length_above_bbox.
  destruct words as [|w0 ws]; [by intros ?%elem_of_nil|].
  destruct bbox as [bbox|]; [|by intros ?%elem_of_nil].
  destruct (negb (nonempty (group_lines _ _))); [by intros ?%elem_of_nil|].
  destruct (negb (nonempty (window_entries _ _ _ _))); [by intros ?%elem_of_nil|].
  intros Hv. apply order_entries_from in Hv as (e & He & <-).
  by apply bbox_of_value_Some, order_entries_boxes.
Qed.

Lemma geometry_lookup_sound fmt self tv desc expected prefer_max base_length base_tokens :
  sound_lookup (length (App.page_words self))
    (_geometry_lookup fmt self tv desc expected prefer_max base_length base_tokens).
Proof.
  unfold _geometry_lookup.
  destruct (negb (nonempty (App.page_words self))); [done|].
  destruct (negb (nonempty (_normalize_token_variants tv))); [done|].
  set (pages := if nonempty _ then _ else _).
  assert (Hpages : ∀ p, p ∈ pages → 1 ≤ p).
  { intros p. unfold pages. destruct (nonempty _).
    - apply candidate_pages_positive.
    - intros ?%list_elem_of_In%in_seq. lia. }
  destruct (first_some _ pages) as [[[[p words] bbox] tokens]|] eqn:E; [|done].
  apply first_some_Some in E as (p' & Hp' & E).
  destruct (App.page_words self !! (p' - 1)%nat) as [words'|] eqn:El; [|done].
  destruct (match_outside_tables _ _ _ _) as [[bbox' tokens']|]; [|done].
  injection E as -> -> -> ->.
  pose proof (find_length_boxes words (Some bbox) desc tokens) as Hbox.
  destruct (_find_length_above_bbox _ _ _ _) as [candidates boxes]. simpl in Hbox.
  destruct (_pick_candidate _ _ _ _) as [best mode] eqn:Ep.
  destruct (_extract_quantity_from_tokens _ _ _) as [qv ql].
  simpl. split.
  { exists p. split; [done|]. split; [by apply Hpages|].
    apply lookup_lt_Some in El. specialize (Hpages p Hp'). lia. }
  split; [by left|]. split; [by eexists|]. split; [split; [by eexists|done]|].
  destruct best as [v|]; simpl.
  - apply pick_candidate_elem in Ep. split; [done|]. split; [|done]. intros _. by apply Hbox.
  - by apply pick_candidate_None in Ep.
Qed.

Lemma text_lookup_sound fmt self tv desc expected prefer_max base_length base_tokens :
  sound_lookup (length (App.page_texts self))
    (_text_lookup fmt self tv desc expected prefer_max base_length base_tokens).
Proof.
  unfold _text_lookup.
  destruct (negb (nonempty (App.page_texts self))); [done|].
  destruct (negb (nonempty (_normalize_token_variants tv))); [done|].
  destruct (first_some _ _) as [[[p tokens] lines]|] eqn:E; [|done].
  apply first_some_Some in E as ([i text] & Hi & E).
  destruct (first_text_hit _ _) as [[tokens' lines']|]; [|done].
  injection E as <- -> ->.
  apply elem_of_enumerate in Hi.
  destruct (_extract_quantity_from_tokens _ _ _) as [qv ql].
  destruct (text_line_value _ _ _ _) as [[best candidates] mode] eqn:Et.
  apply text_line_value_sound in Et.
  simpl. split.
  { exists (S i). split; [done|]. apply lookup_lt_Some in Hi. lia. }
  split; [by right|]. split; [by eexists|].
  split; [split; [done|by intros [? ?]]|].
  destruct best as [v|]; simpl; [|done].
  destruct Et as [Hv Hpos]. split; [done|]. split; [done|]. done.
Qed.

Lemma sound_lookup_mono n m res : n ≤ m → sound_lookup n res → sound_lookup m res.
Proof.
  intros Hnm. destruct res as [[[found value] page] meta]. simpl.
  destruct found; [|done]. intros ((p & Hp & Hb) & H). split; [|done].
  exists p. split; [done|lia].
Qed.

Lemma find_value_for_row_sound fmt self pos desc expected prefer_max qt qv :
  sound_lookup (page_count self)
    (_find_value_for_row fmt self pos desc expected prefer_max qt qv).
Proof.
  unfold _find_value_for_row.
  destruct (build_callout_token_variants _ _ _ _ _) as [tv base_tokens].
  pose proof (geometry_lookup_sound fmt self tv (extract_numeric_values desc) expected
                prefer_max (length base_tokens) base_tokens) as Hg.
  destruct (_geometry_lookup _ _ _ _ _ _ _ _) as [[[found value] page] meta].
  destruct found.
  - eapply sound_lookup_mono; [|exact Hg]. unfold page_count. lia.
  - eapply sound_lookup_mono; [|apply text_lookup_sound]. unfold page_count. lia.
Qed.

(** X10. The answer of the lookup for a row. Without a callout it has no
    value, no page and an empty [meta]. With a callout it names a page of
    the document and its method, geometry or text, and it has a callout box
    exactly when the method is geometry. A value is one of the candidates
    reported; it has a box when the method is geometry, and it is not
    negative when the method is text. Without a value there are no
    candidates. *)
Theorem find_value_for_row_answer fmt (self : App.t) (pos desc : string)
    (expected_value : option Q) (prefer_max : bool)
    (quantity_text : option string) (quantity_value : option Q) :
  let '(found, value, page, meta) :=
    _find_value_for_row fmt self pos desc expected_value prefer_max
      quantity_text quantity_value in
  if found then
    (∃ p, page = Some p ∧ 1 ≤ p ≤ page_count self) ∧
    (Meta.method meta = Some "geometry"%string ∨ Meta.method meta = Some "text"%string) ∧
    is_Some (Meta.tokens meta) ∧
    (Meta.method meta = Some "geometry"%string ↔ is_Some (Meta.bbox meta)) ∧
    match value with
    | Some v =>
        v ∈ Meta.candidates meta ∧
        (Meta.method meta = Some "geometry"%string → is_Some (Meta.value_bbox meta)) ∧
        (Meta.method meta = Some "text"%string → (0 <= v)%Q)
    | None => Meta.candidates meta = [] ∧ Meta.value_bbox meta = None
    end
  else value = None ∧ page = None ∧ meta = Meta.empty.
Proof.
  pose proof (find_value_for_row_sound fmt self pos desc expected_value prefer_max
                quantity_text quantity_value) as H.
  unfold sound_lookup in H.
  by destruct (_find_value_for_row _ _ _ _ _ _ _ _) as [[[found value] page] meta].
Qed.

(** ** The callout does not depend on the value sought *)

Lemma geometry_callout_part fmt self tv desc e1 pm1 e2 pm2 bl bt :
  callout_part (_geometry_lookup fmt self tv desc e1 pm1 bl bt) =
  callout_part (_geometry_lookup fmt self tv desc e2 pm2 bl bt).
Proof.
  unfold _geometry_lookup.
  destruct (negb (nonempty (App.page_words self))); [done|].
  destruct (negb (nonempty (_normalize_token_variants tv))); [done|].
  destruct (first_some _ _) as [[[[p words] bbox] tokens]|]; [|done].
  destruct (_find_length_above_bbox _ _ _ _) as [candidates boxes].
  destruct (_pick_candidate candidates e1 pm1 _) as [b1 m1].
  destruct (_pick_candidate candidates e2 pm2 _) as [b2 m2].
  by destruct (_extract_quantity_from_tokens _ _ _) as [qv ql].
Qed.

Lemma text_callout_part fmt self tv desc e1 pm1 e2 pm2 bl bt :
  callout_part (_text_lookup fmt self tv desc e1 pm1 bl bt) =
  callout_part (_text_lookup fmt self tv desc e2 pm2 bl bt).
Proof.
  unfold _text_lookup.
  destruct (negb (nonempty (App.page_texts self))); [done|].
  destruct (negb (nonempty (_normalize_token_variants tv))); [done|].
  destruct (first_some _ _) as [[[p tokens] lines]|]; [|done].
  destruct (_extract_quantity_from_tokens _ _ _) as [qv ql].
  destruct (text_line_value lines desc e1 pm1) as [[b1 c1] m1].
  by destruct (text_line_value lines desc e2 pm2) as [[b2 c2] m2].
Qed.

Lemma callout_part_found res res' :
  callout_part res = callout_part res' → res.1.1.1 = res'.1.1.1.
Proof.
  destruct res as [[[f v] p] m], res' as [[[f' v'] p'] m']. simpl. by intros [= -> _].
Qed.

Lemma find_value_callout_part fmt self pos desc e1 pm1 e2 pm2 qt qv :
  callout_part (_find_value_for_row fmt self pos desc e1 pm1 qt qv) =
  callout_part (_find_value_for_row fmt self pos desc e2 pm2 qt qv).
Proof.
  unfold _find_value_for_row.
  destruct (build_callout_token_variants _ _ _ _ _) as [tv base_tokens].
  pose proof (geometry_callout_part fmt self tv (extract_numeric_values desc)
                e1 pm1 e2 pm2 (length base_tokens) base_tokens) as Hg.
  pose proof (callout_part_found _ _ Hg) as Hf.
  destruct (_geometry_lookup _ _ _ _ e1 _ _ _) as [[[f1 v1] p1] m1].
  destruct (_geometry_lookup _ _ _ _ e2 _ _ _) as [[[f2 v2] p2] m2].
  simpl in Hf. subst f2. destruct f1; [done|]. apply text_callout_part.
Qed.

(** X11. Whether the callout of a row is found, on which page, by which
    method, with which box and tokens, and the quantity read from it, are
    the same whatever value is expected and whichever way the choice among
    the candidates leans: the expected value and [prefer_max] bear on the
    value and the candidates only. *)
Theorem callout_independent_of_expected fmt (self : App.t) (pos desc : string)
    (e1 e2 : option Q) (pm1 pm2 : bool)
    (quantity_text : option string) (quantity_value : option Q) :
  let '(found1, _, page1, meta1) :=
    _find_value_for_row fmt self pos desc e1 pm1 quantity_text quantity_value in
  let '(found2, _, page2, meta2) :=
    _find_value_for_row fmt self pos desc e2 pm2 quantity_text quantity_value in
  found1 = found2 ∧ page1 = page2 ∧
  Meta.method meta1 = Meta.method meta2 ∧
  Meta.bbox meta1 = Meta.bbox meta2 ∧
  Meta.tokens meta1 = Meta.tokens meta2 ∧
  Meta.quantity_tokens meta1 = Meta.quantity_tokens meta2 ∧
  Meta.quantity_value meta1 = Meta.quantity_value meta2 ∧
  Meta.quantity_label meta1 = Meta.quantity_label meta2.
Proof.
  pose proof (find_value_callout_part fmt self pos desc e1 pm1 e2 pm2
                quantity_text quantity_value) as H.
  destruct (_find_value_for_row _ _ _ _ e1 _ _ _) as [[[f1 v1] p1] m1].
  destruct (_find_value_for_row _ _ _ _ e2 _ _ _) as [[[f2 v2] p2] m2].
  simpl in H. injection H as -> -> -> -> -> -> -> ->. done.
Qed.

(** ** The comparator on the answers of the lookups *)

(** The two answers [compare_row] works from. *)
Lemma compare_row_lookups fmt engine i row :
  let r := compare_row fmt engine i row in
  let lres := length_lookup fmt engine row in
  let tres := thickness_lookup fmt engine row in
  Result.callout_found r = lres.1.1.1 || tres.1.1.1 ∧
  Result.thickness_required r = bool_decide (is_Some (Row.thickness row)) ∧
  Result.thickness_callout_found r = tres.1.1.1 ∧
  (Result.drawing_length r, Result.drawing_page r, Result.drawing_method r,
   Result.candidate_lengths r, Result.callout_bbox r, Result.length_bbox r)
    = (lres.1.1.2, lres.1.2, Meta.method lres.2, Meta.candidates lres.2,
       Meta.bbox lres.2, Meta.value_bbox lres.2) ∧
  (Result.drawing_thickness r, Result.thickness_page r, Result.thickness_method r,
   Result.candidate_thicknesses r, Result.thickness_bbox r)
    = (tres.1.1.2, tres.1.2, Meta.method tres.2, Meta.candidates tres.2,
       Meta.value_bbox tres.2).
Proof.
  unfold compare_row, find_length_for_row, find_thickness_for_row,
    length_lookup, thickness_lookup, expected_lengths, row_quantity_text.
  cbv zeta.
  destruct (engine (Row.pos row) (Row.description row) _ true _ _) as [[[lc dl] lp] lm].
  destruct (Row.thickness row) as [t|].
  - cbn [bool_decide decide_rel is_Some_dec].
    by destruct (engine (Row.pos row) (Row.description row) (Some t) false _ _)
      as [[[tc dt] tp] tm].
  - done.
Qed.

Lemma compare_row_conflict_note fmt engine i row :
  "qty conflict detected in callout"%string ∈ Result.info_notes (compare_row fmt engine i row) →
  ∃ a b, Meta.quantity_value (length_lookup fmt engine row).2 = Some a ∧
         Meta.quantity_value (thickness_lookup fmt engine row).2 = Some b ∧
         (1e-6 < Qabs (num_val b - num_val a))%Q.
Proof.
  unfold compare_row, find_length_for_row, find_thickness_for_row,
    length_lookup, thickness_lookup, expected_lengths, row_quantity_text.
  cbv zeta.
  destruct (engine (Row.pos row) (Row.description row) _ true _ _) as [[[lc dl] lp] lm].
  assert (Hrest : ∀ (b : bool) (l : list string),
            "qty conflict detected in callout"%string ∈ (if b then l else []) →
            "qty conflict detected in callout"%string ∈ l).
  { intros [] l; [done|by intros ?%elem_of_nil]. }
  destruct (Row.thickness row) as [t|].
  - cbn [bool_decide decide_rel is_Some_dec].
    destruct (engine (Row.pos row) (Row.description row) (Some t) false _ _)
      as [[[tc dt] tp] tm].
    cbn [Result.info_notes fst snd].
    intros [H|H]%elem_of_app.
    + destruct (Meta.quantity_value lm) as [a|], (Meta.quantity_value tm) as [b|];
        simpl in H; try (by apply elem_of_nil in H).
      destruct (Qltb _ _) eqn:E; simpl in H; [|by apply elem_of_nil in H].
      exists a, b. split; [done|]. split; [done|]. by apply Qltb_lt in E.
    + exfalso. apply Hrest in H.
      repeat match type of H with
             | _ ∈ _ ++ _ => apply elem_of_app in H as [H|H]
             | _ ∈ (if ?b then _ else _) => destruct b
             | _ ∈ [] => by apply elem_of_nil in H
             | _ ∈ [_] => apply list_elem_of_singleton in H; discriminate H
             | _ ∈ (let _ := _ in _) => cbv zeta in H
             end.
  - cbn [bool_decide decide_rel is_Some_dec Result.info_notes fst snd].
    intros [H|H]%elem_of_app.
    + destruct (Meta.quantity_value lm) as [a|]; simpl in H; by apply elem_of_nil in H.
    + exfalso. apply Hrest in H.
      repeat match type of H with
             | _ ∈ _ ++ _ => apply elem_of_app in H as [H|H]
             | _ ∈ (if ?b then _ else _) => destruct b
             | _ ∈ [] => by apply elem_of_nil in H
             | _ ∈ [_] => apply list_elem_of_singleton in H; discriminate H
             | _ ∈ (let _ := _ in _) => cbv zeta in H
             end.
Qed.

Lemma Qabs_self_small (x : Q) : ¬ (1e-6 < Qabs (x - x))%Q.
Proof.
  intros H. assert (E : (x - x == 0)%Q) by ring. rewrite E in H. vm_compute in H. discriminate H.
Qed.

(** X12. The verdicts the comparator reaches on the answers of the
    lookups. Without a callout a verdict has no drawing length, no drawing
    thickness, no page, no candidate and no box. A drawing length comes
    with a callout, is one of the candidate lengths, and names a page of
    the document; found by geometry it has its box and the box of the
    callout, found in the text it is not negative. A drawing thickness comes
    with a callout, on a row that declares a thickness, and is one of the
    candidate thicknesses. *)
Theorem verdicts_on_lookups fmt (self : App.t) (rows : list Row.t) :
  Forall (fun r =>
    (Result.callout_found r = false →
       Result.drawing_length r = None ∧ Result.drawing_thickness r = None ∧
       Result.drawing_page r = None ∧ Result.candidate_lengths r = [] ∧
       Result.callout_bbox r = None ∧ Result.length_bbox r = None) ∧
    (∀ d, Result.drawing_length r = Some d →
       Result.callout_found r = true ∧ d ∈ Result.candidate_lengths r ∧
       (∃ p, Result.drawing_page r = Some p ∧ 1 ≤ p ≤ page_count self) ∧
       (Result.drawing_method r = Some "geometry"%string →
          is_Some (Result.length_bbox r) ∧ is_Some (Result.callout_bbox r)) ∧
       (Result.drawing_method r = Some "text"%string → (0 <= d)%Q)) ∧
    (∀ t, Result.drawing_thickness r = Some t →
       Result.thickness_required r = true ∧ Result.callout_found r = true ∧
       t ∈ Result.candidate_thicknesses r))
    (compare_rows fmt (_find_value_for_row fmt self) rows).
Proof.
  apply compare_rows_Forall. intros i row.
  destruct (compare_row_lookups fmt (_find_value_for_row fmt self) i row)
    as (Hc & Hreq & _ & Hl & Ht).
  injection Hl as -> -> -> -> -> ->. injection Ht as -> _ _ -> _.
  rewrite Hc, Hreq. clear Hc Hreq.
  assert (Hls : sound_lookup (page_count self)
                  (length_lookup fmt (_find_value_for_row fmt self) row))
    by apply find_value_for_row_sound.
  assert (Hts : sound_lookup (page_count self)
                  (thickness_lookup fmt (_find_value_for_row fmt self) row)).
  { unfold thickness_lookup. destruct (Row.thickness row); [|done].
    apply find_value_for_row_sound. }
  assert (Hthk : ∀ t, (thickness_lookup fmt (_find_value_for_row fmt self) row).1.1.2 = Some t →
                      is_Some (Row.thickness row)).
  { unfold thickness_lookup. destruct (Row.thickness row); [by eexists|done]. }
  destruct (length_lookup _ _ _) as [[[lc dl] lp] lm].
  destruct (thickness_lookup _ _ _) as [[[tc dt] tp] tm].
  simpl in *. split; [|split].
  - intros [-> ->]%orb_false_iff. destruct Hls as (-> & -> & ->), Hts as (-> & _ & _). done.
  - intros d ->. destruct lc; [|by destruct Hls].
    destruct Hls as (Hp & _ & _ & Hb & Hd & Hvb & Hpos).
    split; [done|]. split; [done|]. split; [done|]. split; [|done].
    intros Hm. split; [by apply Hvb|by apply Hb].
  - intros t ->. destruct tc; [|by destruct Hts].
    destruct Hts as (_ & _ & _ & _ & Hd & _).
    split; [|split; [by rewrite orb_true_r|done]].
    apply bool_decide_eq_true. by apply (Hthk t).
Qed.

(** X13. For a row that declares a thickness the lookup of the thickness
    finds the callout exactly when the lookup of the length finds it, on the
    same page and by the same method; and the two lookups read the same
    quantity, so the comparator never notes a quantity conflict. *)
Theorem one_callout_per_row fmt (self : App.t) (rows : list Row.t) :
  Forall (fun r =>
    (Result.thickness_required r = true →
       Result.thickness_callout_found r = Result.callout_found r ∧
       Result.thickness_page r = Result.drawing_page r ∧
       Result.thickness_method r = Result.drawing_method r) ∧
    "qty conflict detected in callout"%string ∉ Result.info_notes r)
    (compare_rows fmt (_find_value_for_row fmt self) rows).
Proof.
  apply compare_rows_Forall. intros i row.
  assert (Hsame : ∀ t, Row.thickness row = Some t →
            callout_part (length_lookup fmt (_find_value_for_row fmt self) row) =
            callout_part (thickness_lookup fmt (_find_value_for_row fmt self) row)).
  { intros t Ht. unfold length_lookup, thickness_lookup. rewrite Ht.
    apply find_value_callout_part. }
  split.
  - destruct (compare_row_lookups fmt (_find_value_for_row fmt self) i row)
      as (Hc & Hreq & Htc & Hl & Ht).
    injection Hl as _ -> -> _ _ _. injection Ht as _ -> -> _ _.
    rewrite Hc, Hreq, Htc. intros [t Hthk]%bool_decide_eq_true.
    specialize (Hsame t Hthk).
    destruct (length_lookup _ _ _) as [[[lc dl] lp] lm].
    destruct (thickness_lookup _ _ _) as [[[tc dt] tp] tm].
    simpl in *. injection Hsame as -> -> -> _ _ _ _ _. by rewrite orb_diag.
  - intros (a & b & Ha & Hb & Hab)%compare_row_conflict_note.
    assert (∃ t, Row.thickness row = Some t) as [t Hthk].
    { unfold thickness_lookup in Hb. destruct (Row.thickness row); [by eexists|done]. }
    specialize (Hsame t Hthk).
    destruct (length_lookup _ _ _) as [[[lc dl] lp] lm].
    destruct (thickness_lookup _ _ _) as [[[tc dt] tp] tm].
    simpl in *. injection Hsame as _ _ _ _ _ _ Hq _.
    rewrite Ha, Hb in Hq. injection Hq as ->. by apply Qabs_self_small in Hab.
Qed.

Lemma join_nonempty sep (parts : list string) :
  parts ≠ [] → Forall (fun s => s ≠ ""%string) parts → join sep parts ≠ ""%string.
Proof.
  intros Hne Hall. destruct parts as [|s parts]; [done|].
  apply Forall_cons in Hall as [Hs _].
  destruct (chars_join_head sep s parts) as [rest Hrest].
  intros E. rewrite E in Hrest. destruct s; [done|]. done.
Qed.

Lemma compare_row_reasons fmt engine i row :
  (∀ v, format_1f fmt v ≠ ""%string) →
  let r := compare_row fmt engine i row in
  Result.status r = "PASS"%string ↔ Result.failure_reasons r = [].
Proof.
  intros Hfmt.
  unfold compare_row, find_length_for_row, find_thickness_for_row. cbv zeta.
  destruct (engine (Row.pos row) (Row.description row) _ true _ _) as [[[lc dl] lp] lm].
  set (expected := if nonempty (Row.length_options row) then _ else _).
  assert (Hnote : nonempty expected = true →
            ∃ c s, (if truthy (Row.length_display row)
                    then default ""%string (Row.length_display row)
                    else join " / " (map (format_1f fmt) expected)) = String c s).
  { intros Hne. destruct (Row.length_display row) as [[|c s]|] eqn:E; simpl; [|by eexists _, _|].
    all: destruct (join " / " (map (format_1f fmt) expected)) as [|c s] eqn:Ej; [|by eexists _, _].
    all: exfalso; revert Ej; apply join_nonempty; [by destruct expected|].
    all: apply Forall_forall; intros s [v [<- _]]%list_elem_of_In%in_map_iff; apply Hfmt. }
  destruct (Row.thickness row) as [t|].
  - cbn [bool_decide decide_rel is_Some_dec].
    destruct (engine (Row.pos row) (Row.description row) (Some t) false _ _)
      as [[[tc dt] tp] tm].
    cbn [Result.status Result.failure_reasons].
    destruct (Row._pos_duplicate row); [by rewrite !andb_false_r|].
    destruct (lc || tc); [|done]. cbn [negb andb orb app].
    destruct dl as [d|]; cbn [bool_decide decide_rel is_Some_dec negb andb orb].
    + destruct (nonempty expected) eqn:Ene.
      * destruct (Hnote eq_refl) as (c & s & ->).
        destruct (existsb _ expected); cbn [negb andb orb app].
        -- destruct dt as [dt|]; cbn; [destruct (within _ _ _)|]; done.
        -- done.
      * cbn. destruct dt as [dt|]; cbn; [destruct (within _ _ _)|]; done.
    + destruct (nonempty expected) eqn:Ene; cbn.
      * repeat case_match; done.
      * destruct dt as [dt|]; cbn; [destruct (within _ _ _)|]; done.
  - cbn [bool_decide decide_rel is_Some_dec Result.status Result.failure_reasons].
    destruct (Row._pos_duplicate row); [by rewrite !andb_false_r|].
    destruct lc; [|done]. cbn [negb andb orb app].
    destruct dl as [d|]; cbn [bool_decide decide_rel is_Some_dec negb andb orb].
    + destruct (nonempty expected) eqn:Ene.
      * destruct (Hnote eq_refl) as (c & s & ->).
        destruct (existsb _ expected); cbn [negb andb orb app]; done.
      * done.
    + destruct (nonempty expected) eqn:Ene; cbn; [|done].
      repeat case_match; done.
Qed.

Lemma format_fixed1_nonempty (v : Q) : format_fixed1 v ≠ ""%string.
Proof.
  unfold format_fixed1. intros E.
  apply (f_equal chars) in E. rewrite !chars_append in E.
  apply app_eq_nil in E as [_ E]. apply app_eq_nil in E as [_ E].
  by apply app_eq_nil in E as [E _].
Qed.

(** X14. When the formatting of a number is never the empty text, as
    Python's is not, a verdict is PASS exactly when it lists no failure
    reason: every failing row says why it fails. *)
Theorem verdict_pass_iff_no_reason fmt engine (rows : list Row.t) :
  (∀ v, format_1f fmt v ≠ ""%string) →
  Forall (fun r => Result.status r = "PASS"%string ↔ Result.failure_reasons r = [])
         (compare_rows fmt engine rows).
Proof.
  intros Hfmt. apply compare_rows_Forall. intros i row.
  by apply compare_row_reasons.
Qed.

Lemma verdict_pass_iff_no_reason_witness :
  Forall (fun r => Result.status r = "PASS"%string ↔ Result.failure_reasons r = [])
         (compare_rows whole_number_format
            (_find_value_for_row whole_number_format short_plate_app)
            [plate_row "3" 1]).
Proof.
  apply (verdict_pass_iff_no_reason whole_number_format
           (_find_value_for_row whole_number_format short_plate_app) [plate_row "3" 1]).
  intros v. simpl. apply format_fixed1_nonempty.
Defined.

(** ** Candidate selection never passes over a match *)

(** X15. When some candidate lies within the tolerance of the expected
    value, the candidate selected lies within the tolerance too, whichever
    way the choice leans. *)
Theorem pick_candidate_keeps_match (candidates : list Q) (expected : Q)
    (prefer_max : bool) (tolerance : Q) (c : Q) :
  c ∈ candidates → (Qabs (c - expected) <= tolerance)%Q →
  ∃ v mode, _pick_candidate candidates (Some expected) prefer_max tolerance = (Some v, mode) ∧
            v ∈ candidates ∧ (Qabs (v - expected) <= tolerance)%Q.
Proof.
  intros Hc Htol. unfold _pick_candidate.
  destruct candidates as [|c0 rest]; [by apply elem_of_nil in Hc|].
  destruct prefer_max.
  - destruct (List.find _ _) as [v|] eqn:E.
    + exists v, "match_expected"%string. split; [done|].
      apply find_some in E as [Hin Hv]. apply list_elem_of_In in Hin.
      apply (proj1 (elem_of_sorted_key_reverse (fun v : Q => v) v (c0 :: rest))) in Hin.
      split; [done|]. by apply Qle_bool_iff.
    + exfalso.
      apply (proj2 (elem_of_sorted_key_reverse (fun v : Q => v) c (c0 :: rest))) in Hc.
      apply (find_none_all _ _ E c) in Hc.
      apply not_true_iff_false in Hc. apply Hc. by apply Qle_bool_iff.
  - destruct (min_key_spec (fun v => (Qabs (v - expected), - v)%Q) rest c0) as [Hin Hmin].
    eexists _, _. split; [reflexivity|]. split; [exact Hin|].
    specialize (Hmin c Hc). apply pair_ltb_false in Hmin. lra.
Qed.

Lemma pick_candidate_keeps_match_witness :
  ∃ v mode, _pick_candidate [12; 250; 249.8]%Q (Some 250%Q) false 0.5 = (Some v, mode) ∧
            v ∈ [12; 250; 249.8]%Q ∧ (Qabs (v - 250) <= 0.5)%Q.
Proof.
  apply (pick_candidate_keeps_match [12; 250; 249.8]%Q 250 false 0.5 249.8).
  - right. right. left.
  - vm_compute. discriminate.
Defined.

(** ** The quantity read from a callout *)

Lemma py_round_nonneg (v : Q) : (0 <= v)%Q → (0 <= py_round v)%Z.
Proof.
  intros Hv. unfold py_round.
  assert (0 <= Qfloor v)%Z by (change 0%Z with (Qfloor 0); by apply Qfloor_resp_le).
  repeat case_match; lia.
Qed.

Lemma add_candidate_proper fmt acc value unit weight :
  (∀ v, value = Some v → (0 <= v)%Q) →
  Forall (fun c => proper_quantity c.1.2) acc.1 →
  Forall (fun c => proper_quantity c.1.2) (add_candidate fmt acc value unit weight).1.
Proof.
  intros Hv Hacc. unfold add_candidate. destruct value as [v|]; [|done].
  specialize (Hv v eq_refl).
  destruct (existsb _ _); [done|]. simpl.
  apply Forall_app. split; [done|]. constructor; [|constructor]. simpl.
  destruct (Qltb _ _) eqn:E; split; simpl; try done.
  - change 0%Q with (inject_Z 0). rewrite <- Zle_Qle. by apply py_round_nonneg.
  - by apply Qltb_ge in E.
Qed.

Lemma match_combo_number tok prefix number suffix :
  match_combo tok = Some (prefix, number, suffix) →
  Forall (fun c => chars_of number_re c = true) (chars number).
Proof.
  unfold match_combo. intros H%head_elem_of.
  apply list_elem_of_In, in_flat_map in H as ([m1 l1] & _ & H).
  apply in_flat_map in H as ([m2 l2] & Hm2 & H).
  apply in_flat_map in H as ([m3 l3] & _ & H).
  destruct (nonempty l3); [done|]. destruct H as [[= _ <- _]|[]].
  rewrite chars_str. by apply list_elem_of_In, run_reads in Hm2 as [_ ?].
Qed.

Lemma number_text_nonneg (r : regex) (s : string) (v : Q) :
  chars_of r "-"%char = false →
  Forall (fun c => chars_of r c = true) (chars s) → py_float s = Some v → (0 <= v)%Q.
Proof. intros Hr Hs. by apply (py_float_nonneg_chars (chars_of r)). Qed.

Lemma quantity_token_step_proper fmt quantity_tokens acc it :
  Forall (fun c => proper_quantity c.1.2) acc.1 →
  Forall (fun c => proper_quantity c.1.2) (quantity_token_step fmt quantity_tokens acc it).1.
Proof.
  intros Hacc. destruct it as [idx tok]. unfold quantity_token_step.
  destruct (negb (nonempty (chars tok))); [done|].
  assert (H1 : ∀ p n s v, match_combo tok = Some (p, n, s) → py_float n = Some v → (0 <= v)%Q).
  { intros p n s v Hm. apply (number_text_nonneg number_re); [done|].
    by apply match_combo_number in Hm. }
  assert (H2 : ∀ s v, re_fullmatch number_re s = true → py_float s = Some v → (0 <= v)%Q).
  { intros s v Hm. apply (number_text_nonneg number_re); [done|].
    by apply re_fullmatch_chars. }
  assert (H3 : ∀ l nb v, List.find (re_fullmatch number_re) l = Some nb →
                         py_float nb = Some v → (0 <= v)%Q).
  { intros l nb v [_ Hf]%find_some. by apply H2. }
  assert (H4 : ∀ v, re_fullmatch (Seq number_re (Lit "x")) tok = true →
                    py_float (str_drop_end 1 tok) = Some v → (0 <= v)%Q).
  { intros v Hm. apply (number_text_nonneg (Seq number_re (Lit "x"))); [done|].
    unfold str_drop_end. rewrite chars_str. apply Forall_take. by apply re_fullmatch_chars. }
  assert (H5 : ∀ v, re_fullmatch (Seq (Lit "x") number_re) tok = true →
                    py_float (str (drop 1 (chars tok))) = Some v → (0 <= v)%Q).
  { intros v Hm. apply (number_text_nonneg (Seq (Lit "x") number_re)); [done|].
    rewrite chars_str. apply Forall_drop. by apply re_fullmatch_chars. }
  destruct (match_combo tok) as [[[prefix number] suffix]|] eqn:Ec.
  - specialize (H1 prefix number suffix).
    repeat case_match; simplify_eq;
      repeat (apply add_candidate_proper; eauto); try exact Hacc.
  - repeat case_match; simplify_eq;
      repeat (apply add_candidate_proper; eauto); try exact Hacc.
Qed.

Lemma common_prefix_len_app (l rest : list string) :
  common_prefix_len (l ++ rest) l = length l.
Proof. induction l as [|t l IH]; simpl; [by destruct rest|]. by rewrite String.eqb_refl, IH. Qed.

Lemma List_filter_app {A : Type} (p : A → bool) (l1 l2 : list A) :
  List.filter p (l1 ++ l2) = List.filter p l1 ++ List.filter p l2.
Proof. apply List.filter_app. Qed.

(** X16. The quantity read from the tokens of a callout. A value and its
    label come together or not at all; a value is never negative, and it is
    an [int] whenever it is within 1e-6 of a whole number; and when the
    tokens matched are no more than the first base tokens, no quantity is
    read. *)
Theorem quantity_from_tokens fmt (matched_tokens base_tokens : list string) :
  let '(value, label) := _extract_quantity_from_tokens fmt matched_tokens base_tokens in
  (value = None ↔ label = None) ∧
  (∀ n, value = Some n → proper_quantity n) ∧
  ((∃ rest, base_tokens = matched_tokens ++ rest) → value = None).
Proof.
  unfold _extract_quantity_from_tokens.
  destruct (negb (nonempty matched_tokens)); [done|].
  set (base := List.filter _ base_tokens).
  set (tokens := List.filter _ matched_tokens).
  destruct (negb (nonempty (drop _ tokens))) eqn:Eq; [done|].
  set (quantity_tokens := drop _ tokens) in *.
  assert (Hall : Forall (fun c => proper_quantity c.1.2)
            (fold_left (quantity_token_step fmt quantity_tokens)
                       (enumerate quantity_tokens) ([], [])).1).
  { assert (Forall (fun c : qty_candidate => proper_quantity c.1.2)
                   (([] : list qty_candidate), ([] : list (pynum * option string))).1) as H0
      by constructor.
    revert H0. generalize (([] : list qty_candidate), ([] : list (pynum * option string))).
    generalize (enumerate quantity_tokens).
    induction l as [|it l IH]; intros acc Hacc; simpl; [done|].
    by apply IH, quantity_token_step_proper. }
  destruct (sorted_key_reverse _ _) as [|[[w value] label] rest] eqn:Es.
  - split; [done|]. split; [done|]. done.
  - split; [done|]. split.
    + intros n [= <-].
      match type of Es with
      | ?X = _ => assert (Hin : (w, value, label) ∈ X) by (rewrite Es; left)
      end.
      apply elem_of_sorted_key_reverse in Hin.
      rewrite Forall_forall in Hall. by apply (Hall _ Hin).
    + intros [more Hbase]. exfalso.
      unfold quantity_tokens, base in Eq. rewrite Hbase, List_filter_app in Eq.
      fold tokens in Eq. rewrite common_prefix_len_app, drop_all in Eq. done.
Qed.

(** ** The rows of the normaliser *)

Lemma endswith_mm_append (s : string) : str_endswith (str_lower (s +:+ " mm")) "mm" = true.
Proof.
  unfold str_endswith, str_lower. rewrite chars_str, chars_append, map_app, rev_app_distr.
  reflexivity.
Qed.

Lemma parse_table_row_line_row line row :
  parse_table_row line = Some row → line_row (with_default_table row).
Proof.
  unfold parse_table_row.
  set (tokens := str_split (str_strip line)).
  destruct (length tokens <? 4)%nat; [done|].
  destruct (negb (re_fullmatch number_re (nth 0 tokens ""%string))) eqn:Epos; [done|].
  apply negb_false_iff in Epos.
  assert (Hdisp : ∀ p, (if String.eqb (str_lower (nth (length tokens - 1) tokens ""%string)) "mm"
                        then Some (nth (length tokens - 2) tokens ""%string,
                                   slice 1 (length tokens - 2) tokens,
                                   nth (length tokens - 2) tokens ""%string +:+ " mm")
                        else if str_endswith (str_lower (nth (length tokens - 1) tokens ""%string)) "mm"
                        then Some (str_drop_end 2 (nth (length tokens - 1) tokens ""%string),
                                   slice 1 (length tokens - 1) tokens,
                                   nth (length tokens - 1) tokens ""%string)
                        else None) = Some p →
                  str_endswith (str_lower p.2) "mm" = true).
  { intros p. destruct (String.eqb _ "mm").
    - intros [= <-]. apply endswith_mm_append.
    - destruct (str_endswith _ "mm") eqn:E; [|done]. by intros [= <-]. }
  destruct (if String.eqb _ "mm" then _ else _) as [[[raw desc] disp]|]; [|done].
  specialize (Hdisp _ eq_refl). simpl in Hdisp.
  destruct (negb (nonempty desc)); [done|].
  destruct (negb (truthy _)) eqn:Edesc; [done|]. apply negb_false_iff in Edesc.
  destruct (String.eqb (clean_length_token raw) ""); [done|].
  destruct (py_float (clean_length_token raw)) as [v|] eqn:E; [|done].
  intros [= <-]. unfold line_row. simpl.
  split; [done|]. split; [intros Heq; by rewrite Heq in Edesc|].
  split; [exists v; by apply clean_length_token_nonneg in E|].
  split; [by exists disp|]. done.
Qed.

(** X17. Every row of the line mode has a bare number for its position id,
    a description that is not empty, one length, which is not negative and
    is its only length option, a length text that ends in "mm", the table
    id 1 with the label "Table 1", and neither page, anchor, thickness nor
    quantity. *)
Theorem line_mode_rows (text : string) :
  Forall line_row (extract_table_rows text).1.
Proof.
  unfold extract_table_rows. cbn [fst].
  apply Forall_forall. intros row Hrow.
  apply list_elem_of_In, in_map_iff in Hrow as (row0 & <- & Hrow0).
  apply list_elem_of_In, list_elem_of_omap in Hrow0 as (line & _ & Hline).
  by apply parse_table_row_line_row in Hline.
Qed.

Lemma parse_measure_head mt raw v opts disp :
  raw ≠ ""%string →
  parse_measure mt raw = Some (v, opts, disp) →
  head opts = Some v ∧ disp ≠ ""%string.
Proof.
  intros Hraw. unfold parse_measure.
  destruct (String.eqb mt "length").
  - destruct (String.eqb _ ""); [done|]. destruct (py_float _) as [x|]; [|done].
    intros [= <- <- <-]. split; [done|].
    destruct (str_endswith _ _); [done|]. by destruct raw.
  - destruct (String.eqb mt "size"); [|done].
    destruct (omap _ _) as [|x xs]; [done|]. by intros [= <- <- <-].
Qed.

Lemma grid_row_grid_mode_row pages h tc pi tl pw cells row key snippet :
  1 ≤ tc → 1 ≤ pi ≤ pages → tl ≠ ""%string →
  grid_row h tc pi tl pw cells = RowOk row key snippet →
  grid_mode_row pages row.
Proof.
  intros Htc Hpi Htl. unfold grid_row.
  destruct (negb (nonempty cells)); [done|].
  destruct (negb (existsb _ cells)); [done|].
  destruct (cells !! pos_idx h) as [pos_cell|]; [|done].
  destruct (negb (re_fullmatch _ _)) eqn:Epos; [done|]. apply negb_false_iff in Epos.
  destruct (cells_range _ _ _) as [desc_cells|]; [|done].
  destruct (negb (nonempty _)); [done|].
  destruct (cells !! measure_idx h) as [cell|]; [|done].
  destruct (String.eqb (str_strip cell) "") eqn:Eraw; [done|].
  apply String.eqb_neq in Eraw.
  destruct (parse_measure _ _) as [[[v opts] disp]|] eqn:Hm; [|done].
  destruct (parse_measure_head _ _ _ _ _ Eraw Hm) as [Hhead Hdisp].
  intros [= <- _ _]. unfold grid_mode_row. simpl.
  split; [done|]. split.
  { exists v. split; [done|]. by destruct opts. }
  split.
  { intros t Ht. destruct (head _ ≫= py_float) as [x|]; [|done].
    simpl in Ht. injection Ht as <-. apply Qabs_nonneg. }
  split; [by exists pi|]. split; [by exists tc|].
  split; [by destruct tl|]. split; [by destruct disp|]. done.
Qed.

Lemma grid_rows_ok_step pages h pi tl pw data_rows st st' :
  1 ≤ ex_table_counter st → 1 ≤ pi ≤ pages → tl ≠ ""%string →
  grid_rows_ok pages st →
  grid_rows h pi tl pw data_rows st = Some st' →
  grid_rows_ok pages st' ∧ ex_table_counter st' = ex_table_counter st.
Proof.
  intros Htc Hpi Htl. revert st Htc.
  induction data_rows as [|cells rest IH]; intros st Htc Hst; simpl.
  - by intros [= <-].
  - destruct (grid_row h (ex_table_counter st) pi tl pw cells) as [| |row key snippet] eqn:E;
      [by apply IH|done|].
    destruct (existsb _ _); [by apply IH|].
    intros H. apply IH in H as [H1 H2]; [done|done|].
    unfold grid_rows_ok. simpl. apply Forall_app. split; [done|].
    constructor; [|constructor]. by eapply grid_row_grid_mode_row.
Qed.

Lemma table_label_nonempty (title : option string) (default_label : string) :
  default_label ≠ ""%string →
  match title with Some (String c t) => String c t | _ => default_label end ≠ ""%string.
Proof. by destruct title as [[|c t]|]. Qed.

Lemma process_table_ok pages pi hs pw table st st' :
  1 ≤ pi ≤ pages → grid_rows_ok pages st →
  process_table pi hs pw table st = Some st' →
  grid_rows_ok pages st'.
Proof.
  intros Hpi Hst. unfold process_table.
  destruct (negb (nonempty table)); [by intros [= <-]|].
  destruct (negb _ && negb hs); [by intros [= <-]|].
  destruct (find_header 0 _) as [h|]; [|by intros [= <-]].
  destruct (_ || _); [by intros [= <-]|].
  intros H. eapply grid_rows_ok_step in H as [H _]; [done|simpl; lia|done| |done].
  apply table_label_nonempty. intros E. apply (f_equal chars) in E.
  by rewrite chars_append in E.
Qed.

Lemma process_tables_ok pages pi hs pw tables st st' :
  1 ≤ pi ≤ pages → grid_rows_ok pages st →
  process_tables pi hs pw tables st = Some st' →
  grid_rows_ok pages st'.
Proof.
  intros Hpi. revert st. induction tables as [|table rest IH]; intros st Hst; simpl.
  - by intros [= <-].
  - destruct (process_table pi hs pw table st) as [st1|] eqn:E; [|done].
    apply IH. by eapply process_table_ok.
Qed.

Lemma process_pages_ok pages pi pgs st st' :
  1 ≤ pi → pi + length pgs ≤ S pages → grid_rows_ok pages st →
  process_pages pi pgs st = Some st' →
  grid_rows_ok pages st'.
Proof.
  revert pi st. induction pgs as [|pg rest IH]; intros pi st Hpi Hlen Hst; simpl.
  - by intros [= <-].
  - destruct (process_tables _ _ _ _ st) as [st1|] eqn:E; [|done].
    simpl in Hlen. apply IH; [lia|lia|].
    eapply process_tables_ok; [|done|exact E]. lia.
Qed.

(** X18. Every row of the grid mode has a bare number for its position id,
    a length that is the first of its length options, a thickness that is
    not negative if it has one, the number of a page of the document, a
    table id from 1 on, a label and a length text that are not empty, and no
    duplicate mark yet. The words returned are those of the pages, page by
    page, unless a cell was missing from a row, in which case nothing at
    all is returned. *)
Theorem grid_mode_rows (pages : list page) :
  let '(rows, snippets, words_by_page) := extract_rows_with_plumber pages in
  Forall (grid_mode_row (length pages)) rows ∧
  (words_by_page = map page_words pages ∨
   rows = [] ∧ snippets = [] ∧ words_by_page = []).
Proof.
  unfold extract_rows_with_plumber.
  destruct (process_pages 1 pages _) as [st|] eqn:E.
  - split; [|by left].
    eapply (process_pages_ok (length pages)) in E; [done|lia|simpl; lia|constructor].
  - split; [constructor|by right].
Qed.

(** ** Table areas *)

Lemma bbox_in_table_area_grows self page_idx inner outer :
  box_within inner outer →
  _bbox_in_table_area self page_idx inner = true →
  _bbox_in_table_area self page_idx outer = true.
Proof.
  intros (H0 & H1 & Ht & Hb). unfold _bbox_in_table_area.
  destruct (App.table_anchors_by_page self !! page_idx) as [anchors|]; [|done].
  rewrite !existsb_exists. intros (anchor & Hin & Ha). exists anchor. split; [done|].
  apply negb_true_iff in Ha. apply negb_true_iff.
  apply orb_false_iff in Ha as [Ha Ha4]. apply orb_false_iff in Ha as [Ha Ha3].
  apply orb_false_iff in Ha as [Ha1 Ha2].
  apply Qltb_ge in Ha1, Ha2, Ha3, Ha4.
  repeat (apply orb_false_iff; split); apply Qltb_ge; lra.
Qed.

(** X19. A page without table anchors has no table area: no box lies in
    one. And a box that holds a box lying in a table area lies in a table
    area itself. *)
Theorem table_area_of_boxes (self : App.t) (page_idx : nat) (inner outer : BBox.t) :
  (default [] (App.table_anchors_by_page self !! page_idx) = [] →
     _bbox_in_table_area self page_idx inner = false) ∧
  (box_within inner outer →
     _bbox_in_table_area self page_idx inner = true →
     _bbox_in_table_area self page_idx outer = true).
Proof.
  split; [|apply bbox_in_table_area_grows].
  unfold _bbox_in_table_area.
  destruct (App.table_anchors_by_page self !! page_idx) as [anchors|]; [|done].
  simpl. by intros ->.
Qed.

(** ** Taking the table out of the page texts *)

Lemma splitlines_from_line cur l :
  Forall (fun c => is_linebreak c = false) l →
  splitlines_from cur l = match rev cur ++ l with [] => [] | _ :: _ => [rev cur ++ l] end.
Proof.
  revert cur. induction l as [|c l IH]; intros cur Hl; simpl.
  - rewrite app_nil_r. destruct cur as [|x cur]; [done|]. simpl.
    by destruct (rev cur ++ [x]) eqn:E; [apply app_eq_nil in E as [_ ?]|].
  - apply Forall_cons in Hl as [Hc Hl].
    assert (Ascii.eqb c "013" = false) as ->.
    { destruct (Ascii.eqb c "013") eqn:E; [|done]. apply Ascii.eqb_eq in E as ->. done. }
    rewrite Hc, IH by done. simpl. by rewrite <- app_assoc.
Qed.

Lemma splitlines_from_newline cur l rest :
  Forall (fun c => is_linebreak c = false) l →
  splitlines_from cur (l ++ "010"%char :: rest) = (rev cur ++ l) :: splitlines_from [] rest.
Proof.
  revert cur. induction l as [|c l IH]; intros cur Hl; simpl.
  - by rewrite app_nil_r.
  - apply Forall_cons in Hl as [Hc Hl].
    assert (Ascii.eqb c "013" = false) as ->.
    { destruct (Ascii.eqb c "013") eqn:E; [|done]. apply Ascii.eqb_eq in E as ->. done. }
    rewrite Hc, IH by done. simpl. by rewrite <- app_assoc.
Qed.

Lemma splitlines_from_no_break cur l :
  Forall (fun c => is_linebreak c = false) cur →
  Forall (Forall (fun c => is_linebreak c = false)) (splitlines_from cur l).
Proof.
  revert cur. induction l as [l IH] using (induction_ltof1 _ (@length ascii)).
  unfold ltof in IH. intros cur Hcur.
  destruct l as [|c l]; simpl.
  - destruct cur; [constructor|]. constructor; [|constructor]. by apply Forall_rev.
  - destruct (Ascii.eqb c "013") eqn:E13.
    + destruct l as [|[[] [] [] [] [] [] [] []] l'];
        (constructor; [by apply Forall_rev|apply IH; [simpl; lia|constructor]]).
    + destruct (is_linebreak c) eqn:Eb.
      * constructor; [by apply Forall_rev|]. apply IH; [simpl; lia|constructor].
      * apply IH; [simpl; lia|]. by constructor.
Qed.

Lemma str_splitlines_no_break text line :
  line ∈ str_splitlines text → Forall (fun c => is_linebreak c = false) (chars line).
Proof.
  unfold str_splitlines. intros (l & -> & Hl)%list_elem_of_fmap.
  rewrite chars_str.
  pose proof (splitlines_from_no_break [] (chars text) (Forall_nil_2 _)) as H.
  rewrite Forall_forall in H. by apply H.
Qed.

Lemma chars_join_cons sep x y rest :
  chars (join sep (x :: y :: rest)) = chars x ++ chars sep ++ chars (join sep (y :: rest)).
Proof. unfold join. simpl. by rewrite !chars_append. Qed.

Lemma splitlines_join lines line :
  Forall (fun l => Forall (fun c => is_linebreak c = false) (chars l)) lines →
  line ∈ str_splitlines (join (String "010" "") lines) → line ∈ lines.
Proof.
  unfold str_splitlines.
  induction lines as [|x lines IH]; intros Hall.
  - simpl. by intros ?%elem_of_nil.
  - apply Forall_cons in Hall as [Hx Hall]. destruct lines as [|y lines].
    + unfold join. simpl. rewrite splitlines_from_line by done. simpl.
      destruct (chars x) eqn:E; [by intros ?%elem_of_nil|].
      intros ->%list_elem_of_singleton. rewrite <- E, str_chars. left.
    + rewrite chars_join_cons. change (chars (String "010" "")) with ["010"%char].
      simpl. rewrite splitlines_from_newline by done. simpl.
      intros [->|H]%elem_of_cons; [rewrite str_chars; left|].
      right. by apply IH.
Qed.

Lemma is_prefix_refl l : is_prefix l l = true.
Proof. induction l as [|c l IH]; simpl; [done|]. by rewrite Ascii.eqb_refl. Qed.

Lemma contains_refl l : contains l l = true.
Proof. destruct l; simpl; [done|]. by rewrite Ascii.eqb_refl, is_prefix_refl. Qed.

(** X20. Taking the table snippets out of the page texts keeps the number
    of pages, leaves a page without snippet as it is, and leaves on every
    page only lines of that page in which no snippet of the page occurs,
    letter case apart. *)
Theorem table_snippets_removed (page_texts : list string) (snippets : list (nat * string)) :
  let cleaned := remove_table_snippets_from_pages page_texts snippets in
  length cleaned = length page_texts ∧
  (∀ i text, page_texts !! i = Some text →
     (∀ line, ¬ snippet_in_line snippets (S i) line) → cleaned !! i = Some text) ∧
  (∀ i text, cleaned !! i = Some text →
     ∃ text0, page_texts !! i = Some text0 ∧
       ∀ line, line ∈ str_splitlines text →
               line ∈ str_splitlines text0 ∧ ¬ snippet_in_line snippets (S i) line).
Proof.
  unfold remove_table_snippets_from_pages.
  set (lowers := fun i : nat =>
         map str_lower
             (List.filter (fun snippet => nonempty (chars snippet))
                (omap (fun ps : nat * string =>
                         if (ps.1 =? S i)%nat then Some ps.2 else None) snippets))).
  assert (Hlow : ∀ i s, s ∈ lowers i ↔
            ∃ snippet, (S i, snippet) ∈ snippets ∧ snippet ≠ ""%string ∧ s = str_lower snippet).
  { intros i s. unfold lowers. rewrite list_elem_of_In, in_map_iff. split.
    - intros (snippet & <- & Hin). apply list_elem_of_In, elem_of_List_filter in Hin as [Hin Hne].
      apply list_elem_of_omap in Hin as ([p sn] & Hin & Hp). simpl in Hp.
      destruct (p =? S i)%nat eqn:E; [|done]. apply Nat.eqb_eq in E as ->.
      injection Hp as ->. exists snippet. split; [done|]. split; [|done].
      by apply nonempty_chars_true.
    - intros (snippet & Hin & Hne & ->). exists snippet. split; [done|].
      apply list_elem_of_In, elem_of_List_filter. split; [|by apply nonempty_chars_true].
      apply list_elem_of_omap. exists (S i, snippet). split; [done|]. simpl.
      by rewrite Nat.eqb_refl. }
  assert (Hnone : ∀ i, (∀ line, ¬ snippet_in_line snippets (S i) line) → lowers i = []).
  { intros i Hno. destruct (lowers i) as [|s l] eqn:E; [done|]. exfalso.
    assert (s ∈ lowers i) as (snippet & Hin & Hne & ->)%Hlow by (rewrite E; left).
    apply (Hno snippet). exists snippet. split; [done|]. split; [done|].
    apply contains_refl. }
  assert (Hsn : ∀ i line, snippet_in_line snippets (S i) line ↔
            existsb (fun snippet => str_contains snippet (str_lower line)) (lowers i) = true).
  { intros i line. rewrite existsb_exists. split.
    - intros (snippet & Hin & Hne & Hc). exists (str_lower snippet). split; [|done].
      apply list_elem_of_In, Hlow. by exists snippet.
    - intros (s & (snippet & Hin & Hne & ->)%list_elem_of_In%Hlow & Hc). by exists snippet. }
  destruct (negb (nonempty page_texts) || negb (nonempty snippets)) eqn:E; cbv zeta.
  - split; [done|]. split; [done|]. intros i text Hi. exists text. split; [done|].
    intros line Hline. split; [done|]. intros (snippet & Hin & _).
    apply orb_true_iff in E as [E|E]; apply negb_true_iff in E.
    + destruct page_texts; [by rewrite lookup_nil in Hi|done].
    + destruct snippets; [by apply elem_of_nil in Hin|done].
  - split; [apply length_imap|]. split.
    + intros i text Hi Hno. rewrite list_lookup_imap, Hi. simpl.
      fold (lowers i). by rewrite (Hnone i Hno).
    + intros i text. rewrite list_lookup_imap.
      destruct (page_texts !! i) as [text0|]; [|done]. simpl. fold (lowers i).
      intros [= <-]. exists text0. split; [done|]. intros line Hline.
      destruct (negb (nonempty (lowers i))) eqn:El.
      * split; [done|]. rewrite Hsn. apply negb_true_iff in El.
        destruct (lowers i); [simpl; done|done].
      * apply splitlines_join in Hline.
        -- apply elem_of_List_filter in Hline as [Hline Hkeep].
           split; [done|]. rewrite Hsn. apply negb_true_iff in Hkeep. by rewrite Hkeep.
        -- apply Forall_forall. intros l [Hl _]%elem_of_List_filter.
           by apply str_splitlines_no_break in Hl.
Qed.

(** ** Taking the table out of the page words *)

Lemma List_filter_sublist {A : Type} (p : A → bool) (l : list A) :
  sublist (List.filter p l) l.
Proof.
  induction l as [|x l IH]; simpl; [constructor|].
  destruct (p x); by constructor.
Qed.

Lemma imap_snd {A B : Type} (g : nat → A → B * A) (l : list A) :
  (∀ i x, (g i x).2 = x) → map snd (imap g l) = l.
Proof.
  revert g. induction l as [|x l IH]; intros g Hg; simpl; [done|].
  rewrite Hg. f_equal. apply IH. intros i y. apply Hg.
Qed.

Lemma enumerate_snd {A : Type} (l : list A) : map snd (enumerate l) = l.
Proof. by apply imap_snd. Qed.

Lemma table_word_indices_none self page_idx words pattern :
  default [] (App.table_anchors_by_page self !! page_idx) = [] →
  table_word_indices self page_idx words pattern = [].
Proof.
  intros Hno. unfold table_word_indices.
  destruct (length pattern =? 0)%nat; [done|].
  induction (seq 0 _) as [|i l IH]; simpl; [done|]. rewrite IH, app_nil_r.
  destruct (negb (forallb _ _)); [done|]. destruct (negb (is_prefix_list _ _)); [done|].
  destruct (take _ (drop i words)) as [|w ws]; [done|].
  assert (∀ b, _bbox_in_table_area self page_idx b = false) as ->; [|done].
  intros b. unfold _bbox_in_table_area.
  destruct (App.table_anchors_by_page self !! page_idx) as [anchors|]; [|done].
  simpl in Hno. by rewrite Hno.
Qed.

(** X21. Taking the table words out of the page words keeps the number of
    pages and the order of the words: what is left of a page is a sublist of
    its words. A page without table anchors keeps all its words. *)
Theorem table_words_removed (self : App.t) (table_snippets : list (nat * string)) :
  let cleaned := _remove_table_words_from_pages self table_snippets in
  length cleaned = length (App.page_words self) ∧
  (∀ i words', cleaned !! i = Some words' →
     ∃ words, App.page_words self !! i = Some words ∧ sublist words' words) ∧
  (∀ i words, App.page_words self !! i = Some words →
     default [] (App.table_anchors_by_page self !! S i) = [] →
     cleaned !! i = Some words).
Proof.
  unfold _remove_table_words_from_pages.
  destruct (negb (nonempty (App.page_words self)) || negb (nonempty table_snippets)); cbv zeta.
  - split; [done|]. split; [|done]. intros i words' Hi. by exists words'.
  - split; [apply length_imap|]. split.
    + intros i words'. rewrite list_lookup_imap.
      destruct (App.page_words self !! i) as [words|]; [|done]. simpl.
      intros [= <-]. exists words. split; [done|].
      rewrite <- (enumerate_snd words) at 2.
      change (map snd ?l) with (snd <$> l). apply fmap_sublist, List_filter_sublist.
    + intros i words Hi Hno. rewrite list_lookup_imap, Hi. simpl. f_equal.
      assert (flat_map (table_word_indices self (S i) words)
                (List.filter nonempty
                   (omap (fun ps : nat * string =>
                            if (ps.1 =? S i)%nat
                            then Some (normalized_parts space_re ps.2) else None)
                         table_snippets)) = []) as ->.
      { induction (List.filter _ _) as [|pt l IH]; simpl; [done|].
        by rewrite IH, table_word_indices_none. }
      rewrite filter_all; [apply enumerate_snd|].
      apply Forall_forall. by intros [j w] _.
Qed.

(** ** Where the geometric lookup finds a callout *)

Lemma match_outside_tables_spec self page_idx words sequences bbox tokens :
  match_outside_tables self page_idx words sequences = Some (bbox, tokens) →
  tokens ∈ sequences ∧ _match_callout_on_page tokens words = Some bbox ∧
  _bbox_in_table_area self page_idx bbox = false.
Proof.
  unfold match_outside_tables. intros (t & Ht & H)%first_some_Some.
  destruct (_match_callout_on_page t words) as [b|] eqn:Em; [|done].
  destruct (_bbox_in_table_area self page_idx b) eqn:Ea; [done|].
  by injection H as -> ->.
Qed.

(** X22. A callout found by the geometric lookup: the tokens reported are
    one of the normalised variants, the words of the page reported spell
    them, the box reported is the box of these words and lies in no table
    area, and the candidates reported are what the search above that box
    gives. *)
Theorem geometry_callout_outside_tables fmt (self : App.t)
    (token_variants : list (list string)) (desc_numbers : list Q)
    (expected_value : option Q) (prefer_max : bool) (base_length : nat)
    (base_tokens : list string) (value : option Q) (page : option nat) (meta : Meta.t) :
  _geometry_lookup fmt self token_variants desc_numbers expected_value prefer_max
    base_length base_tokens = (true, value, page, meta) →
  ∃ p words bbox tokens,
    page = Some p ∧ App.page_words self !! (p - 1)%nat = Some words ∧
    tokens ∈ _normalize_token_variants token_variants ∧
    _match_callout_on_page tokens words = Some bbox ∧
    _bbox_in_table_area self p bbox = false ∧
    Meta.bbox meta = Some bbox ∧ Meta.tokens meta = Some tokens ∧
    Meta.candidates meta = (_find_length_above_bbox words (Some bbox) desc_numbers tokens).1.
Proof.
  unfold _geometry_lookup.
  destruct (negb (nonempty (App.page_words self))); [done|].
  destruct (negb (nonempty (_normalize_token_variants token_variants))); [done|].
  destruct (first_some _ _) as [[[[p words] bbox] tokens]|] eqn:E; [|done].
  apply first_some_Some in E as (p' & _ & E).
  destruct (App.page_words self !! (p' - 1)%nat) as [words'|] eqn:El; [|done].
  destruct (match_outside_tables _ _ _ _) as [[bbox' tokens']|] eqn:Em; [|done].
  injection E as -> -> -> ->.
  apply match_outside_tables_spec in Em as (Ht & Hm & Ha).
  destruct (_find_length_above_bbox _ _ _ _) as [candidates boxes] eqn:Ef.
  destruct (_pick_candidate _ _ _ _) as [best mode].
  destruct (_extract_quantity_from_tokens _ _ _) as [qv ql].
  intros [= <- <- <-]. exists p, words, bbox, tokens. simpl.
  repeat (split; [done|]). by rewrite Ef.
Qed.

Lemma geometry_callout_outside_tables_witness :
  ∃ p words bbox tokens,
    Some 1%nat = Some p ∧ App.page_words tank_app !! (p - 1)%nat = Some words ∧
    tokens ∈ _normalize_token_variants [["3"; "plate"]]%string ∧
    _match_callout_on_page tokens words = Some bbox ∧
    _bbox_in_table_area tank_app p bbox = false.
Proof.
  destruct (geometry_callout_outside_tables whole_number_format tank_app
              [["3"; "plate"]]%string [] (Some 250%Q) true 2 ["3"; "plate"]%string
              (Some 250%Q) (Some 1%nat)
              (_geometry_lookup whole_number_format tank_app [["3"; "plate"]]%string []
                 (Some 250%Q) true 2 ["3"; "plate"]%string).2)
    as (p & words & bbox & tokens & H1 & H2 & H3 & H4 & H5 & _).
  - vm_compute. reflexivity.
  - by exists p, words, bbox, tokens.
Defined.

(** ** The summary of an analysis *)

Lemma count_if_le {A : Type} (p : A → bool) (l : list A) : count_if p l ≤ length l.
Proof. unfold count_if. apply List.filter_length_le. Qed.

Lemma count_if_all {A : Type} (p : A → bool) (l : list A) :
  count_if p l = length l ↔ Forall (fun x => p x = true) l.
Proof.
  unfold count_if. induction l as [|x l IH]; simpl.
  - split; [constructor|done].
  - destruct (p x) eqn:E; simpl.
    + rewrite Forall_cons. split.
      * intros [= H]. split; [done|]. by apply IH.
      * intros [_ H]. f_equal. by apply IH.
    + split.
      * intros H. pose proof (List.filter_length_le p l). lia.
      * intros [H _]%Forall_cons. congruence.
Qed.

Lemma fail_count_zero results :
  fail_count results = 0 ↔ Forall (fun r => Result.status r = "PASS"%string) results.
Proof.
  unfold fail_count, pass_count.
  pose proof (count_if_le is_pass results) as Hle.
  rewrite <- (Forall_iff (fun r => is_pass r = true)) by (intros r; apply String.eqb_eq).
  rewrite <- count_if_all. lia.
Qed.

(** X23. The summary says "Overall PASS", and the dialog at the end is the
    plain notice "All matched", exactly when every verdict is PASS; the
    summary then counts all the positions as matched. Otherwise the dialog
    is the warning "Mismatches found". *)
Theorem summary_overall_pass (results : list Result.t) (analysis : pos_analysis) :
  let n := pretty (length results) in
  (Forall (fun r => Result.status r = "PASS"%string) results ↔
   head (summary_parts results analysis)
     = Some ("Overall PASS - " +:+ n +:+ "/" +:+ n +:+ " positions matched.")) ∧
  (Forall (fun r => Result.status r = "PASS"%string) results ↔
   outcome_dialog results analysis
     = ShowInfo "All matched" (base_summary_text results analysis)) ∧
  (¬ Forall (fun r => Result.status r = "PASS"%string) results →
   ∃ message, outcome_dialog results analysis = ShowWarning "Mismatches found" message).
Proof.
  cbv zeta. rewrite <- fail_count_zero.
  unfold summary_parts, outcome_dialog, summary_line. cbv zeta. cbn [head app].
  destruct (fail_count results =? 0)%nat eqn:E.
  - apply Nat.eqb_eq in E. split; [|split].
    + split; [|done]. intros _.
      assert (pass_count results = length results) as ->; [|done].
      unfold fail_count in E. pose proof (count_if_le is_pass results) as Hle.
      unfold pass_count in *. lia.
    + done.
    + done.
  - apply Nat.eqb_neq in E. split; [|split].
    + split; [done|]. intros H. simpl in H. discriminate H.
    + split; [done|]. intros H. simpl in H. discriminate H.
    + intros _. by eexists.
Qed.

(** ** The warning about the failing rows *)

Lemma warning_loop_few results lines :
  length lines + count_if is_fail results < 7 →
  warning_loop results lines = lines ++ map failure_detail (List.filter is_fail results).
Proof.
  unfold count_if. revert lines.
  induction results as [|r rest IH]; intros lines; cbn [warning_loop List.filter map].
  - by rewrite app_nil_r.
  - destruct (is_fail r); cbn [map length]; intros H.
    + assert ((7 <=? length (lines ++ [failure_detail r]))%nat = false) as ->.
      { apply Nat.leb_gt. rewrite length_app. simpl. lia. }
      rewrite IH, <- app_assoc; [done|]. rewrite length_app. simpl. lia.
    + by apply IH.
Qed.

Lemma warning_loop_many results lines :
  length lines < 7 → 7 ≤ length lines + count_if is_fail results →
  warning_loop results lines
    = lines ++ map failure_detail (take (7 - length lines) (List.filter is_fail results))
      ++ ["..."%string].
Proof.
  unfold count_if. revert lines.
  induction results as [|r rest IH]; intros lines; cbn [warning_loop List.filter map].
  - simpl. lia.
  - destruct (is_fail r); cbn [map length]; intros H1 H2.
    + destruct (7 <=? length (lines ++ [failure_detail r]))%nat eqn:E.
      * apply Nat.leb_le in E. rewrite length_app in E. simpl in E.
        replace (7 - length lines)%nat with 1%nat by lia. simpl.
        by rewrite <- app_assoc.
      * apply Nat.leb_gt in E. rewrite length_app in E. simpl in E.
        rewrite IH; rewrite ?length_app; simpl; [|lia|lia].
        replace (7 - length lines)%nat with (S (7 - (length lines + 1)))%nat by lia.
        simpl. by rewrite <- app_assoc.
    + by apply IH.
Qed.

(** X24. The entries of the warning, which the dialog joins with line
    breaks: the summary, an empty entry, and the failing rows in their
    order. With four failing rows or fewer all of them are listed; with five
    or more the first five are listed and the entry "..." ends the list, so
    the list never has more than eight entries. *)
Theorem warning_lists_five (results : list Result.t) (base : string) :
  let failing := List.filter is_fail results in
  let lines := warning_loop results [base; ""%string] in
  (length failing ≤ 4 → lines = [base; ""%string] ++ map failure_detail failing) ∧
  (5 ≤ length failing →
     lines = [base; ""%string] ++ map failure_detail (take 5 failing) ++ ["..."%string]) ∧
  length lines ≤ 8.
Proof.
  cbv zeta.
  assert (H4 : length (List.filter is_fail results) ≤ 4 →
               warning_loop results [base; ""%string]
               = [base; ""%string] ++ map failure_detail (List.filter is_fail results)).
  { intros H. apply warning_loop_few. unfold count_if. simpl. lia. }
  assert (H5 : 5 ≤ length (List.filter is_fail results) →
               warning_loop results [base; ""%string]
               = [base; ""%string] ++ map failure_detail (take 5 (List.filter is_fail results))
                 ++ ["..."%string]).
  { intros H. apply (warning_loop_many results [base; ""%string]); unfold count_if; simpl; lia. }
  split; [done|]. split; [done|].
  destruct (decide (length (List.filter is_fail results) ≤ 4)) as [Hle|Hgt].
  - rewrite (H4 Hle), length_app, length_map. cbn [length]. lia.
  - rewrite H5 by lia. rewrite !length_app, length_map, length_take. cbn [length]. lia.
Qed.

Lemma warning_lists_five_witness :
  warning_loop [failing_result "1"; failing_result "2"] ["summary"; ""]%string
  = ["summary"; ""]%string
    ++ map failure_detail (List.filter is_fail [failing_result "1"; failing_result "2"]).
Proof.
  destruct (warning_lists_five [failing_result "1"; failing_result "2"] "summary")
    as [H _].
  apply H. simpl. lia.
Defined.

(** ** The history of analysed files *)

Section HistoryFacts.
Context {spell_issues : Type}.
Implicit Types (history : list (@history_entry spell_issues)).

Lemma filter_other_files history file_name :
  Forall (fun e => he_file e ≠ file_name)
         (List.filter (fun e => negb (String.eqb (he_file e) file_name)) history).
Proof.
  eapply Forall_impl; [apply filter_Forall|].
  intros e He. simpl in He. apply negb_true_iff in He. by apply String.eqb_neq.
Qed.

(** X25. Adding an analysis to the history. Without a file name or without
    results the history stays as it is. Otherwise the new entry comes first,
    no other entry is left for the same file, the entries kept are at most
    three, and they are, in their order, the first of the former entries for
    other files. A history with one entry per file keeps one entry per
    file. *)
Theorem history_entry_added history (issues : spell_issues)
    (file_name summary_text : string) (results : list Result.t)
    (analysis : option pos_analysis) :
  let history' :=
    _add_history_entry history issues file_name summary_text results analysis in
  let others := List.filter (fun e => negb (String.eqb (he_file e) file_name)) history in
  (file_name = ""%string ∨ results = [] → history' = history) ∧
  (file_name ≠ ""%string → results ≠ [] →
     history' = {| he_file := file_name; he_summary := summary_text;
                   he_results := results; he_pos_analysis := analysis;
                   he_spell_issues := issues |} :: take 2 others ∧
     length history' ≤ 3 ∧
     Forall (fun e => he_file e ≠ file_name) (tail history')) ∧
  (NoDup (map he_file history) → NoDup (map he_file history')).
Proof.
  cbv zeta. unfold _add_history_entry.
  set (others := List.filter _ history).
  set (entry := {| he_file := file_name |}).
  assert (Hkeep : (if (3 <? length (entry :: others))%nat
                   then take 3 (entry :: others) else entry :: others)
                  = entry :: take 2 others).
  { destruct (3 <? length (entry :: others))%nat eqn:E; [done|].
    apply Nat.ltb_ge in E. simpl in E. rewrite take_ge; [done|lia]. }
  rewrite Hkeep. clear Hkeep.
  pose proof (filter_other_files history file_name) as Hothers. fold others in Hothers.
  split; [|split].
  - intros [->| ->]; [done|]. by rewrite orb_true_r.
  - intros Hf Hr. apply nonempty_chars_true in Hf. apply nonempty_true in Hr.
    rewrite Hf, Hr. simpl. split; [done|]. split.
    + rewrite length_take. lia.
    + by apply Forall_take.
  - intros Hnd. destruct (negb _ || negb _); [done|].
    simpl. apply NoDup_cons. split.
    + intros Hin. apply list_elem_of_In, in_map_iff in Hin as (e & He & Hin).
      apply list_elem_of_In, elem_of_take in Hin as (i & Hi & _).
      apply list_elem_of_lookup_2 in Hi.
      rewrite Forall_forall in Hothers. by apply (Hothers e Hi).
    + change (map he_file ?l) with (he_file <$> l) in *.
      eapply sublist_NoDup; [exact Hnd|].
      apply fmap_sublist. etrans; [apply sublist_take|]. apply List_filter_sublist.
Qed.
End HistoryFacts.

(** ** The analysis of a document *)

Lemma compare_rows_rows fmt engine rows :
  map Result.row (compare_rows fmt engine rows) = rows.
Proof.
  unfold compare_rows. change (map Result.row ?l) with (Result.row <$> l).
  rewrite fmap_imap. rewrite (imap_ext _ (fun _ row => row)).
  - induction rows as [|r rows IH] using rev_ind; [done|].
    by rewrite imap_app, IH.
  - intros i row _. apply compare_row_row.
Qed.

Lemma compare_row_duplicate_fails fmt engine i row :
  Row._pos_duplicate row = true →
  Result.status (compare_row fmt engine i row) = "FAIL"%string.
Proof.
  intros Hdup. rewrite compare_row_status, compare_row_row, Hdup.
  by rewrite andb_false_r.
Qed.

(** X26. The analysis of a document gives nothing exactly when neither mode
    of the normaliser finds a row. Otherwise it gives one verdict per row, in
    the order of the rows, for the rows of the grid mode if there are any and
    for those of the line mode if not; each verdict carries its row with the
    duplicate mark of the row, and a row marked as a duplicate fails. *)
Theorem analysis_per_row fmt (page_texts_raw : list string) (text : string)
    (pages : list page) :
  let rows := normalized_rows text pages in
  match analyze fmt page_texts_raw text pages with
  | None => rows = []
  | Some results =>
      rows ≠ [] ∧
      map Result.row results = mark_duplicates rows ∧
      Forall (fun r => Row._pos_duplicate (Result.row r) = true →
                       Result.status r = "FAIL"%string) results
  end.
Proof.
  cbv zeta. unfold analyze, normalized_rows.
  destruct (extract_rows_with_plumber pages) as [[rows snippets] words]. cbn [fst snd].
  destruct (nonempty rows) eqn:Erows.
  - split; [by apply nonempty_true|]. split; [apply compare_rows_rows|].
    apply compare_rows_Forall. intros i row Hdup.
    rewrite compare_row_row in Hdup. by apply compare_row_duplicate_fails.
  - destruct (extract_table_rows text) as [lrows drawing_text]. cbn [fst].
    destruct (nonempty lrows) eqn:El; [|by destruct lrows].
    split; [by apply nonempty_true|]. split; [apply compare_rows_rows|].
    apply compare_rows_Forall. intros i row Hdup.
    rewrite compare_row_row in Hdup. by apply compare_row_duplicate_fails.
Qed.

(** ** Numbers in a word *)










(** ** The header of a table *)

Lemma to_upper_lower (c : ascii) : to_upper (to_lower c) = to_upper c.
Proof. destruct c as [[] [] [] [] [] [] [] []]; reflexivity. Qed.

Lemma str_upper_lower (s : string) : str_upper (str_lower s) = str_upper s.
Proof.
  unfold str_upper, str_lower. rewrite chars_str, map_map. f_equal.
  apply map_ext. intros c. apply to_upper_lower.
Qed.

Lemma header_matches_lower cell keywords :
  _header_matches (str_lower cell) keywords = _header_matches cell keywords.
Proof. unfold _header_matches, _normalize_header_token. by rewrite str_upper_lower. Qed.

Lemma find_index_map {A B : Type} (f : A → B) (p : B → bool) (l : list A) :
  find_index p (map f l) = find_index (fun x => p (f x)) l.
Proof. induction l as [|x l IH]; simpl; [done|]. by rewrite IH. Qed.

Lemma find_header_index_lower row keywords :
  _find_header_index (map str_lower row) keywords = _find_header_index row keywords.
Proof.
  unfold _find_header_index. rewrite find_index_map.
  induction row as [|c row IH]; simpl; [done|]. by rewrite header_matches_lower, IH.
Qed.

(** X28. The header of a table is found whatever the case of the ASCII
    letters of its cells: a cell in lower case matches the keywords that the cell matches,
    and a table with all cells in lower case has its header in the same row
    with the same columns. *)
Theorem header_found_in_any_case (i : nat) (rows : list (list string))
    (cell : string) (keywords : list string) :
  _header_matches (str_lower cell) keywords = _header_matches cell keywords ∧
  find_header i (map (map str_lower) rows) = find_header i rows.
Proof.
  split; [apply header_matches_lower|].
  revert i. induction rows as [|row rows IH]; intros i; simpl; [done|].
  unfold _find_measurement_index. simpl.
  rewrite !find_header_index_lower. by rewrite IH.
Qed.

(** ** Where the text lookup finds a callout *)

Lemma first_text_hit_spec sequences lines tokens cand :
  first_text_hit sequences lines = Some (tokens, cand) →
  tokens ∈ sequences ∧
  ∃ line, line ∈ lines ∧ head cand = Some line ∧
          (∀ c, c ∈ cand → c ∈ lines) ∧
          contains_subsequence (_tokenize_page_text line) tokens = true.
Proof.
  induction lines as [|line rest IH]; simpl; [done|].
  destruct (List.find _ sequences) as [t|] eqn:E.
  - intros [= <- <-]. apply find_some in E as [Hin Hc].
    split; [by apply list_elem_of_In|]. exists line.
    split; [left|]. split; [done|]. split; [|done].
    intros c [->|Hc']%elem_of_cons; [left|right].
    destruct rest; simpl in Hc'; [by apply elem_of_nil in Hc'|].
    rewrite take_0 in Hc'. apply list_elem_of_singleton in Hc' as ->. left.
  - intros (Ht & line' & Hl & Hh & Hsub & Hc)%IH. split; [done|].
    exists line'. split; [by right|]. split; [done|]. split; [|done].
    intros c Hcin. right. by apply Hsub.
Qed.

(** X29. A callout found by the text lookup: the tokens reported are one of
    the normalised variants, and a line of the page reported holds them, one
    after the other, among its tokens. *)
Theorem text_callout_on_line fmt (self : App.t)
    (token_variants : list (list string)) (desc_numbers : list Q)
    (expected_value : option Q) (prefer_max : bool) (base_length : nat)
    (base_tokens : list string) (value : option Q) (page : option nat) (meta : Meta.t) :
  _text_lookup fmt self token_variants desc_numbers expected_value prefer_max
    base_length base_tokens = (true, value, page, meta) →
  ∃ p text line tokens,
    page = Some p ∧ App.page_texts self !! (p - 1)%nat = Some text ∧
    line ∈ str_splitlines text ∧
    tokens ∈ _normalize_token_variants token_variants ∧
    contains_subsequence (_tokenize_page_text line) tokens = true ∧
    Meta.tokens meta = Some tokens ∧ Meta.method meta = Some "text"%string.
Proof.
  unfold _text_lookup.
  destruct (negb (nonempty (App.page_texts self))); [done|].
  destruct (negb (nonempty (_normalize_token_variants token_variants))); [done|].
  destruct (first_some _ _) as [[[p tokens] lines]|] eqn:E; [|done].
  apply first_some_Some in E as ([i text] & Hi & E).
  destruct (first_text_hit _ _) as [[tokens' lines']|] eqn:Eh; [|done].
  injection E as <- -> ->.
  apply elem_of_enumerate in Hi.
  apply first_text_hit_spec in Eh as (Ht & line & Hl & _ & _ & Hc).
  destruct (_extract_quantity_from_tokens _ _ _) as [qv ql].
  destruct (text_line_value _ _ _ _) as [[best candidates] mode].
  intros [= <- <- <-]. exists (S i), text, line, tokens. simpl.
  rewrite Nat.sub_0_r. done.
Qed.

Lemma text_callout_on_line_witness :
  ∃ p text line tokens,
    Some 2%nat = Some p ∧ App.page_texts plate_text_app !! (p - 1)%nat = Some text ∧
    line ∈ str_splitlines text ∧
    tokens ∈ _normalize_token_variants [["3"; "plate"]]%string ∧
    contains_subsequence (_tokenize_page_text line) tokens = true.
Proof.
  destruct (text_callout_on_line whole_number_format plate_text_app
              [["3"; "plate"]]%string [] (Some 250%Q) true 2 ["3"; "plate"]%string
              (Some 250%Q) (Some 2%nat)
              (_text_lookup whole_number_format plate_text_app [["3"; "plate"]]%string []
                 (Some 250%Q) true 2 ["3"; "plate"]%string).2)
    as (p & text & line & tokens & H1 & H2 & H3 & H4 & H5 & _).
  - vm_compute. reflexivity.
  - by exists p, text, line, tokens.
Defined.
